(** * FixAircraftFOV: a shallow embedding of [fix_aircraft_fov.py]

    The script walks a community folder, edits the [InitialZoom] key of the
    camera sections of every [cameras.cfg] it finds, keeps a backup copy of
    each file it rewrites, and can restore the files from those backups.

    The embedding follows the script function by function.  What the script
    takes from Python's library is modelled next to it:
    - [PathLib]: the part of [pathlib.PurePath] the script uses;
    - [OS]: a file system of regular files (with read and write permission)
      and directories (in which entries can be created and removed, or
      not), with [open], [shutil.copy2], [os.remove], [os.walk];
    - [configparser]: the parser object behind the section proxies, with
      the fall-back to the default section and the [%]-interpolation of
      the values; the text format is a parameter ([parse], [write]) of the
      development, and [MiniIni] is a small reader and writer of that
      format used to run the script on concrete file systems. *)

From Stdlib Require Import Ascii.
From stdpp Require Import base strings list gmap sets.

Open Scope string_scope.
Open Scope list_scope.
Open Scope stdpp_scope.

(** ** Exceptions and results *)

Inductive parse_failure :=
  | MissingSectionHeader
  | DuplicateSection (section : string)
  | DuplicateOption (section option : string)
  | Malformed (line : string).

Inductive exn :=
  | OSError
  | ValueError
  | KeyError (key : string)
  | ParsingError (cause : parse_failure)
  | NoSectionError (section : string)
  | NoOptionError (option section : string)
  | InterpolationSyntaxError
  | InterpolationMissingOptionError (reference : string)
  | InterpolationDepthError.

Inductive result (A : Type) :=
  | Ok (a : A)
  | Raise (e : exn).
Arguments Ok {A} a.
Arguments Raise {A} e.

Definition is_ok {A} (r : result A) : bool :=
  match r with Ok _ => true | Raise _ => false end.

(** Calls in sequence: the first exception ends the sequence. *)
#[global] Instance result_ret : MRet result := λ A a, Ok a.
#[global] Instance result_bind : MBind result :=
  λ A B k r, match r with Ok a => k a | Raise e => Raise e end.
#[global] Instance result_fmap : FMap result :=
  λ A B f r, match r with Ok a => Ok (f a) | Raise e => Raise e end.

(** ** Paths

    A path is the list of its components, root first.  The script only ever
    joins a directory with a file name, asks for the suffix of the last
    component and replaces it. *)

Abbreviation Path := (list string).

Module PathLib.

(** The two path flavours and their separators: [sep] and [altsep]. *)
Inductive flavour := Posix | Windows.

Definition sep (fl : flavour) : ascii :=
  match fl with Posix => "/" | Windows => "\" end.
Definition altsep (fl : flavour) : option ascii :=
  match fl with Posix => None | Windows => Some "/"%char end.

(** [c in s] for a character [c]. *)
Fixpoint contains (c : ascii) (s : string) : bool :=
  match s with
  | EmptyString => false
  | String a s' => bool_decide (a = c) || contains c s'
  end.

Definition has_sep (fl : flavour) (s : string) : bool :=
  contains (sep fl) s
  || match altsep fl with Some a => contains a s | None => false end.

(** [s.startswith(pre)] *)
Definition startswith (pre s : string) : bool := String.prefix pre s.

(** [s.rfind('.')], [None] standing for Python's [-1]. *)
Fixpoint rfind_dot (s : string) : option nat :=
  match s with
  | EmptyString => None
  | String a s' =>
      match rfind_dot s' with
      | Some i => Some (S i)
      | None => if bool_decide (a = "."%char) then Some 0 else None
      end
  end.

(** [p.name]: the last component, empty for a path without components. *)
Definition name (p : Path) : string := default "" (last p).

(** [p.parent] *)
Definition parent (p : Path) : Path := removelast p.

(** [p / child] *)
Definition joinpath (p : Path) (child : string) : Path := p ++ [child].

(** [p.suffix]: the name from its last dot on, when that dot is neither
    the first nor the last character of the name. *)
Definition suffix (p : Path) : string :=
  let n := name p in
  match rfind_dot n with
  | Some i =>
      if bool_decide (0 < i) && bool_decide (i < String.length n - 1)
      then String.substring i (String.length n - i) n
      else ""
  | None => ""
  end.

(** [p.with_suffix(s)]: raises [ValueError] for a suffix holding a
    separator, for a non-empty suffix without a leading dot, for the
    suffix ["."], and for a path with an empty name. *)
Definition with_suffix (fl : flavour) (p : Path) (s : string) : result Path :=
  if has_sep fl s then Raise ValueError
  else if (negb (bool_decide (s = "")) && negb (startswith "." s))
          || bool_decide (s = ".")
  then Raise ValueError
  else
    let n := name p in
    if bool_decide (n = "") then Raise ValueError
    else
      let old_suffix := suffix p in
      let n' :=
        if bool_decide (old_suffix = "") then n +:+ s
        else String.substring 0 (String.length n - String.length old_suffix) n +:+ s in
      Ok (parent p ++ [n']).

End PathLib.

(** ** The file system *)

Module OS.

Record file := File { data : string; readable : bool; writable : bool }.

(** A directory lets entries be created and removed in it or not. *)
Inductive node :=
  | NFile (f : file)
  | NDir (entries_writable : bool).

#[global] Instance file_eq_dec : EqDecision file.
Proof. solve_decision. Defined.
#[global] Instance node_eq_dec : EqDecision node.
Proof. solve_decision. Defined.

Abbreviation FS := (gmap Path node).

(** [os.path.isdir(p)], [Path.is_dir()] *)
Definition is_dir (fs : FS) (p : Path) : bool :=
  match fs !! p with Some (NDir _) => true | _ => false end.

(** The directory [p] exists and entries can be created and removed in
    it. *)
Definition dir_writable (fs : FS) (p : Path) : bool :=
  match fs !! p with Some (NDir entries_writable) => entries_writable | _ => false end.

(** [Path.exists()] *)
Definition exists_ (fs : FS) (p : Path) : bool :=
  bool_decide (is_Some (fs !! p)).

(** [open(p).read()] *)
Definition read_text (fs : FS) (p : Path) : result string :=
  match fs !! p with
  | Some (NFile f) => if readable f then Ok (data f) else Raise OSError
  | _ => Raise OSError
  end.

(** [with open(p, "w") as f: f.write(s)]: an existing file must be
    writable and keeps its permissions; a new file needs a directory it
    can be created in. *)
Definition write_text (fs : FS) (p : Path) (s : string) : result FS :=
  match fs !! p with
  | Some (NFile f) =>
      if writable f
      then Ok (<[p := NFile {| data := s; readable := readable f; writable := writable f |}]> fs)
      else Raise OSError
  | Some (NDir _) => Raise OSError
  | None =>
      if dir_writable fs (PathLib.parent p)
      then Ok (<[p := NFile {| data := s; readable := true; writable := true |}]> fs)
      else Raise OSError
  end.

(** [shutil.copy2(src, dst)]: a directory [dst] stands for the file of
    [src]'s name inside it; copying a file onto itself is an error; the
    content is copied, then the permissions ([copystat]). *)
Definition copy2 (fs : FS) (src dst : Path) : result FS :=
  let dst := if is_dir fs dst then PathLib.joinpath dst (PathLib.name src) else dst in
  if bool_decide (src = dst) then Raise OSError
  else
    match fs !! src with
    | Some (NFile f) =>
        if readable f then
          match write_text fs dst (data f) with
          | Ok fs' => Ok (<[dst := NFile f]> fs')
          | Raise e => Raise e
          end
        else Raise OSError
    | _ => Raise OSError
    end.

(** [os.remove(p)]: of a regular file, whatever its own permissions,
    when entries can be removed from its directory. *)
Definition remove (fs : FS) (p : Path) : result FS :=
  match fs !! p with
  | Some (NFile _) =>
      if dir_writable fs (PathLib.parent p) then Ok (delete p fs) else Raise OSError
  | _ => Raise OSError
  end.

(** [os.walk(top, followlinks=True)]: one triple (directory, names of its
    sub-directories, names of its other entries) for [top] and for every
    directory below it.  The file system above has no links.  The order
    of the directories and of the names is the order of [elements]. *)
Definition walkable (fs : FS) (top d : Path) : bool :=
  bool_decide (top `prefix_of` d)
  && forallb (λ k, is_dir fs (take k d)) (seq (length top) (S (length d - length top))).

Definition walk_dirs (fs : FS) (top : Path) : gset Path :=
  filter (λ d, walkable fs top d = true) (dom fs).

Definition entries (fs : FS) (d : Path) (dirs : bool) : gset Path :=
  filter (λ q, q ≠ [] ∧ PathLib.parent q = d ∧ is_dir fs q = dirs) (dom fs).

Definition names (X : gset Path) : list string :=
  PathLib.name <$> elements X.

Definition walk (fs : FS) (top : Path) : list (Path * list string * list string) :=
  (λ d, (d, names (entries fs d true), names (entries fs d false)))
    <$> elements (walk_dirs fs top).

End OS.

(** ** The state of a run

    The script keeps two globals, [DRY_RUN] and [FILE_STATS]; it reads and
    writes the file system and prints to the standard output. *)

Record stats := Stats { total : nat; modified : nat; unchanged : nat; errors : nat }.

(** One constructor for each [print] of the script. *)
Inductive msg :=
  | ErrorCommunityFolder (community_folder : Path)
  | DryWouldBackup (file_path backup_file_path : Path)
  | BackedUp (file_path backup_file_path : Path)
  | WarningNoInitialZoom (section : string)
  | InfoAlreadySet (section camera_zoom : string)
  | DryWouldModify (section original_zoom camera_zoom : string)
  | ModifiedSection (section original_zoom camera_zoom : string)
  | Processing (file_path : Path)
  | InfoNoMatchingTitle (camera_name : string)
  | InfoNoChanges (file_path : Path)
  | DryWouldWrite (file_path : Path)
  | Updated (file_path : Path)
  | Error (e : exn)
  | FoundToModify (n : nat)
  | FoundToRestore (n : nat)
  | ProcessedFiles (n : nat)
  | ModifiedFiles (n : nat)
  | UnchangedFiles (n : nat)
  | RestoredFiles (n : nat)
  | BackupNotFound (n : nat)
  | FilesWithErrors (n : nat)
  | Restoring (file_path backup_file_path : Path)
  | DryWouldCopy (backup_file_path file_path : Path)
  | DryWouldRemove (backup_file_path : Path)
  | SuccessfullyRestored (file_path : Path)
  | ErrorRestoring (file_path : Path) (e : exn)
  | NoBackupFor (file_path : Path)
  | Blank.

Record world := World {
  fs : gmap Path OS.node;
  DRY_RUN : bool;
  FILE_STATS : stats;
  stdout : list msg
}.

Definition set_fs (w : world) (fs' : gmap Path OS.node) : world :=
  {| fs := fs'; DRY_RUN := DRY_RUN w; FILE_STATS := FILE_STATS w; stdout := stdout w |}.
Definition set_stats (w : world) (s : stats) : world :=
  {| fs := fs w; DRY_RUN := DRY_RUN w; FILE_STATS := s; stdout := stdout w |}.
Definition set_stdout (w : world) (out : list msg) : world :=
  {| fs := fs w; DRY_RUN := DRY_RUN w; FILE_STATS := FILE_STATS w; stdout := out |}.

(** Statements: a state transformer that returns a value or raises. *)
Definition M (A : Type) : Type := world → result A * world.

Definition ret {A} (a : A) : M A := λ w, (Ok a, w).

Definition bind {A B} (m : M A) (k : A → M B) : M B :=
  λ w, match m w with
       | (Ok a, w') => k a w'
       | (Raise e, w') => (Raise e, w')
       end.

Definition raise {A} (e : exn) : M A := λ w, (Raise e, w).

(** [try: body except Exception as e: handler(e)] *)
Definition try_except {A} (body : M A) (handler : exn → M A) : M A :=
  λ w, match body w with
       | (Ok a, w') => (Ok a, w')
       | (Raise e, w') => handler e w'
       end.

Declare Scope M_scope.
Delimit Scope M_scope with M.
Bind Scope M_scope with M.
Notation "'let*' x := m 'in' k" := (bind m (λ x, k))
  (at level 10, x pattern, m at level 100, k at level 200,
   format "'[v' 'let*'  x  :=  m  'in' '/' k ']'") : M_scope.
Notation "m ;; k" := (bind m (λ _, k))
  (at level 100, k at level 200, right associativity,
   format "'[v' m  ;; '/' k ']'") : M_scope.
Open Scope M_scope.

(** A library call that returns or raises without touching the state. *)
Definition lift {A} (r : result A) : M A := λ w, (r, w).

(** A library call on the file system. *)
Definition io (f : gmap Path OS.node → result (gmap Path OS.node)) : M unit :=
  λ w, match f (fs w) with
       | Ok fs' => (Ok tt, set_fs w fs')
       | Raise e => (Raise e, w)
       end.

Definition get_fs : M (gmap Path OS.node) := λ w, (Ok (fs w), w).
Definition get_DRY_RUN : M bool := λ w, (Ok (DRY_RUN w), w).
Definition get_FILE_STATS : M stats := λ w, (Ok (FILE_STATS w), w).
Definition put_FILE_STATS (s : stats) : M unit := λ w, (Ok tt, set_stats w s).

Definition print (m : msg) : M unit := λ w, (Ok tt, set_stdout w (stdout w ++ [m])).

(** [FILE_STATS["modified"] += 1] and its siblings. *)
Definition incr_modified : M unit :=
  λ w, let s := FILE_STATS w in
       (Ok tt, set_stats w (Stats (total s) (S (modified s)) (unchanged s) (errors s))).
Definition incr_unchanged : M unit :=
  λ w, let s := FILE_STATS w in
       (Ok tt, set_stats w (Stats (total s) (modified s) (S (unchanged s)) (errors s))).
Definition incr_errors : M unit :=
  λ w, let s := FILE_STATS w in
       (Ok tt, set_stats w (Stats (total s) (modified s) (unchanged s) (S (errors s)))).

(** [for x in xs: body(x)], threading the loop's variables [acc]. *)
Fixpoint for_each {A B} (xs : list A) (acc : B) (body : A → B → M B) : M B :=
  match xs with
  | [] => ret acc
  | x :: xs' => let* acc' := body x acc in for_each xs' acc' body
  end.

(** ** Parsed configuration documents

    A parser object holds the options of the default section and, in
    insertion order, the sections with their own options.  Option names
    keep their case ([optionxform] is the identity), so every look-up below
    is by exact name.  The values are kept as read; they are interpolated
    when a section proxy is asked for one. *)

Abbreviation Options := (list (string * string)).

Record ConfigParser := Parser {
  _defaults : Options;
  _sections : list (string * Options)
}.

Module Dict.

(** [d.get(k)] *)
Fixpoint get {V} (k : string) (d : list (string * V)) : option V :=
  match d with
  | [] => None
  | (k', v) :: d' => if bool_decide (k' = k) then Some v else get k d'
  end.

(** [d[k] = v]: an existing key keeps its position, a new one goes last. *)
Fixpoint set {V} (k : string) (v : V) (d : list (string * V)) : list (string * V) :=
  match d with
  | [] => [(k, v)]
  | (k', v') :: d' =>
      if bool_decide (k' = k) then (k, v) :: d' else (k', v') :: set k v d'
  end.

(** [list(d.keys())] *)
Definition keys {V} (d : list (string * V)) : list string := d.*1.

End Dict.

(** What [str] returns for a float: digits with a sign, a point or an
    exponent, or [inf] or [nan]; never a percent sign. *)
Record float_str := FloatStr {
  text :> string;
  text_plain : PathLib.contains "%" text = false
}.

Module configparser.

Definition DEFAULTSECT : string := "DEFAULT".
Definition MAX_INTERPOLATION_DEPTH : nat := 10.

(** *** [BasicInterpolation] *)

(** The text up to the first [)] and the text after it. *)
Fixpoint until_paren (s : string) : option (string * string) :=
  match s with
  | EmptyString => None
  | String c s' =>
      if bool_decide (c = ")"%char) then Some ("", s')
      else match until_paren s' with
           | Some (name, rest) => Some (String c name, rest)
           | None => None
           end
  end.

(** [_KEYCRE.match], the pattern being [%\(([^)]+)\)s], on a text whose
    [%] has been read: the name referred to and the number of characters
    of the reference after the [%]. *)
Definition KEYCRE_match (s : string) : option (string * nat) :=
  match s with
  | String c s' =>
      if bool_decide (c = "("%char) then
        match until_paren s' with
        | Some (String _ _ as name, String c' _) =>
            if bool_decide (c' = "s"%char) then Some (name, String.length name + 3)
            else None
        | _ => None
        end
      else None
  | EmptyString => None
  end.

(** The [while rest:] loop of [_interpolate_some], a character at a
    time: [skip] is the number of characters of [rest] already consumed
    by the escape or the reference read last; [deeper] is the call of
    [_interpolate_some] one level down; the result is the text
    accumulated. *)
Fixpoint interpolate_loop (deeper : string → result string)
    (map : string → option string) (skip : nat) (rest : string) : result string :=
  match rest with
  | EmptyString => Ok ""
  | String c rest' =>
      match skip with
      | S skip' => interpolate_loop deeper map skip' rest'
      | 0 =>
          if bool_decide (c = "%"%char) then
            match rest' with
            | String c' _ =>
                if bool_decide (c' = "%"%char) then
                  accum ← interpolate_loop deeper map 1 rest';
                  Ok (String "%" accum)
                else if bool_decide (c' = "("%char) then
                  match KEYCRE_match rest' with
                  | None => Raise InterpolationSyntaxError
                  | Some (var, n) =>
                      match map var with
                      | None => Raise (InterpolationMissingOptionError var)
                      | Some v =>
                          value ← (if PathLib.contains "%" v then deeper v else Ok v);
                          accum ← interpolate_loop deeper map n rest';
                          Ok (value +:+ accum)
                      end
                  end
                else Raise InterpolationSyntaxError
            | EmptyString => Raise InterpolationSyntaxError
            end
          else
            accum ← interpolate_loop deeper map 0 rest';
            Ok (String c accum)
      end
  end.

(** [_interpolate_some] with [levels] levels left: [depth] is
    [MAX_INTERPOLATION_DEPTH + 1 - levels]. *)
Fixpoint interpolate_some (levels : nat) (map : string → option string)
    (rest : string) : result string :=
  match levels with
  | 0 => Raise InterpolationDepthError
  | S levels' => interpolate_loop (interpolate_some levels' map) map 0 rest
  end.

Definition before_get (map : string → option string) (value : string) : result string :=
  interpolate_some MAX_INTERPOLATION_DEPTH map value.

(** [value.replace('%%', '')] *)
Fixpoint drop_escapes (s : string) : string :=
  match s with
  | String c1 (String c2 s'' as s') =>
      if bool_decide (c1 = "%"%char) && bool_decide (c2 = "%"%char) then drop_escapes s''
      else String c1 (drop_escapes s')
  | _ => s
  end.

(** [_KEYCRE.sub('', s)] *)
Fixpoint drop_references (skip : nat) (s : string) : string :=
  match s with
  | EmptyString => ""
  | String c s' =>
      match skip with
      | S skip' => drop_references skip' s'
      | 0 =>
          match (if bool_decide (c = "%"%char) then KEYCRE_match s' else None) with
          | Some (_, n) => drop_references n s'
          | None => String c (drop_references 0 s')
          end
      end
  end.

Definition before_set (value : string) : result string :=
  if PathLib.contains "%" (drop_references 0 (drop_escapes value))
  then Raise ValueError else Ok value.

(** *** The parser *)

(** [config.sections()].  The library keeps the default section out of
    [_sections], and a section has a name; the names that a parser
    object cannot hold are passed over (a document that was read has
    none, see [parse_sections] below). *)
Definition sections (config : ConfigParser) : list string :=
  filter (λ section, section ≠ "" ∧ section ≠ DEFAULTSECT) (Dict.keys (_sections config)).

Definition has_section (config : ConfigParser) (section : string) : bool :=
  bool_decide (is_Some (Dict.get section (_sections config))).

Definition has_option (config : ConfigParser) (section option : string) : bool :=
  if bool_decide (section = "") || bool_decide (section = DEFAULTSECT) then
    bool_decide (is_Some (Dict.get option (_defaults config)))
  else
    match Dict.get section (_sections config) with
    | None => false
    | Some sectiondict =>
        bool_decide (is_Some (Dict.get option sectiondict))
        || bool_decide (is_Some (Dict.get option (_defaults config)))
    end.

(** [_ChainMap(sectiondict, self._defaults)] *)
Definition ChainMap (sectiondict defaults : Options) (key : string) : option string :=
  match Dict.get key sectiondict with
  | Some value => Some value
  | None => Dict.get key defaults
  end.

Definition _unify_values (config : ConfigParser) (section : string)
  : result (string → option string) :=
  match Dict.get section (_sections config) with
  | Some sectiondict => Ok (ChainMap sectiondict (_defaults config))
  | None =>
      if bool_decide (section = DEFAULTSECT) then Ok (ChainMap [] (_defaults config))
      else Raise (NoSectionError section)
  end.

(** [config.get(section, option)] *)
Definition get (config : ConfigParser) (section option : string) : result string :=
  d ← _unify_values config section;
  match d option with
  | None => Raise (NoOptionError option section)
  | Some value => before_get d value
  end.

(** [config.set(section, option, value)], the updated parser being
    returned. *)
Definition set (config : ConfigParser) (section option value : string)
  : result ConfigParser :=
  value ← (if bool_decide (value = "") then Ok value else before_set value);
  if bool_decide (section = "") || bool_decide (section = DEFAULTSECT) then
    Ok (Parser (Dict.set option value (_defaults config)) (_sections config))
  else
    match Dict.get section (_sections config) with
    | None => Raise (NoSectionError section)
    | Some sectdict =>
        Ok (Parser (_defaults config)
              (Dict.set section (Dict.set option value sectdict) (_sections config)))
    end.

End configparser.

(** A section proxy is a view of its parser under a section name. *)
Record SectionProxy := Proxy { _parser : ConfigParser; _name : string }.

Module Section_Proxy.

(** [key in proxy] *)
Definition contains (proxy : SectionProxy) (key : string) : bool :=
  configparser.has_option (_parser proxy) (_name proxy) key.

(** [proxy[key]] *)
Definition getitem (proxy : SectionProxy) (key : string) : result string :=
  if negb (configparser.has_option (_parser proxy) (_name proxy) key)
  then Raise (KeyError key)
  else configparser.get (_parser proxy) (_name proxy) key.

(** [proxy[key] = value], the updated parser being returned. *)
Definition setitem (proxy : SectionProxy) (key value : string) : result ConfigParser :=
  configparser.set (_parser proxy) (_name proxy) key value.

End Section_Proxy.

(** The double quote character. *)
Definition dquote : ascii := ascii_of_nat 34.

(** [f'"{s}"'] *)
Definition quoted (s : string) : string :=
  String dquote (s +:+ String dquote EmptyString).

(** ** The script *)

Section Script.

(** The path flavour of the platform. *)
Variable fl : PathLib.flavour.

(** Python's floats and [str] on them. *)
Variable float : Type.
Variable str : float → float_str.

(** [configparser]'s reader, [parse strict text], and its writer. *)
Variable parse : bool → string → result ConfigParser.
Variable write : ConfigParser → string.

(** [config.read(file_path)] on a fresh parser: a file that cannot be
    opened is ignored by the library, leaving the document empty. *)
Definition config_read (strict : bool) (file_path : Path) : M ConfigParser :=
  let* fs := get_fs in
  match OS.read_text fs file_path with
  | Ok text => lift (parse strict text)
  | Raise _ => ret (Parser [] [])
  end.

(** [config[section]] *)
Definition getitem (config : ConfigParser) (section : string) : result SectionProxy :=
  if negb (bool_decide (section = configparser.DEFAULTSECT))
     && negb (configparser.has_section config section)
  then Raise (KeyError section)
  else Ok (Proxy config section).

Definition find_camera_cfg_files (community_folder : Path) : M (list Path) :=
  let* fs := get_fs in
  if negb (OS.is_dir fs community_folder) then
    print (ErrorCommunityFolder community_folder);;
    ret []
  else
    ret ('(root, dirs, files) ← OS.walk fs community_folder;
         PathLib.joinpath root <$> filter (λ file, file = "cameras.cfg") files).

Definition get_backup_file_path (file_path : Path) (backup_ext : string)
  : result Path :=
  let backup_ext :=
    if PathLib.startswith "." backup_ext then backup_ext else "." +:+ backup_ext in
  PathLib.with_suffix fl file_path (PathLib.suffix file_path +:+ backup_ext).

Definition backup_camera_cfg (file_path : Path) (backup_ext : string) : M unit :=
  let* backup_file_path := lift (get_backup_file_path file_path backup_ext) in
  let* dry := get_DRY_RUN in
  if dry then
    print (DryWouldBackup file_path backup_file_path)
  else
    io (λ fs, OS.copy2 fs file_path backup_file_path);;
    print (BackedUp file_path backup_file_path).

Definition section_matches_camera (config : ConfigParser) (section camera_name : string)
  : result bool :=
  proxy ← getitem config section;
  if negb (Section_Proxy.contains proxy "Title") then Ok false
  else
    proxy ← getitem config section;
    title ← Section_Proxy.getitem proxy "Title";
    if bool_decide (title = camera_name) then Ok true
    else
      proxy ← getitem config section;
      title ← Section_Proxy.getitem proxy "Title";
      Ok (bool_decide (title = quoted camera_name)).

(** The document is mutated in place by the script; here the updated
    document is returned with the result. *)
Definition modify_section_initialzoom
    (config : ConfigParser) (section : string) (camera_zoom : float)
  : M (ConfigParser * bool) :=
  let* proxy := lift (getitem config section) in
  if negb (Section_Proxy.contains proxy "InitialZoom") then
    print (WarningNoInitialZoom section);;
    ret (config, false)
  else
    let* proxy := lift (getitem config section) in
    let* original_zoom := lift (Section_Proxy.getitem proxy "InitialZoom") in
    if bool_decide (original_zoom = str camera_zoom) then
      print (InfoAlreadySet section (str camera_zoom));;
      ret (config, false)
    else
      let* dry := get_DRY_RUN in
      if dry then
        print (DryWouldModify section original_zoom (str camera_zoom));;
        ret (config, true)
      else
        let* proxy := lift (getitem config section) in
        let* config := lift (Section_Proxy.setitem proxy "InitialZoom" (str camera_zoom)) in
        print (ModifiedSection section original_zoom (str camera_zoom));;
        ret (config, true).

(** The loop of [modify_single_camera_cfg] over [config.sections()]: its
    body, on the loop's variables (the document, [found_matching_title]
    and [modified]), and the loop. *)
Definition modify_sections_body (camera_name : string) (camera_zoom : float)
    (section : string) (vars : ConfigParser * bool * bool)
  : M (ConfigParser * bool * bool) :=
  let '(config, found_matching_title, modified) := vars in
  let* matches := lift (section_matches_camera config section camera_name) in
  if matches then
    let* (config, changed) := modify_section_initialzoom config section camera_zoom in
    ret (config, true, if changed then true else modified)
  else ret (config, found_matching_title, modified).

Definition modify_sections (config : ConfigParser) (camera_name : string) (camera_zoom : float)
  : M (ConfigParser * bool * bool) :=
  for_each (configparser.sections config) (config, false, false)
    (modify_sections_body camera_name camera_zoom).

Definition modify_single_camera_cfg
    (file_path : Path) (camera_name : string) (camera_zoom : float)
    (backup_ext : string) (disable_strict : bool) : M unit :=
  print (Processing file_path);;
  try_except
    (let* config := config_read (negb disable_strict) file_path in
     let* (config, found_matching_title, modified) :=
       modify_sections config camera_name camera_zoom in
     (if negb found_matching_title
      then print (InfoNoMatchingTitle camera_name) else ret tt);;
     if negb modified then
       print (InfoNoChanges file_path);;
       incr_unchanged;;
       print Blank
     else
       backup_camera_cfg file_path backup_ext;;
       incr_modified;;
       let* dry := get_DRY_RUN in
       (if dry then print (DryWouldWrite file_path)
        else
          io (λ fs, OS.write_text fs file_path (write config));;
          print (Updated file_path));;
       print Blank)
    (λ e,
       print (Error e);;
       incr_errors;;
       print Blank).

Definition find_and_modify_cameras
    (community_folder : Path) (camera_name : string) (camera_zoom : float)
    (backup_ext : string) (disable_strict : bool) : M unit :=
  put_FILE_STATS (Stats 0 0 0 0);;
  let* file_paths := find_camera_cfg_files community_folder in
  let* s := get_FILE_STATS in
  put_FILE_STATS (Stats (length file_paths) (modified s) (unchanged s) (errors s));;
  print (FoundToModify (length file_paths));;
  print Blank;;
  for_each file_paths tt
    (λ file_path _,
       modify_single_camera_cfg file_path camera_name camera_zoom backup_ext disable_strict);;
  let* s := get_FILE_STATS in
  print (ProcessedFiles (total s));;
  print (ModifiedFiles (modified s));;
  print (UnchangedFiles (unchanged s));;
  print (FilesWithErrors (errors s)).

Definition restore_single_camera_cfg (file_path : Path) (backup_ext : string) : M unit :=
  let* backup_file_path := lift (get_backup_file_path file_path backup_ext) in
  let* fs := get_fs in
  if OS.exists_ fs backup_file_path then
    print (Restoring file_path backup_file_path);;
    let* dry := get_DRY_RUN in
    (if dry then
       print (DryWouldCopy backup_file_path file_path);;
       print (DryWouldRemove backup_file_path)
     else
       try_except
         (io (λ fs, OS.copy2 fs backup_file_path file_path);;
          print (SuccessfullyRestored file_path);;
          io (λ fs, OS.remove fs backup_file_path))
         (λ e,
            print (ErrorRestoring file_path e);;
            incr_errors));;
    incr_modified;;
    print Blank
  else
    print (NoBackupFor file_path);;
    incr_unchanged;;
    print Blank.

Definition find_and_restore_cameras (community_folder : Path) (backup_ext : string)
  : M unit :=
  put_FILE_STATS (Stats 0 0 0 0);;
  let* file_paths := find_camera_cfg_files community_folder in
  let* s := get_FILE_STATS in
  put_FILE_STATS (Stats (length file_paths) (modified s) (unchanged s) (errors s));;
  print (FoundToRestore (length file_paths));;
  print Blank;;
  for_each file_paths tt
    (λ file_path _, restore_single_camera_cfg file_path backup_ext);;
  let* s := get_FILE_STATS in
  print (ProcessedFiles (total s));;
  print (RestoredFiles (modified s));;
  print (BackupNotFound (unchanged s));;
  print (FilesWithErrors (errors s)).

End Script.

(** ** A small reader and writer of the configuration format

    [ConfigParser._read] and [ConfigParser.write] for the parser the script
    creates: [=] and [:] as delimiters, [#] and [;] starting a comment
    line, no inline comments, values continued on deeper indented lines,
    empty lines kept in values, the section [DEFAULT] read into the
    defaults.  A line that is neither a header nor an option is reported
    once the text has been read; a section or an option given twice is an
    error at once in strict mode, and otherwise the sections are merged
    and the last value of an option is kept. *)

Module MiniIni.

Definition LF : ascii := ascii_of_nat 10.
Definition CR : ascii := ascii_of_nat 13.
Definition TAB : ascii := ascii_of_nat 9.

(** [c.isspace()] *)
Definition is_space (a : ascii) : bool :=
  let n := nat_of_ascii a in
  bool_decide (n = 32) || (Nat.leb 9 n && Nat.leb n 13) || (Nat.leb 28 n && Nat.leb n 31).

(** The lines of a text, without their ends: a line ends with a line
    feed, a carriage return or both. *)
Fixpoint splitlines (s : string) : list string :=
  match s with
  | EmptyString => []
  | String a s' =>
      if bool_decide (a = LF) then "" :: splitlines s'
      else if bool_decide (a = CR) then
        "" :: splitlines match s' with
                         | String a' s'' => if bool_decide (a' = LF) then s'' else s'
                         | EmptyString => s'
                         end
      else match splitlines s' with
           | [] => [String a EmptyString]
           | l :: ls => String a l :: ls
           end
  end.

Fixpoint lstrip (s : string) : string :=
  match s with
  | EmptyString => ""
  | String a s' => if is_space a then lstrip s' else s
  end.

Fixpoint rstrip (s : string) : string :=
  match s with
  | EmptyString => ""
  | String a s' =>
      let r := rstrip s' in
      if is_space a && bool_decide (r = "") then "" else String a r
  end.

Definition strip (s : string) : string := rstrip (lstrip s).

(** [NONSPACECRE.search(line).start()], 0 without a match. *)
Fixpoint indent (line : string) : nat :=
  match line with
  | EmptyString => 0
  | String a line' =>
      if is_space a then
        if bool_decide (lstrip line' = "") then 0 else S (indent line')
      else 0
  end.

(** [_optcre.match]: the text before and after the first [=] or [:]. *)
Fixpoint partition (s : string) : option (string * string) :=
  match s with
  | EmptyString => None
  | String a s' =>
      if bool_decide (a = "="%char) || bool_decide (a = ":"%char) then Some ("", s')
      else match partition s' with
           | Some (k, v) => Some (String a k, v)
           | None => None
           end
  end.

(** The text before the last []]. *)
Fixpoint before_last_bracket (s : string) : option string :=
  match s with
  | EmptyString => None
  | String a s' =>
      match before_last_bracket s' with
      | Some h => Some (String a h)
      | None => if bool_decide (a = "]"%char) then Some "" else None
      end
  end.

(** [SECTCRE.match]: the header of a line [[header]...]. *)
Definition header (value : string) : option string :=
  match value with
  | String a rest =>
      if bool_decide (a = "["%char) then
        match before_last_bracket rest with
        | Some (String _ _ as sectname) => Some sectname
        | _ => None
        end
      else None
  | EmptyString => None
  end.

(** While a text is read the value of an option is the list of its
    lines. *)
Abbreviation Lines := (list (string * list string)).

Record state := State {
  defaults : Lines;
  sects : list (string * Lines);
  cursect : option string;
  optname : option string;
  indent_level : nat;
  e : option parse_failure
}.

Definition options_of (st : state) (sectname : string) : Lines :=
  if bool_decide (sectname = configparser.DEFAULTSECT) then defaults st
  else default [] (Dict.get sectname (sects st)).

Definition with_options (st : state) (sectname : string) (options : Lines)
    (optname : option string) (indent_level : nat) (e : option parse_failure) : state :=
  if bool_decide (sectname = configparser.DEFAULTSECT)
  then State options (sects st) (cursect st) optname indent_level e
  else State (defaults st) (Dict.set sectname options (sects st)) (cursect st) optname
         indent_level e.

(** [cursect[optname].append(value)] *)
Definition append_line (st : state) (value : string) : state :=
  match cursect st, optname st with
  | Some sectname, Some (String _ _ as optname) =>
      let options := options_of st sectname in
      match Dict.get optname options with
      | Some lines =>
          with_options st sectname (Dict.set optname (lines ++ [value]) options)
            (Some optname) (indent_level st) (e st)
      | None => st
      end
  | _, _ => st
  end.

Definition handle_error (e : option parse_failure) (line : string) : option parse_failure :=
  match e with Some _ => e | None => Some (Malformed line) end.

(** One turn of the loop of [_read]. *)
Definition parse_line (strict : bool) (line : string) (st : state) : result state :=
  let stripped := strip line in
  let comment :=
    match stripped with
    | String a _ => bool_decide (a = "#"%char) || bool_decide (a = ";"%char)
    | EmptyString => false
    end in
  if comment then Ok st
  else if bool_decide (stripped = "") then Ok (append_line st "")
  else
    let value := stripped in
    let cur_indent_level := indent line in
    let continued :=
      match cursect st, optname st with
      | Some _, Some (String _ _) => Nat.ltb (indent_level st) cur_indent_level
      | _, _ => false
      end in
    if continued then Ok (append_line st value)
    else
      match header value with
      | Some sectname =>
          if bool_decide (is_Some (Dict.get sectname (sects st))) then
            if strict then Raise (ParsingError (DuplicateSection sectname))
            else Ok (State (defaults st) (sects st) (Some sectname) None cur_indent_level
                       (e st))
          else if bool_decide (sectname = configparser.DEFAULTSECT) then
            Ok (State (defaults st) (sects st) (Some sectname) None cur_indent_level (e st))
          else
            Ok (State (defaults st) (sects st ++ [(sectname, [])]) (Some sectname) None
                  cur_indent_level (e st))
      | None =>
          match cursect st with
          | None => Raise (ParsingError MissingSectionHeader)
          | Some sectname =>
              match partition value with
              | Some (option, optval) =>
                  let e := if bool_decide (rstrip option = "")
                           then handle_error (e st) line else e st in
                  let optname := rstrip option in
                  let options := options_of st sectname in
                  if strict && bool_decide (is_Some (Dict.get optname options)) then
                    Raise (ParsingError (DuplicateOption sectname optname))
                  else
                    Ok (with_options st sectname
                          (Dict.set optname [strip optval] options)
                          (Some optname) cur_indent_level e)
              | None =>
                  Ok (State (defaults st) (sects st) (cursect st) (optname st)
                        cur_indent_level (handle_error (e st) line))
              end
          end
      end.

Fixpoint parse_lines (strict : bool) (lines : list string) (st : state) : result state :=
  match lines with
  | [] => Ok st
  | line :: lines' =>
      st' ← parse_line strict line st;
      parse_lines strict lines' st'
  end.

(** ['\n'.join(val).rstrip()] *)
Definition join_lines (lines : list string) : string :=
  rstrip match lines with
         | [] => ""
         | l :: ls => foldl (λ r l', r +:+ String LF l') l ls
         end.

Definition join_multiline_values (options : Lines) : Options :=
  (λ kv, (kv.1, join_lines kv.2)) <$> options.

Definition parse (strict : bool) (text : string) : result ConfigParser :=
  st ← parse_lines strict (splitlines text) (State [] [] None None 0 None);
  match e st with
  | Some cause => Raise (ParsingError cause)
  | None =>
      Ok (Parser (join_multiline_values (defaults st))
            ((λ s, (s.1, join_multiline_values s.2)) <$> sects st))
  end.

(** [str(value).replace('\n', '\n\t')] *)
Fixpoint indent_value (value : string) : string :=
  match value with
  | EmptyString => ""
  | String a value' =>
      if bool_decide (a = LF) then String LF (String TAB (indent_value value'))
      else String a (indent_value value')
  end.

Definition write_option (kv : string * string) : string :=
  kv.1 +:+ " = " +:+ indent_value kv.2 +:+ String LF EmptyString.

(** [_write_section] *)
Definition write_section (section_name : string) (section_items : Options) : string :=
  "[" +:+ section_name +:+ "]" +:+ String LF EmptyString
  +:+ foldr (λ kv r, write_option kv +:+ r) (String LF EmptyString) section_items.

Definition write (cfg : ConfigParser) : string :=
  (match _defaults cfg with
   | [] => ""
   | _ => write_section configparser.DEFAULTSECT (_defaults cfg)
   end)
  +:+ foldr (λ s r, write_section s.1 s.2 +:+ r) "" (_sections cfg).

End MiniIni.

(** ** Vocabulary of the specification *)

(** The backup extension with its leading dot. *)
Definition normalize_ext (ext : string) : string :=
  if PathLib.startswith "." ext then ext else "." +:+ ext.


(** The options of a section, and the look-up in them and then in the
    defaults. *)
Definition own_options (config : ConfigParser) (section : string) : Options :=
  default [] (Dict.get section (_sections config)).

Definition section_map (config : ConfigParser) (section : string) : string → option string :=
  configparser.ChainMap (own_options config section) (_defaults config).

(** What the proxy of a section gives for an option: nothing when neither
    the section nor the defaults hold it, else its interpolated value,
    unless the interpolation raises. *)
Definition option_value (config : ConfigParser) (section key : string)
  : result (option string) :=
  if configparser.has_option config section key
  then Some <$> configparser.get config section key
  else Ok None.

(** A title that is the camera name, bare or quoted. *)
Definition matches (camera_name : string) (title : option string) : bool :=
  match title with
  | None => false
  | Some title =>
      bool_decide (title = camera_name) || bool_decide (title = quoted camera_name)
  end.

(** A zoom that is present and is not [zoom]. *)
Definition differs (zoom : string) (original_zoom : option string) : bool :=
  match original_zoom with
  | Some original_zoom => negb (bool_decide (original_zoom = zoom))
  | None => false
  end.

Definition section_matches (camera_name : string) (config : ConfigParser)
    (section : string) : result bool :=
  matches camera_name <$> option_value config section "Title".

(** A matching section whose [InitialZoom] has to be set. *)
Definition section_needs_change (camera_name zoom : string) (config : ConfigParser)
    (section : string) : result bool :=
  section_matches camera_name config section
  ≫= λ matched : bool,
       if matched then differs zoom <$> option_value config section "InitialZoom"
       else Ok false.

(** The sections in order, up to the first that raises. *)
Fixpoint any_section (f : string → result bool) (l : list string) : result bool :=
  match l with
  | [] => Ok false
  | section :: l' => b ← f section; b' ← any_section f l'; Ok (b || b')
  end.

Definition holds (r : result bool) : bool :=
  match r with Ok b => b | Raise _ => false end.

(** Some section of the document has to be given the zoom; the exception
    is that of the first section whose look-ups raise. *)
Definition document_needs_change (camera_name zoom : string) (config : ConfigParser)
  : result bool :=
  any_section (section_needs_change camera_name zoom config) (configparser.sections config).

(** Some section of the document matches. *)
Definition document_matches (camera_name : string) (config : ConfigParser) : bool :=
  existsb (λ section, holds (section_matches camera_name config section))
    (configparser.sections config).

(** The document with the zoom set in the sections that need it. *)
Definition set_zoom (zoom : string) (config : ConfigParser) (section : string)
  : ConfigParser :=
  match configparser.set config section "InitialZoom" zoom with
  | Ok config' => config'
  | Raise _ => config
  end.

Definition rezoom_section (camera_name zoom : string) (config : ConfigParser)
    (section : string) : ConfigParser :=
  match section_needs_change camera_name zoom config section with
  | Ok true => set_zoom zoom config section
  | _ => config
  end.

Definition rezoom (camera_name zoom : string) (config : ConfigParser) : ConfigParser :=
  foldl (rezoom_section camera_name zoom) config (configparser.sections config).

(** Messages about a section, the only ones the loop over the sections
    prints. *)
Definition section_msg (m : msg) : bool :=
  match m with
  | WarningNoInitialZoom _ | InfoAlreadySet _ _ | DryWouldModify _ _ _
  | ModifiedSection _ _ _ => true
  | _ => false
  end.

(** The messages that tell what became of a file. *)
Definition verdict (m : msg) : bool :=
  match m with
  | Updated _ | InfoNoChanges _ | SuccessfullyRestored _ | NoBackupFor _ => true
  | _ => false
  end.

Definition verdicts (out : list msg) : list msg :=
  filter (λ m, verdict m = true) out.

(** *** What the script does with one file

    The functions below say, for one file and the file system it is
    processed in, which way [modify_single_camera_cfg] and
    [restore_single_camera_cfg] go and what file system they leave. *)

Inductive modify_outcome :=
  | Unchanged                 (* no section needs the zoom *)
  | Errored (e : exn)         (* raised before any file was touched *)
  | WouldModify               (* dry run of a change *)
  | WriteFailed (e : exn)     (* backed up, and the rewrite raised *)
  | Rewritten.                (* backed up and rewritten *)

Inductive restore_outcome :=
  | NoBackup
  | WouldRestore              (* dry run of a restore *)
  | Restored
  | CopyFailed (e : exn)      (* the copy from the backup raised *)
  | RemoveFailed (e : exn)    (* restored, and removing the backup raised *)
  | Aborted (e : exn).        (* the backup path raised, outside any [try] *)

(** The restore of the file failed: the copy did, or the removal of the
    backup. *)
Definition restore_failed (o : restore_outcome) : Prop :=
  ∃ e, o = CopyFailed e ∨ o = RemoveFailed e.

Section Outcomes.

Variable fl : PathLib.flavour.
Variable float : Type.
Variable str : float → float_str.
Variable parse : bool → string → result ConfigParser.
Variable write : ConfigParser → string.

(** The document [config.read] leaves for a file. *)
Definition load (strict : bool) (fs : gmap Path OS.node) (file_path : Path)
  : result ConfigParser :=
  match OS.read_text fs file_path with
  | Ok text => parse strict text
  | Raise _ => Ok (Parser [] [])
  end.

Definition modify_file (dry : bool) (fs : gmap Path OS.node) (file_path : Path)
    (camera_name : string) (camera_zoom : float) (backup_ext : string)
    (disable_strict : bool) : modify_outcome * gmap Path OS.node :=
  match load (negb disable_strict) fs file_path with
  | Raise e => (Errored e, fs)
  | Ok config =>
      match document_needs_change camera_name (str camera_zoom) config with
      | Raise e => (Errored e, fs)
      | Ok false => (Unchanged, fs)
      | Ok true =>
          match get_backup_file_path fl file_path backup_ext with
          | Raise e => (Errored e, fs)
          | Ok backup_file_path =>
              if dry then (WouldModify, fs)
              else
                match OS.copy2 fs file_path backup_file_path with
                | Raise e => (Errored e, fs)
                | Ok fs1 =>
                    match OS.write_text fs1 file_path
                            (write (rezoom camera_name (str camera_zoom) config)) with
                    | Raise e => (WriteFailed e, fs1)
                    | Ok fs2 => (Rewritten, fs2)
                    end
                end
          end
      end
  end.

Definition count_modify (o : modify_outcome) (s : stats) : stats :=
  match o with
  | Unchanged => Stats (total s) (modified s) (S (unchanged s)) (errors s)
  | Errored _ => Stats (total s) (modified s) (unchanged s) (S (errors s))
  | WouldModify | Rewritten => Stats (total s) (S (modified s)) (unchanged s) (errors s)
  | WriteFailed _ => Stats (total s) (S (modified s)) (unchanged s) (S (errors s))
  end.

Definition verdict_modify (o : modify_outcome) (file_path : Path) : list msg :=
  match o with
  | Unchanged => [InfoNoChanges file_path]
  | Rewritten => [Updated file_path]
  | _ => []
  end.

Definition restore_file (dry : bool) (fs : gmap Path OS.node) (file_path : Path)
    (backup_ext : string) : restore_outcome * gmap Path OS.node :=
  match get_backup_file_path fl file_path backup_ext with
  | Raise e => (Aborted e, fs)
  | Ok backup_file_path =>
      if negb (OS.exists_ fs backup_file_path) then (NoBackup, fs)
      else if dry then (WouldRestore, fs)
      else
        match OS.copy2 fs backup_file_path file_path with
        | Raise e => (CopyFailed e, fs)
        | Ok fs1 =>
            match OS.remove fs1 backup_file_path with
            | Raise e => (RemoveFailed e, fs1)
            | Ok fs2 => (Restored, fs2)
            end
        end
  end.

Definition count_restore (o : restore_outcome) (s : stats) : stats :=
  match o with
  | NoBackup => Stats (total s) (modified s) (S (unchanged s)) (errors s)
  | WouldRestore | Restored => Stats (total s) (S (modified s)) (unchanged s) (errors s)
  | CopyFailed _ | RemoveFailed _ =>
      Stats (total s) (S (modified s)) (unchanged s) (S (errors s))
  | Aborted _ => s
  end.

Definition verdict_restore (o : restore_outcome) (file_path : Path) : list msg :=
  match o with
  | NoBackup => [NoBackupFor file_path]
  | Restored | RemoveFailed _ => [SuccessfullyRestored file_path]
  | _ => []
  end.

Definition result_restore (o : restore_outcome) : result unit :=
  match o with Aborted e => Raise e | _ => Ok tt end.

(** *** What a run does: the files one after the other *)

(** The paths [find_camera_cfg_files] yields. *)
Definition discover (fs : gmap Path OS.node) (community_folder : Path) : list Path :=
  if OS.is_dir fs community_folder then
    '(root, dirs, files) ← OS.walk fs community_folder;
    PathLib.joinpath root <$> filter (λ file, file = "cameras.cfg") files
  else [].

Fixpoint modify_files (dry : bool) (fs : gmap Path OS.node) (file_paths : list Path)
    (camera_name : string) (camera_zoom : float) (backup_ext : string)
    (disable_strict : bool) : list modify_outcome * gmap Path OS.node :=
  match file_paths with
  | [] => ([], fs)
  | file_path :: rest =>
      let r := modify_file dry fs file_path camera_name camera_zoom backup_ext
                 disable_strict in
      let rs := modify_files dry r.2 rest camera_name camera_zoom backup_ext
                  disable_strict in
      (r.1 :: rs.1, rs.2)
  end.

(** A restore run stops at the first file whose backup path raises. *)
Fixpoint restore_files (dry : bool) (fs : gmap Path OS.node) (file_paths : list Path)
    (backup_ext : string) : list restore_outcome * gmap Path OS.node :=
  match file_paths with
  | [] => ([], fs)
  | file_path :: rest =>
      let r := restore_file dry fs file_path backup_ext in
      match r.1 with
      | Aborted _ => ([r.1], r.2)
      | _ =>
          let rs := restore_files dry r.2 rest backup_ext in
          (r.1 :: rs.1, rs.2)
      end
  end.

Definition aborted (os : list restore_outcome) : option exn :=
  match last os with
  | Some (Aborted e) => Some e
  | _ => None
  end.

End Outcomes.

(** The verdicts printed for the files of a run, in order. *)
Fixpoint verdicts_modify (os : list modify_outcome) (file_paths : list Path) : list msg :=
  match os, file_paths with
  | o :: os', p :: ps => verdict_modify o p ++ verdicts_modify os' ps
  | _, _ => []
  end.

Fixpoint verdicts_restore (os : list restore_outcome) (file_paths : list Path) : list msg :=
  match os, file_paths with
  | o :: os', p :: ps => verdict_restore o p ++ verdicts_restore os' ps
  | _, _ => []
  end.

(** The four lines that end a run. *)
Definition summary_modify (s : stats) : list msg :=
  [ProcessedFiles (total s); ModifiedFiles (modified s);
   UnchangedFiles (unchanged s); FilesWithErrors (errors s)].

Definition summary_restore (s : stats) : list msg :=
  [ProcessedFiles (total s); RestoredFiles (modified s);
   BackupNotFound (unchanged s); FilesWithErrors (errors s)].

(** [open(p, "w")] would succeed. *)
Definition can_write (fs : gmap Path OS.node) (p : Path) : bool :=
  match fs !! p with
  | Some (OS.NFile f) => OS.writable f
  | Some (OS.NDir _) => false
  | None => OS.dir_writable fs (PathLib.parent p)
  end.

(** The backup path of a file, when [get_backup_file_path] returns. *)
Definition backup_of (file_path : Path) (backup_ext : string) : Path :=
  PathLib.joinpath (PathLib.parent file_path)
    (PathLib.name file_path +:+ normalize_ext backup_ext).

(** No directory carries the name the backups of [cameras.cfg] get. *)
Definition no_backup_dirs (fs : gmap Path OS.node) (backup_ext : string) : Prop :=
  ∀ r, PathLib.name r = "cameras.cfg" +:+ normalize_ext backup_ext → OS.is_dir fs r = false.

(** A list of distinct paths to files named [cameras.cfg]. *)
Definition cfg_files (l : list Path) : Prop :=
  NoDup l ∧ ∀ q, q ∈ l → q ≠ [] ∧ PathLib.name q = "cameras.cfg".

(** ** A concrete community folder

    The script instantiated on Windows paths, with floats written as they
    print and the small reader and writer above, and a community folder
    holding one package with a [cameras.cfg]. *)

Module Demo.

Definition nl : string := String MiniIni.LF EmptyString.

Definition pilot_text : string :=
  "[CAMERA_PILOT]" +:+ nl +:+ "Title=Pilot" +:+ nl +:+ "InitialZoom=1.0" +:+ nl.

(** The same section with the zoom already at 0.35. *)
Definition zoomed_text : string :=
  "[CAMERA_PILOT]" +:+ nl +:+ "Title=Pilot" +:+ nl +:+ "InitialZoom=0.35" +:+ nl.

(** The same section with [InitialZoom] given twice. *)
Definition duplicate_text : string :=
  pilot_text +:+ "InitialZoom=1.0" +:+ nl.

(** A section that takes its [Title] from the default section. *)
Definition default_title_text : string :=
  "[DEFAULT]" +:+ nl +:+ "Title=Pilot" +:+ nl
  +:+ "[CAMERA_PILOT]" +:+ nl +:+ "InitialZoom=1.0" +:+ nl.

(** A title with a lone percent sign. *)
Definition percent_text : string :=
  "[CAMERA_PILOT]" +:+ nl +:+ "Title=Pilot 100%" +:+ nl +:+ "InitialZoom=1.0" +:+ nl.

(** The zoom 0.35 as [str] prints it. *)
Definition zoom : float_str := FloatStr "0.35" eq_refl.

Definition community : Path := ["Community"].
Definition package : Path := ["Community"; "aircraft"].
Definition cameras : Path := ["Community"; "aircraft"; "cameras.cfg"].
Definition cameras_backup : Path := ["Community"; "aircraft"; "cameras.cfg.fix_aircraft_fov"].

(** The folder with the package's [cameras.cfg] being [f]. *)
Definition folder (f : OS.file) : gmap Path OS.node :=
  <[cameras := OS.NFile f]>
    (<[package := OS.NDir true]> (<[community := OS.NDir true]> ∅)).

(** The folder with, in addition, a backup [b] of that file. *)
Definition folder_with_backup (f b : OS.file) : gmap Path OS.node :=
  <[cameras_backup := OS.NFile b]> (folder f).


(** The folder and the backup, in a package in which no entry can be
    created or removed. *)
Definition locked_folder_with_backup (f b : OS.file) : gmap Path OS.node :=
  <[package := OS.NDir false]> (folder_with_backup f b).

Definition start (fs : gmap Path OS.node) (dry : bool) : world :=
  World fs dry (Stats 0 0 0 0) [].

Definition modify (w : world) : result unit * world :=
  find_and_modify_cameras PathLib.Windows float_str id MiniIni.parse MiniIni.write
    community "Pilot" zoom "fix_aircraft_fov" false w.

Definition restore (w : world) : result unit * world :=
  find_and_restore_cameras PathLib.Windows community "fix_aircraft_fov" w.

End Demo.

(** ** The entry point

    [main] after [argparse]: the parsed arguments are a record;  the globals
    start as the module sets them ([FILE_STATS] at zero) and [DRY_RUN] is
    assigned from the arguments before anything reads it.  [parser.error]
    leaves the program with a usage error, an exception nobody catches with
    a traceback.  What the program printed is the banner followed by the
    messages of the flow. *)

Module Main.

Definition VERSION : string := "1.0.0".

Record args (float : Type) := Args {
  modify : bool;
  restore : bool;
  community_folder : Path;
  backup_ext : string;
  camera_name : string;
  camera_zoom : float;
  dry_run : bool;
  disable_strict : bool
}.
Arguments Args {float}.
Arguments modify {float}.
Arguments restore {float}.
Arguments community_folder {float}.
Arguments backup_ext {float}.
Arguments camera_name {float}.
Arguments camera_zoom {float}.
Arguments dry_run {float}.
Arguments disable_strict {float}.

Inductive status :=
  | Returned
  | UsageError (message : string)
  | Traceback (e : exn).

Inductive line :=
  | Banner (version : string)
  | Line (m : msg).

Section Entry.

Variable fl : PathLib.flavour.
Variable float : Type.
Variable str : float → float_str.

(** Python's truth value of a float: false for zero only. *)
Variable truth : float → bool.

Variable parse : bool → string → result ConfigParser.
Variable write : ConfigParser → string.

(** The state a flow has left, as the program's status, file system and
    output. *)
Definition finish (r : result unit * world) : status * gmap Path OS.node * list line :=
  (match r.1 with Ok _ => Returned | Raise e => Traceback e end,
   fs r.2,
   Banner VERSION :: (Line <$> stdout r.2)).

Definition main (a : args float) (files : gmap Path OS.node)
  : status * gmap Path OS.node * list line :=
  let w := World files (dry_run a) (Stats 0 0 0 0) [] in
  if modify a then
    if bool_decide (camera_name a = "") || negb (truth (camera_zoom a)) then
      (UsageError "--modify requires --camera-name and --camera-zoom", files,
       [Banner VERSION])
    else
      finish (find_and_modify_cameras fl float str parse write (community_folder a)
                (camera_name a) (camera_zoom a) (backup_ext a) (disable_strict a) w)
  else if restore a then
    finish (find_and_restore_cameras fl (community_folder a) (backup_ext a) w)
  else (Returned, files, [Banner VERSION]).

End Entry.

End Main.

(** * Properties *)

(** ** Strings and paths *)

Section PathFacts.
Import PathLib.
Local Arguments String.append : simpl nomatch.

Lemma substring_all s : String.substring 0 (String.length s) s = s.
Proof. induction s as [|a s IH]; simpl; [done | by rewrite IH]. Qed.

Lemma append_nil_r s : s +:+ "" = s.
Proof. induction s as [|a s IH]; simpl; [done | by rewrite IH]. Qed.

Lemma append_assoc s1 s2 s3 : (s1 +:+ s2) +:+ s3 = s1 +:+ (s2 +:+ s3).
Proof. induction s1 as [|a s1 IH]; simpl; [done | by rewrite IH]. Qed.

Lemma length_append s1 s2 :
  String.length (s1 +:+ s2) = String.length s1 + String.length s2.
Proof. induction s1 as [|a s1 IH]; simpl; [done | by rewrite IH]. Qed.

Lemma contains_append c s1 s2 :
  contains c (s1 +:+ s2) = contains c s1 || contains c s2.
Proof.
  induction s1 as [|a s1 IH]; simpl; [done |].
  rewrite IH. by destruct (bool_decide (a = c)).
Qed.

Lemma has_sep_append fl s1 s2 :
  has_sep fl (s1 +:+ s2) = has_sep fl s1 || has_sep fl s2.
Proof.
  unfold has_sep. destruct fl; simpl; rewrite !contains_append;
    repeat match goal with |- context [contains ?c ?s] => destruct (contains c s) end; done.
Qed.

Lemma startswith_append a s1 s2 :
  startswith (String a "") s1 = true → startswith (String a "") (s1 +:+ s2) = true.
Proof.
  unfold startswith. destruct s1 as [|b s1]; simpl; [done |].
  destruct (ascii_dec a b); [|done]. intros _. by destruct (s1 +:+ s2).
Qed.

(** The last dot splits the name into a stem and a tail that starts with
    the dot. *)
Lemma rfind_dot_split n i :
  rfind_dot n = Some i →
  let tail := String.substring i (String.length n - i) n in
  i < String.length n
  ∧ String.substring 0 i n +:+ tail = n
  ∧ startswith "." tail = true
  ∧ String.length tail = String.length n - i.
Proof.
  revert i. induction n as [|a n IH]; intros i; simpl; [done |].
  destruct (rfind_dot n) as [j|] eqn:Hj.
  - intros [= <-]. destruct (IH j eq_refl) as (Hlt & Happ & Hdot & Hlen). simpl.
    split; [lia |]. split; [by rewrite Happ |]. done.
  - case_bool_decide as Ha; [|done]. intros [= <-]. subst a. simpl.
    rewrite !substring_all. split; [lia |]. split; [done |]. split; [by destruct n | done].
Qed.

Lemma suffix_cases p :
  suffix p = ""
  ∨ (∃ stem, name p = stem +:+ suffix p
       ∧ String.substring 0 (String.length (name p) - String.length (suffix p)) (name p) = stem
       ∧ startswith "." (suffix p) = true ∧ suffix p ≠ ".").
Proof.
  unfold suffix. destruct (rfind_dot (name p)) as [i|] eqn:Hi; [|by left].
  destruct (rfind_dot_split _ _ Hi) as (Hlt & Happ & Hdot & Hlen).
  case_bool_decide as H0; simpl; [|by left].
  case_bool_decide as H1; simpl; [|by left].
  right. exists (String.substring 0 i (name p)).
  split; [done |]. split; [|split; [done |]].
  - rewrite Hlen. f_equal. lia.
  - intros Heq. rewrite Heq in Hlen. simpl in Hlen. lia.
Qed.

Lemma has_sep_suffix fl p : has_sep fl (name p) = false → has_sep fl (suffix p) = false.
Proof.
  intros Hn. destruct (suffix_cases p) as [-> | (stem & Heq & _)]; [by destruct fl |].
  rewrite Heq, has_sep_append in Hn. by apply orb_false_elim in Hn as [_ ?].
Qed.

Lemma name_joinpath p child : name (joinpath p child) = child.
Proof. unfold name, joinpath. by rewrite last_snoc. Qed.

Lemma parent_joinpath p child : parent (joinpath p child) = p.
Proof. unfold parent, joinpath. by rewrite removelast_last. Qed.

Lemma joinpath_parent_name p : p ≠ [] → joinpath (parent p) (name p) = p.
Proof.
  intros Hp. destruct (exists_last Hp) as (d & c & ->).
  unfold joinpath, parent, name. by rewrite removelast_last, last_snoc.
Qed.

(** [with_suffix] with the path's own suffix followed by more text
    appends that text to the name. *)
Lemma with_suffix_append fl p e :
  name p ≠ "" →
  has_sep fl (name p) = false →
  has_sep fl e = false →
  startswith "." e = true →
  suffix p +:+ e ≠ "." →
  with_suffix fl p (suffix p +:+ e) = Ok (joinpath (parent p) (name p +:+ e)).
Proof.
  intros Hname Hsn Hse Hdot Hne. unfold with_suffix.
  rewrite has_sep_append, (has_sep_suffix _ _ Hsn), Hse. simpl.
  assert (startswith "." (suffix p +:+ e) = true) as ->.
  { destruct (suffix_cases p) as [-> | (stem & _ & _ & Hs & _)]; [done |].
    by apply startswith_append. }
  rewrite andb_false_r. simpl.
  rewrite (bool_decide_eq_false_2 _ Hne), (bool_decide_eq_false_2 _ Hname).
  unfold joinpath. do 2 f_equal.
  destruct (suffix_cases p) as [Hs | (stem & Heq & Hsub & _ & _)].
  - rewrite Hs. by rewrite (bool_decide_eq_true_2 _ eq_refl).
  - case_bool_decide as Hs.
    + by rewrite Hs.
    + by rewrite Hsub, <- append_assoc, <- Heq.
Qed.

End PathFacts.

(** ** Dictionaries *)

Section DictFacts.
Context {V : Type}.
Implicit Types (d : list (string * V)) (k : string) (v : V).

Lemma get_set_eq k v d : Dict.get k (Dict.set k v d) = Some v.
Proof.
  induction d as [|[k' v'] d IH]; simpl.
  - by rewrite bool_decide_eq_true_2.
  - case_bool_decide as Hk; simpl.
    + by rewrite bool_decide_eq_true_2.
    + by rewrite bool_decide_eq_false_2.
Qed.

Lemma get_set_ne k k' v d : k ≠ k' → Dict.get k' (Dict.set k v d) = Dict.get k' d.
Proof.
  intros Hne. induction d as [|[k2 v2] d IH]; simpl.
  - by rewrite bool_decide_eq_false_2.
  - case_bool_decide as Hk; simpl.
    + subst k2. by rewrite !bool_decide_eq_false_2.
    + by rewrite IH.
Qed.

Lemma keys_set k v d : is_Some (Dict.get k d) → Dict.keys (Dict.set k v d) = Dict.keys d.
Proof.
  unfold Dict.keys. induction d as [|[k2 v2] d IH]; simpl; intros [x Hx]; [done |].
  case_bool_decide as Hk; simpl; [by subst |].
  f_equal. apply IH. eauto.
Qed.

Lemma get_Some_keys k v d : Dict.get k d = Some v → k ∈ Dict.keys d.
Proof.
  unfold Dict.keys. induction d as [|[k2 v2] d IH]; simpl; [done |].
  case_bool_decide as Hk; [subst; intros _; left | intros; right; auto].
Qed.

Lemma keys_get k d : k ∈ Dict.keys d → is_Some (Dict.get k d).
Proof.
  unfold Dict.keys. induction d as [|[k2 v2] d IH]; simpl.
  - by intros ?%elem_of_nil.
  - case_bool_decide as Hk; [eauto |].
    intros [?|?]%elem_of_cons; [congruence | auto].
Qed.

End DictFacts.

(** ** The backup path *)

Lemma normalize_ext_dot ext : PathLib.startswith "." (normalize_ext ext) = true.
Proof.
  unfold normalize_ext. destruct (PathLib.startswith "." ext) eqn:H; [done |].
  unfold PathLib.startswith. simpl. by destruct ext.
Qed.

Lemma normalize_ext_idemp ext : normalize_ext (normalize_ext ext) = normalize_ext ext.
Proof. unfold normalize_ext at 1. by rewrite normalize_ext_dot. Qed.

Lemma has_sep_normalize_ext fl ext :
  PathLib.has_sep fl (normalize_ext ext) = PathLib.has_sep fl ext.
Proof.
  unfold normalize_ext. destruct (PathLib.startswith "." ext); [done |].
  rewrite has_sep_append. by destruct fl.
Qed.

Lemma get_backup_file_path_eq fl p ext :
  get_backup_file_path fl p ext
  = PathLib.with_suffix fl p (PathLib.suffix p +:+ normalize_ext ext).
Proof. done. Qed.

(** Whatever the path, its suffix followed by a dotted extension starts
    with a dot. *)
Lemma startswith_suffix_ext p ext :
  PathLib.startswith "." (PathLib.suffix p +:+ normalize_ext ext) = true.
Proof.
  destruct (suffix_cases p) as [-> | (stem & _ & _ & Hs & _)].
  - apply normalize_ext_dot.
  - by apply startswith_append.
Qed.

(** What [get_backup_file_path] returns, and when it raises. *)
Lemma get_backup_file_path_cases fl p ext :
  get_backup_file_path fl p ext
  = if PathLib.has_sep fl (PathLib.suffix p) || PathLib.has_sep fl ext
       || bool_decide (PathLib.suffix p +:+ normalize_ext ext = ".")
       || bool_decide (PathLib.name p = "")
    then Raise ValueError
    else Ok (PathLib.joinpath (PathLib.parent p) (PathLib.name p +:+ normalize_ext ext)).
Proof.
  rewrite get_backup_file_path_eq. unfold PathLib.with_suffix.
  rewrite has_sep_append, has_sep_normalize_ext, startswith_suffix_ext.
  destruct (PathLib.has_sep fl (PathLib.suffix p) || PathLib.has_sep fl ext); [done |].
  rewrite andb_false_r. simpl.
  case_bool_decide as Hdot; [done |]. simpl.
  case_bool_decide as Hname; [done |].
  unfold PathLib.joinpath. do 2 f_equal.
  destruct (suffix_cases p) as [Hs | (stem & Heq & Hsub & _ & _)].
  - rewrite Hs. by rewrite (bool_decide_eq_true_2 _ eq_refl).
  - case_bool_decide as Hs.
    + by rewrite Hs.
    + by rewrite Hsub, <- append_assoc, <- Heq.
Qed.

(** C8, as the script has it.  The extension is given its leading dot when
    it lacks one.  The backup path is refused with [ValueError] when the
    extension, or the suffix of the path, holds a path separator, when the
    dotted extension would be the whole suffix ["."], and when the path has
    no name; in every other case it is the path with the dotted extension
    appended to its name, after the suffix the name already has.  The
    extensions ["bak"] and [".bak"], and an extension and its dotted form,
    do the same for every path. *)
Theorem get_backup_file_path_appends fl p ext :
  normalize_ext ext = (if PathLib.startswith "." ext then ext else "." +:+ ext)
  ∧ get_backup_file_path fl p ext
    = (if PathLib.has_sep fl (PathLib.suffix p) || PathLib.has_sep fl ext
          || bool_decide (PathLib.suffix p +:+ normalize_ext ext = ".")
          || bool_decide (PathLib.name p = "")
       then Raise ValueError
       else Ok (PathLib.joinpath (PathLib.parent p)
                  (PathLib.name p +:+ normalize_ext ext)))
  ∧ get_backup_file_path fl p (normalize_ext ext) = get_backup_file_path fl p ext
  ∧ get_backup_file_path fl p "bak" = get_backup_file_path fl p ".bak".
Proof.
  split; [done |].
  split; [apply get_backup_file_path_cases |].
  split; [by rewrite !get_backup_file_path_eq, normalize_ext_idemp | done].
Qed.

(** C8 as the specification words it, a backup path for every path and
    extension, fails for an extension with a path separator: no path is
    returned. *)
Lemma get_backup_file_path_separator_raises :
  get_backup_file_path PathLib.Posix ["Community"; "pkg"; "cameras.cfg"] "old/bak"
  = Raise ValueError
  ∧ ¬ ∃ backup_file_path,
        get_backup_file_path PathLib.Posix ["Community"; "pkg"; "cameras.cfg"] "old/bak"
        = Ok backup_file_path.
Proof. split; [done |]. by intros [bp Hbp]. Qed.
(** ** The parser object *)

Section ConfigFacts.
Import configparser.
Implicit Types (config : ConfigParser) (section key value : string).
Local Arguments String.append : simpl nomatch.

Lemma is_ok_bind {A B} (m : result A) (k : A → result B) :
  is_ok (m ≫= k) = true ↔ ∃ a, m = Ok a ∧ is_ok (k a) = true.
Proof.
  destruct m as [a|e]; simpl; [|split; [done | by intros (? & ? & _)]].
  split; [eauto | by intros (? & [= <-] & ?)].
Qed.

(** *** Interpolation *)

(** A value without a percent sign is its own interpolation. *)
Lemma interpolate_loop_plain deeper map rest :
  PathLib.contains "%" rest = false → interpolate_loop deeper map 0 rest = Ok rest.
Proof.
  induction rest as [|c rest IH]; simpl; [done |].
  intros [Hc Hrest]%orb_false_elim. rewrite Hc, IH by done. done.
Qed.

Lemma before_get_plain map value :
  PathLib.contains "%" value = false → before_get map value = Ok value.
Proof. apply interpolate_loop_plain. Qed.

Lemma drop_escapes_plain s : PathLib.contains "%" s = false → drop_escapes s = s.
Proof.
  induction s as [|c s IH]; [done |].
  intros [Hc Hs]%orb_false_elim. destruct s as [|c' s]; [done |].
  change (drop_escapes (String c (String c' s)))
    with (if bool_decide (c = "%"%char) && bool_decide (c' = "%"%char)
          then drop_escapes s else String c (drop_escapes (String c' s))).
  rewrite Hc. simpl andb. cbv iota. by rewrite IH.
Qed.

Lemma drop_references_plain s : PathLib.contains "%" s = false → drop_references 0 s = s.
Proof.
  induction s as [|c s IH]; simpl; [done |].
  intros [Hc Hs]%orb_false_elim. rewrite Hc. by rewrite IH.
Qed.

Lemma before_set_plain value : PathLib.contains "%" value = false → before_set value = Ok value.
Proof.
  intros Hv. unfold before_set.
  by rewrite drop_escapes_plain, drop_references_plain, Hv.
Qed.

(** An interpolation that returns still returns when options it may
    refer to are given values without a percent sign. *)
Lemma interpolate_loop_mono deeper deeper' (map map' : string → option string) :
  (∀ s, is_ok (deeper s) = true → is_ok (deeper' s) = true) →
  (∀ var, map' var = map var
          ∨ ∃ v, map' var = Some v ∧ PathLib.contains "%" v = false) →
  ∀ rest skip,
    is_ok (interpolate_loop deeper map skip rest) = true →
    is_ok (interpolate_loop deeper' map' skip rest) = true.
Proof.
  intros Hdeeper Hmap. induction rest as [|c rest IH]; intros skip; simpl; [done |].
  destruct skip as [|skip]; [|apply IH].
  destruct (bool_decide (c = "%"%char)).
  - destruct rest as [|c' rest']; [done |].
    destruct (bool_decide (c' = "%"%char)).
    { rewrite !is_ok_bind. intros (a & Ha & _).
      assert (Hok : is_ok (interpolate_loop deeper' map' 1 (String c' rest')) = true)
        by (apply IH; by rewrite Ha).
      destruct (interpolate_loop deeper' map' 1 (String c' rest')); [eauto | done]. }
    destruct (bool_decide (c' = "("%char)); [|done].
    destruct (KEYCRE_match (String c' rest')) as [[var n]|]; [|done].
    destruct (map var) as [v|] eqn:Hv.
    + rewrite is_ok_bind. intros (value & Hvalue & Hrest).
      apply is_ok_bind in Hrest as (accum & Haccum & _).
      assert (Hok : is_ok (interpolate_loop deeper' map' n (String c' rest')) = true)
        by (apply IH; by rewrite Haccum).
      destruct (interpolate_loop deeper' map' n (String c' rest')) as [accum'|];
        [|done].
      destruct (Hmap var) as [-> | (v' & -> & Hplain)].
      * rewrite Hv. destruct (PathLib.contains "%" v).
        -- assert (Hd : is_ok (deeper' v) = true) by (apply Hdeeper; by rewrite Hvalue).
           by destruct (deeper' v).
        -- done.
      * by rewrite Hplain.
    + done.
  - rewrite !is_ok_bind. intros (a & Ha & _).
    assert (Hok : is_ok (interpolate_loop deeper' map' 0 rest) = true)
      by (apply IH; by rewrite Ha).
    destruct (interpolate_loop deeper' map' 0 rest); [eauto | done].
Qed.

Lemma interpolate_some_mono (map map' : string → option string) :
  (∀ var, map' var = map var
          ∨ ∃ v, map' var = Some v ∧ PathLib.contains "%" v = false) →
  ∀ levels rest,
    is_ok (interpolate_some levels map rest) = true →
    is_ok (interpolate_some levels map' rest) = true.
Proof.
  intros Hmap. induction levels as [|levels IH]; intros rest; simpl; [done |].
  by apply interpolate_loop_mono.
Qed.

(** *** Sections *)

Lemma elem_of_sections config section :
  section ∈ sections config
  ↔ section ≠ "" ∧ section ≠ DEFAULTSECT ∧ is_Some (Dict.get section (_sections config)).
Proof.
  unfold sections. rewrite list_elem_of_filter. split.
  - intros [[? ?] Hk]. by apply keys_get in Hk.
  - intros (? & ? & [d Hd]). split; [done |]. by apply get_Some_keys in Hd.
Qed.

Lemma get_own_options config section :
  section ∈ sections config →
  Dict.get section (_sections config) = Some (own_options config section).
Proof.
  intros (_ & _ & [d Hd])%elem_of_sections. unfold own_options. by rewrite Hd.
Qed.

Lemma ChainMap_set sectiondict defaults key value key' :
  ChainMap (Dict.set key value sectiondict) defaults key'
  = if bool_decide (key' = key) then Some value else ChainMap sectiondict defaults key'.
Proof.
  unfold ChainMap. case_bool_decide as Hk.
  - subst. by rewrite get_set_eq.
  - by rewrite get_set_ne.
Qed.

Lemma getitem_section config section :
  section ∈ sections config → getitem config section = Ok (Proxy config section).
Proof.
  intros (_ & _ & Hs)%elem_of_sections. unfold getitem, has_section.
  by rewrite (bool_decide_eq_true_2 _ Hs), andb_false_r.
Qed.

Lemma has_option_section config section key :
  section ∈ sections config →
  has_option config section key = bool_decide (is_Some (section_map config section key)).
Proof.
  intros Hs. pose proof (get_own_options _ _ Hs) as Hd.
  apply elem_of_sections in Hs as (H1 & H2 & _).
  unfold has_option, section_map, ChainMap.
  rewrite (bool_decide_eq_false_2 _ H1), (bool_decide_eq_false_2 _ H2), Hd. simpl.
  by destruct (Dict.get key (own_options config section)).
Qed.

Lemma get_section config section key :
  section ∈ sections config →
  get config section key
  = match section_map config section key with
    | None => Raise (NoOptionError key section)
    | Some raw => before_get (section_map config section) raw
    end.
Proof.
  intros Hs. unfold get, _unify_values. by rewrite (get_own_options _ _ Hs).
Qed.

Lemma option_value_section config section key :
  section ∈ sections config →
  option_value config section key
  = match section_map config section key with
    | None => Ok None
    | Some raw => Some <$> before_get (section_map config section) raw
    end.
Proof.
  intros Hs. unfold option_value. rewrite has_option_section, get_section by done.
  destruct (section_map config section key) as [raw|].
  - by rewrite bool_decide_eq_true_2 by eauto.
  - by rewrite bool_decide_eq_false_2 by (by intros [? ?]).
Qed.

(** Setting an option to a value without a percent sign. *)
Lemma set_section config section key value :
  section ∈ sections config → PathLib.contains "%" value = false →
  set config section key value
  = Ok (Parser (_defaults config)
          (Dict.set section (Dict.set key value (own_options config section))
             (_sections config))).
Proof.
  intros Hs Hv. pose proof (get_own_options _ _ Hs) as Hd.
  apply elem_of_sections in Hs as (H1 & H2 & _). unfold set.
  assert ((if bool_decide (value = "") then Ok value else before_set value) = Ok value)
    as -> by (case_bool_decide; [done | by apply before_set_plain]).
  simpl. by rewrite (bool_decide_eq_false_2 _ H1), (bool_decide_eq_false_2 _ H2), Hd.
Qed.

Lemma sections_set config section (options : Options) :
  is_Some (Dict.get section (_sections config)) →
  ∀ defaults,
    sections (Parser defaults (Dict.set section options (_sections config)))
    = sections config.
Proof. intros Hs defaults. unfold sections. simpl. by rewrite keys_set. Qed.

End ConfigFacts.
(** ** The reader *)

Section IniFacts.
Import MiniIni.

Lemma elem_of_keys_set {V} (k k' : string) (v : V) (d : list (string * V)) :
  k' ∈ Dict.keys (Dict.set k v d) → k' = k ∨ k' ∈ Dict.keys d.
Proof.
  unfold Dict.keys. induction d as [|[k2 v2] d IH]; simpl.
  - intros [->|?%elem_of_nil]%elem_of_cons; [by left | done].
  - case_bool_decide as Hk; simpl.
    + intros [->|?]%elem_of_cons; [by left | right; by right].
    + intros [->|?]%elem_of_cons; [right; by left |].
      destruct IH as [?|?]; [done | by left | right; by right].
Qed.

Lemma header_named value sectname : header value = Some sectname → sectname ≠ "".
Proof.
  unfold header. destruct value as [|a rest]; [done |].
  case_bool_decide; [|done].
  destruct (before_last_bracket rest) as [[|b h]|]; try done. by intros [= <-].
Qed.

(** What the reader holds while it reads: the sections are named, none
    is the default section, and so is the section being read. *)
Local Abbreviation named st :=
  ((∀ n, n ∈ Dict.keys (sects st) → n ≠ "" ∧ n ≠ configparser.DEFAULTSECT)
   ∧ (∀ n, cursect st = Some n → n ≠ "")).

Lemma named_with_options st sectname options optname indent_level e :
  named st → cursect st = Some sectname →
  named (with_options st sectname options optname indent_level e).
Proof.
  intros [Hs Hc] Hcur. unfold with_options. case_bool_decide as Hd; [done |].
  split; [|done]. simpl. intros n [->|Hn]%elem_of_keys_set; [|by apply Hs].
  split; [by apply Hc | done].
Qed.

Lemma named_append_line st value : named st → named (append_line st value).
Proof.
  intros Hst. unfold append_line.
  destruct (cursect st) as [sectname|] eqn:Hcur; [|by rewrite Hcur].
  destruct (optname st) as [[|a o]|]; try (by rewrite Hcur).
  destruct (Dict.get _ _); [|by rewrite Hcur].
  apply named_with_options; [by rewrite Hcur | done].
Qed.

Lemma named_parse_line strict line st st' :
  named st → parse_line strict line st = Ok st' → named st'.
Proof.
  intros Hst. unfold parse_line.
  destruct (match strip line with String _ _ => _ | EmptyString => false end);
    [by intros [= <-] |].
  case_bool_decide; [intros [= <-]; by apply named_append_line |].
  destruct (match cursect st with Some _ => _ | None => false end);
    [intros [= <-]; by apply named_append_line |].
  destruct Hst as [Hs Hc].
  destruct (header (strip line)) as [sectname|] eqn:Hh.
  - apply header_named in Hh.
    case_bool_decide as Hin.
    + destruct strict; [done |]. intros [= <-]. split; [done |]. by intros n [= <-].
    + case_bool_decide as Hd; intros [= <-].
      * split; [done |]. by intros n [= <-].
      * split; [|by intros n [= <-]]. simpl. unfold Dict.keys. rewrite fmap_app.
        intros n [Hn|Hn]%elem_of_app; [by apply Hs |].
        apply list_elem_of_singleton in Hn as ->. done.
  - destruct (cursect st) as [sectname|] eqn:Hcur; [|done].
    destruct (partition (strip line)) as [[option optval]|].
    + destruct (strict && _); [done |]. intros [= <-].
      apply named_with_options; [|done].
      split; [done |]. intros n Hn. apply Hc. by rewrite <- Hn.
    + intros [= <-]. by split.
Qed.

Lemma named_parse_lines strict lines : ∀ st st',
  named st → parse_lines strict lines st = Ok st' → named st'.
Proof.
  induction lines as [|line lines IH]; intros st st' Hst; simpl.
  - by intros [= <-].
  - destruct (parse_line strict line st) as [st1|] eqn:H1; simpl; [|done].
    apply IH. by eapply named_parse_line.
Qed.

(** In a document that was read every section has a name and none is
    the default section: [config.sections()] is all of them. *)
Lemma parse_sections strict text config :
  parse strict text = Ok config →
  configparser.sections config = Dict.keys (_sections config).
Proof.
  unfold parse.
  destruct (parse_lines strict (splitlines text) (State [] [] None None 0 None))
    as [st|] eqn:Hst; simpl; [|done].
  apply named_parse_lines in Hst as [Hs _];
    [|split; [by intros n ?%elem_of_nil | done]].
  destruct (e st); [done |]. intros [= <-]. unfold configparser.sections. simpl.
  assert (Hk : Dict.keys ((λ s, (s.1, join_multiline_values s.2)) <$> sects st)
               = Dict.keys (sects st)).
  { unfold Dict.keys. rewrite <- list_fmap_compose. by apply list_fmap_ext. }
  rewrite Hk. clear Hk. revert Hs.
  generalize (Dict.keys (sects st)). intros l.
  induction l as [|n l IH]; intros Hl; [done |].
  rewrite filter_cons_True by (apply Hl; by left).
  f_equal. apply IH. intros n' Hn'. apply Hl. by right.
Qed.

End IniFacts.
(** ** Matching a section and setting its zoom *)

(** [section_matches_camera] on a section of the document: the look-ups it
    repeats give the same value each time. *)
Lemma section_matches_camera_eq (config : ConfigParser) (section camera_name : string) :
  section ∈ configparser.sections config →
  section_matches_camera config section camera_name
  = section_matches camera_name config section.
Proof.
  intros Hs. unfold section_matches_camera, section_matches, option_value.
  rewrite getitem_section by done. simpl.
  unfold Section_Proxy.contains, Section_Proxy.getitem. simpl.
  destruct (configparser.has_option config section "Title"); simpl; [|done].
  destruct (configparser.get config section "Title") as [title|e]; simpl; [|done].
  by destruct (bool_decide (title = camera_name)).
Qed.

(** C7, as the script has it.  The [Title] of a section is looked up in the
    section and, failing that, in the default section, and its value is
    interpolated.  The section matches a camera name exactly when there is
    such a [Title] and its interpolated value is the name, bare or between
    two double quotes; the check raises when the interpolation does.  A
    value without a percent sign is its own interpolation, so [Title=Pilot]
    and the quoted form both match [Pilot]; and a section matches no name
    when neither it nor the default section has a [Title]. *)
Theorem section_matches_camera_iff (config : ConfigParser) (section camera_name : string) :
  section ∈ configparser.sections config →
  let d := section_map config section in
  section_matches_camera config section camera_name
  = match d "Title" with
    | None => Ok false
    | Some raw =>
        title ← configparser.before_get d raw;
        Ok (bool_decide (title = camera_name) || bool_decide (title = quoted camera_name))
    end
  ∧ (section_matches_camera config section camera_name = Ok true
     ↔ ∃ raw title, d "Title" = Some raw ∧ configparser.before_get d raw = Ok title
                    ∧ (title = camera_name ∨ title = quoted camera_name))
  ∧ d "Title" = match Dict.get "Title" (own_options config section) with
                | Some raw => Some raw
                | None => Dict.get "Title" (_defaults config)
                end
  ∧ (∀ raw, PathLib.contains "%" raw = false → configparser.before_get d raw = Ok raw)
  ∧ section_matches_camera (Parser [] [("CAMERA_PILOT", [("Title", "Pilot")])])
      "CAMERA_PILOT" "Pilot" = Ok true
  ∧ section_matches_camera
      (Parser [] [("CAMERA_PILOT", [("Title", String dquote ("Pilot" +:+ String dquote ""))])])
      "CAMERA_PILOT" "Pilot" = Ok true.
Proof.
  intros Hs d.
  assert (Heq : section_matches_camera config section camera_name
                = match d "Title" with
                  | None => Ok false
                  | Some raw =>
                      title ← configparser.before_get d raw;
                      Ok (bool_decide (title = camera_name)
                          || bool_decide (title = quoted camera_name))
                  end).
  { rewrite section_matches_camera_eq by done. unfold section_matches.
    rewrite option_value_section by done. fold d.
    destruct (d "Title") as [raw|]; [|done].
    by destruct (configparser.before_get d raw). }
  split; [exact Heq |]. split; [|split; [done |]].
  - rewrite Heq. destruct (d "Title") as [raw|]; [|split; [done | by intros (? & ? & ? & _)]].
    destruct (configparser.before_get d raw) as [title|e] eqn:Hget; simpl.
    + split.
      * intros [= H]. apply orb_true_iff in H. rewrite !bool_decide_eq_true in H.
        by exists raw, title.
      * intros (raw' & title' & [= <-] & Hget' & H).
        rewrite Hget in Hget'. injection Hget' as <-. f_equal.
        apply orb_true_iff. by rewrite !bool_decide_eq_true.
    + split; [done |]. intros (raw' & title' & [= <-] & Hget' & _). congruence.
  - split; [intros raw Hraw; by apply before_get_plain | by split].
Qed.

Lemma section_matches_camera_iff_witness :
  section_matches_camera
    (Parser [] [("CAMERA_PILOT", [("Title", "Pilot"); ("InitialZoom", "1.0")]);
                ("CAMERA_TAIL", [("InitialZoom", "0.5")])]) "CAMERA_TAIL" "Pilot"
  = Ok false.
Proof.
  destruct (section_matches_camera_iff
              (Parser [] [("CAMERA_PILOT", [("Title", "Pilot"); ("InitialZoom", "1.0")]);
                          ("CAMERA_TAIL", [("InitialZoom", "0.5")])])
              "CAMERA_TAIL" "Pilot") as [Heq _].
  - apply elem_of_sections. split; [done |]. split; [done |]. by eexists.
  - exact Heq.
Defined.

(** C7 as the specification words it fails in both directions: a section
    without a [Title] matches when the default section has one, and a
    section whose [Title] is the camera name does not match when the name
    holds a lone percent sign: the look-up raises. *)
Lemma section_matches_camera_default_title :
  let config := Parser [("Title", "Pilot")] [("CAMERA_PILOT", [("InitialZoom", "1.0")])] in
  let percent :=
    Parser [] [("CAMERA_PILOT", [("Title", "Pilot 100%"); ("InitialZoom", "1.0")])] in
  MiniIni.parse true Demo.default_title_text = Ok config
  ∧ Dict.get "Title" (own_options config "CAMERA_PILOT") = None
  ∧ section_matches_camera config "CAMERA_PILOT" "Pilot" = Ok true
  ∧ MiniIni.parse true Demo.percent_text = Ok percent
  ∧ Dict.get "Title" (own_options percent "CAMERA_PILOT") = Some "Pilot 100%"
  ∧ section_matches_camera percent "CAMERA_PILOT" "Pilot 100%"
    = Raise InterpolationSyntaxError.
Proof. vm_compute. by repeat split. Qed.

(** C1, as the script has it.  [InitialZoom] is looked up in the section
    and, failing that, in the default section.  Without it the section is
    warned about and skipped.  Its value is interpolated, and the call
    raises when the interpolation does.  A value that is the very string
    [str camera_zoom] has the section skipped as already set; any other
    value, also one that denotes the same number in another format, makes
    the section count as modified.  The option is then set to
    [str camera_zoom] in the section itself, nothing else in the document
    changing, unless the run is a dry run, which leaves the document as it
    is.  No case touches the files or the counters. *)
Theorem modify_section_initialzoom_cases (float : Type) (str : float → float_str)
    (config : ConfigParser) (section : string) (camera_zoom : float) (w : world) :
  section ∈ configparser.sections config →
  let d := section_map config section in
  let r := modify_section_initialzoom float str config section camera_zoom w in
  match d "InitialZoom" with
  | None =>
      r = (Ok (config, false), set_stdout w (stdout w ++ [WarningNoInitialZoom section]))
  | Some raw =>
      match configparser.before_get d raw with
      | Raise e => r = (Raise e, w)
      | Ok original_zoom =>
          if decide (original_zoom = str camera_zoom) then
            r = (Ok (config, false),
                 set_stdout w (stdout w ++ [InfoAlreadySet section (str camera_zoom)]))
          else if DRY_RUN w then
            r = (Ok (config, true),
                 set_stdout w
                   (stdout w ++ [DryWouldModify section original_zoom (str camera_zoom)]))
          else
            let config' :=
              Parser (_defaults config)
                (Dict.set section
                   (Dict.set "InitialZoom" (str camera_zoom : string)
                      (own_options config section))
                   (_sections config)) in
            r = (Ok (config', true),
                 set_stdout w
                   (stdout w ++ [ModifiedSection section original_zoom (str camera_zoom)]))
            ∧ configparser.sections config' = configparser.sections config
            ∧ option_value config' section "InitialZoom" = Ok (Some (str camera_zoom : string))
            ∧ (∀ key, key ≠ "InitialZoom" →
                 Dict.get key (own_options config' section)
                 = Dict.get key (own_options config section))
            ∧ (∀ n, n ≠ section →
                 Dict.get n (_sections config') = Dict.get n (_sections config))
      end
  end.
Proof.
  intros Hs d r. subst r. unfold modify_section_initialzoom, bind, lift.
  rewrite getitem_section by done.
  unfold Section_Proxy.contains, Section_Proxy.getitem, Section_Proxy.setitem. simpl.
  rewrite has_option_section, get_section by done. fold d.
  destruct (d "InitialZoom") as [raw|] eqn:Hraw;
    [rewrite bool_decide_eq_true_2 by eauto
    | by rewrite bool_decide_eq_false_2 by (by intros [? ?])].
  simpl. destruct (configparser.before_get d raw) as [original_zoom|e]; [|done].
  destruct (decide (original_zoom = str camera_zoom)) as [Heq|Hne].
  - by rewrite (bool_decide_eq_true_2 _ Heq).
  - rewrite (bool_decide_eq_false_2 _ Hne). unfold get_DRY_RUN.
    destruct (DRY_RUN w) eqn:Hdry; [done |].
    rewrite set_section by (done || apply text_plain).
    pose proof (get_own_options _ _ Hs) as Hd.
    split; [done |].
    split; [apply sections_set; eauto |].
    split.
    { rewrite option_value_section.
      - unfold section_map, own_options. simpl. rewrite get_set_eq. simpl.
        rewrite ChainMap_set, (bool_decide_eq_true_2 _ eq_refl).
        by rewrite before_get_plain by apply text_plain.
      - rewrite sections_set by eauto. done. }
    split.
    + intros key Hk. unfold own_options at 1. simpl. rewrite get_set_eq. simpl.
      by apply get_set_ne.
    + intros n Hn. simpl. by apply get_set_ne.
Qed.

Lemma modify_section_initialzoom_cases_witness :
  let config := Parser [] [("CAMERA_PILOT", [("Title", "Pilot"); ("InitialZoom", "0.350")])] in
  modify_section_initialzoom float_str id config "CAMERA_PILOT" Demo.zoom
    (World ∅ false (Stats 1 0 0 0) [])
  = (Ok (Parser [] [("CAMERA_PILOT", [("Title", "Pilot"); ("InitialZoom", "0.35")])], true),
     World ∅ false (Stats 1 0 0 0) [ModifiedSection "CAMERA_PILOT" "0.350" "0.35"]).
Proof.
  intros config.
  assert (Hs : "CAMERA_PILOT" ∈ configparser.sections config).
  { apply elem_of_sections. split; [done |]. split; [done |]. by eexists. }
  destruct (modify_section_initialzoom_cases float_str id config "CAMERA_PILOT" Demo.zoom
              (World ∅ false (Stats 1 0 0 0) []) Hs) as [Hr _].
  exact Hr.
Defined.

(** C1 as the specification words it fails in a dry run: the value differs
    from the target, the section is reported as modified, and [InitialZoom]
    is still the old value. *)
Lemma modify_section_initialzoom_dry_run_keeps_value :
  let config := Parser [] [("CAMERA_PILOT", [("Title", "Pilot"); ("InitialZoom", "1.0")])] in
  let w := World ∅ true (Stats 1 0 0 0) [] in
  ¬ ∃ config' w',
      modify_section_initialzoom float_str id config "CAMERA_PILOT" Demo.zoom w
      = (Ok (config', true), w')
      ∧ option_value config' "CAMERA_PILOT" "InitialZoom" = Ok (Some "0.35").
Proof.
  intros config w (config' & w' & Hr & Hz).
  vm_compute in Hr. injection Hr as <- <-. vm_compute in Hz. congruence.
Qed.
(** ** The loop over the sections *)

Lemma forallb_ext {A} (f g : A → bool) (l : list A) :
  (∀ x, f x = g x) → forallb f l = forallb g l.
Proof. intros H. induction l as [|x l IH]; simpl; [done | by rewrite H, IH]. Qed.

(** [for x in xs] takes one turn and goes on. *)
Lemma for_each_cons {A B} (x : A) (xs : list A) (acc : B) (body : A → B → M B) :
  for_each (x :: xs) acc body = bind (body x acc) (λ acc', for_each xs acc' body).
Proof. done. Qed.

Lemma any_section_Ok f l b :
  any_section f l = Ok b →
  (∀ n, n ∈ l → is_ok (f n) = true) ∧ b = existsb (λ n, holds (f n)) l.
Proof.
  revert b. induction l as [|n l IH]; simpl; intros b.
  - intros [= <-]. split; [by intros n ?%elem_of_nil | done].
  - destruct (f n) as [b1|e] eqn:Hn; simpl; [|done].
    destruct (any_section f l) as [b2|e]; simpl; [|done].
    intros [= <-]. destruct (IH b2 eq_refl) as [Hok ->]. split; [|done].
    intros n' [->|Hn']%elem_of_cons; [by rewrite Hn | by apply Hok].
Qed.


(** Sections that are examined a second time after a change do not change
    what the loop returns. *)
Lemma any_section_again (f f' : string → result bool) l :
  (∀ n, n ∈ l → f' n = f n ∨ (is_ok (f' n) = true ∧ is_ok (f n) = true)) →
  match any_section f' l, any_section f l with
  | Ok _, Ok _ => True
  | Raise e', Raise e => e' = e
  | _, _ => False
  end.
Proof.
  induction l as [|n l IH]; simpl; intros Hl; [done |].
  assert (IH' := IH (λ n' Hn', Hl n' ltac:(by right))).
  destruct (Hl n ltac:(by left)) as [-> | [H' H]].
  - destruct (f n) as [b|e]; simpl; [|done].
    by destruct (any_section f' l), (any_section f l).
  - destruct (f' n), (f n); try done. simpl.
    by destruct (any_section f' l), (any_section f l).
Qed.

Lemma is_ok_fmap {A B} (f : A → B) (r : result A) : is_ok (f <$> r) = is_ok r.
Proof. by destruct r. Qed.

Section Loop.
Context (float : Type) (str : float → float_str).
Context (camera_name : string) (camera_zoom : float).

Local Abbreviation zoom := (text (str camera_zoom)).
Local Abbreviation body := (modify_sections_body float str camera_name camera_zoom).
Local Abbreviation needs := (section_needs_change camera_name zoom).
Local Abbreviation matched := (section_matches camera_name).
Local Abbreviation rezoom1 := (rezoom_section camera_name zoom).

Lemma zoom_plain : PathLib.contains "%" zoom = false.
Proof. apply text_plain. Qed.

(** The document with the zoom set in a section. *)
Lemma set_zoom_eq config n :
  n ∈ configparser.sections config →
  set_zoom zoom config n
  = Parser (_defaults config)
      (Dict.set n (Dict.set "InitialZoom" zoom (own_options config n)) (_sections config)).
Proof. intros Hn. unfold set_zoom. by rewrite set_section by (done || apply zoom_plain). Qed.

Lemma set_zoom_sections config n :
  n ∈ configparser.sections config →
  configparser.sections (set_zoom zoom config n) = configparser.sections config.
Proof.
  intros Hn. rewrite set_zoom_eq by done. apply sections_set.
  by apply elem_of_sections in Hn as (_ & _ & ?).
Qed.

Lemma set_zoom_other config n n' key :
  n ∈ configparser.sections config → n ≠ n' →
  option_value (set_zoom zoom config n) n' key = option_value config n' key.
Proof.
  intros Hn Hne. rewrite set_zoom_eq by done.
  unfold option_value, configparser.has_option, configparser.get,
    configparser._unify_values. simpl.
  by rewrite get_set_ne.
Qed.

Lemma set_zoom_map config n key :
  n ∈ configparser.sections config →
  section_map (set_zoom zoom config n) n key
  = if bool_decide (key = "InitialZoom") then Some zoom else section_map config n key.
Proof.
  intros Hn. rewrite set_zoom_eq by done. unfold section_map, own_options. simpl.
  rewrite get_set_eq. simpl. apply ChainMap_set.
Qed.

Lemma set_zoom_zoom config n :
  n ∈ configparser.sections config →
  option_value (set_zoom zoom config n) n "InitialZoom" = Ok (Some zoom).
Proof.
  intros Hn. rewrite option_value_section by (by rewrite set_zoom_sections).
  rewrite set_zoom_map by done. simpl.
  by rewrite before_get_plain by apply zoom_plain.
Qed.

(** A look-up that returned in the section still returns once the zoom
    is set. *)
Lemma set_zoom_returns config n key :
  n ∈ configparser.sections config →
  is_ok (option_value config n key) = true →
  is_ok (option_value (set_zoom zoom config n) n key) = true.
Proof.
  intros Hn. rewrite !option_value_section by (done || by rewrite set_zoom_sections).
  rewrite set_zoom_map by done. case_bool_decide as Hk.
  { intros _. by rewrite before_get_plain by apply zoom_plain. }
  destruct (section_map config n key) as [raw|]; [|done].
  rewrite !is_ok_fmap.
  apply (interpolate_some_mono (section_map config n)).
  intros var. rewrite set_zoom_map by done.
  case_bool_decide; [right; eexists; split; [done | apply zoom_plain] | by left].
Qed.

Lemma rezoom_section_sections config n :
  n ∈ configparser.sections config →
  configparser.sections (rezoom1 config n) = configparser.sections config.
Proof.
  intros Hn. unfold rezoom_section. destruct (needs config n) as [[|]|]; try done.
  by apply set_zoom_sections.
Qed.

Lemma rezoom_section_needs_same config n n' :
  n ∈ configparser.sections config → n ≠ n' →
  needs (rezoom1 config n) n' = needs config n'
  ∧ matched (rezoom1 config n) n' = matched config n'.
Proof.
  intros Hn Hne. unfold rezoom_section.
  destruct (needs config n) as [[|]|]; try done.
  unfold section_needs_change, section_matches. by rewrite !set_zoom_other.
Qed.

Lemma needs_matched config n : needs config n = Ok true → matched config n = Ok true.
Proof.
  unfold section_needs_change. destruct (matched config n) as [[|]|]; simpl; done.
Qed.

Lemma matched_needs_ok config n :
  is_ok (needs config n) = true → is_ok (matched config n) = true.
Proof. unfold section_needs_change. by destruct (matched config n). Qed.

(** Once the zoom is set in a section that needed it, the section needs
    no change. *)
Lemma rezoom_section_needs_done config n :
  n ∈ configparser.sections config →
  needs config n = Ok true →
  needs (rezoom1 config n) n = Ok false
  ∧ is_ok (matched (rezoom1 config n) n) = true.
Proof.
  intros Hn Hneed. unfold rezoom_section. rewrite Hneed.
  assert (Hm : is_ok (matched (set_zoom zoom config n) n) = true).
  { apply needs_matched in Hneed. unfold section_matches in *.
    rewrite is_ok_fmap. apply set_zoom_returns; [done |].
    by destruct (option_value config n "Title"). }
  split; [|done]. unfold section_needs_change.
  destruct (matched (set_zoom zoom config n) n) as [[|]|]; simpl; try done.
  rewrite set_zoom_zoom by done. simpl. by rewrite bool_decide_eq_true_2.
Qed.

Lemma rezoom_section_id config n :
  needs config n ≠ Ok true → rezoom1 config n = config.
Proof. unfold rezoom_section. by destruct (needs config n) as [[|]|]. Qed.

(** One turn of the loop. *)
Lemma modify_sections_body_eq n config found modified w :
  n ∈ configparser.sections config →
  match needs config n with
  | Raise e => body n (config, found, modified) w = (Raise e, w)
  | Ok changed =>
      ∃ out,
        body n (config, found, modified) w
        = (Ok (if DRY_RUN w then config else rezoom1 config n,
               found || holds (matched config n),
               modified || changed),
           set_stdout w (stdout w ++ out))
        ∧ forallb section_msg out = true
  end.
Proof.
  intros Hn.
  unfold modify_sections_body, modify_section_initialzoom, bind, lift.
  rewrite section_matches_camera_eq, getitem_section by done.
  unfold rezoom_section, section_needs_change.
  destruct (matched config n) as [[|]|e] eqn:Hm; simpl; [| |done].
  - unfold Section_Proxy.contains, Section_Proxy.getitem, Section_Proxy.setitem,
      option_value. simpl.
    destruct (configparser.has_option config n "InitialZoom"); simpl.
    + destruct (configparser.get config n "InitialZoom") as [original_zoom|e]; simpl;
        [|done].
      destruct w as [fs0 dry st out0]. unfold get_DRY_RUN, print, ret. simpl.
      case_bool_decide as Heq; simpl.
      * eexists. split; [rewrite orb_true_r, orb_false_r; by destruct dry | done].
      * destruct dry; simpl; [eexists; split; [by rewrite !orb_true_r | done] |].
        unfold set_zoom.
        destruct (elem_of_sections config n) as [(H1 & H2 & [d Hd]) _]; [done |].
        rewrite set_section by (done || apply zoom_plain). simpl.
        eexists. split; [by rewrite !orb_true_r | done].
    + destruct w as [fs0 dry st out0]. unfold print, ret. simpl.
      eexists. split; [rewrite orb_true_r, orb_false_r; by destruct dry | done].
  - exists []. unfold ret. split; [|done]. rewrite !orb_false_r, app_nil_r.
    destruct w as [fs0 dry st out0]. by destruct dry.
Qed.

(** The loop from any turn on. *)
Lemma for_each_sections l : ∀ config found modified w,
  (∀ n, n ∈ l → n ∈ configparser.sections config) →
  ∃ out,
    for_each l (config, found, modified) body w
    = (match any_section (needs config) l with
       | Raise e => Raise e
       | Ok changed =>
           Ok (if DRY_RUN w then config else foldl rezoom1 config l,
               found || existsb (λ n, holds (matched config n)) l,
               modified || changed)
       end,
       set_stdout w (stdout w ++ out))
    ∧ forallb section_msg out = true.
Proof.
  induction l as [|n l IH]; intros config found modified w Hl.
  - exists []. simpl. unfold ret. rewrite !orb_false_r, app_nil_r.
    split; [|done]. destruct w as [? dry ? ?]; simpl. by destruct dry.
  - pose proof (modify_sections_body_eq n config found modified w (Hl n ltac:(by left)))
      as Hbody.
    rewrite for_each_cons. unfold bind at 1. simpl any_section.
    destruct (needs config n) as [changed|e] eqn:Hneed.
    2:{ rewrite Hbody. exists []. simpl. rewrite app_nil_r.
        split; [by destruct w | done]. }
    destruct Hbody as (out1 & -> & Ho1). simpl (Ok _ ≫= _). cbn [existsb].
    set (config1 := if DRY_RUN w then config else rezoom1 config n).
    assert (Hsame : (config1 = config
                     ∧ if DRY_RUN w then True else rezoom1 config n = config)
                    ∨ (DRY_RUN w = false ∧ changed = true)).
    { unfold config1. destruct (DRY_RUN w); [by left |].
      destruct changed; [by right | left].
      rewrite rezoom_section_id by (by rewrite Hneed). done. }
    assert (Hsec : configparser.sections config1 = configparser.sections config).
    { unfold config1. destruct (DRY_RUN w); [done |].
      apply rezoom_section_sections, Hl. by left. }
    destruct (IH config1 (found || holds (matched config n)) (modified || changed)
                (set_stdout w (stdout w ++ out1))) as (out2 & -> & Ho2).
    { intros n' Hn'. rewrite Hsec. apply Hl. by right. }
    exists (out1 ++ out2). split; [|by rewrite forallb_app, Ho1, Ho2].
    simpl. rewrite <- app_assoc.
    assert (Hw : ∀ a b, set_stdout (set_stdout w a) b = set_stdout w b)
      by (by destruct w).
    rewrite Hw. f_equal.
    destruct Hsame as [[Hc Hr] | [Hdry ->]].
    { rewrite Hc.
      destruct (any_section (needs config) l) as [changed'|e]; simpl; [|done].
      rewrite <- !orb_assoc. destruct (DRY_RUN w); [done | by rewrite Hr]. }
    assert (Hn : n ∈ configparser.sections config) by (apply Hl; by left).
    assert (Hm : holds (matched config n) = true)
      by (by rewrite (needs_matched _ _ Hneed)).
    assert (Hagain : ∀ n', n' ∈ l →
              needs config1 n' = needs config n'
              ∨ (is_ok (needs config1 n') = true ∧ is_ok (needs config n') = true)).
    { intros n' Hn'. unfold config1. rewrite Hdry.
      destruct (decide (n = n')) as [<-|Hne].
      - right. destruct (rezoom_section_needs_done config n Hn Hneed) as [-> _].
        by rewrite Hneed.
      - left. by destruct (rezoom_section_needs_same config n n' Hn Hne). }
    apply any_section_again in Hagain.
    destruct (any_section (needs config1) l) as [c1|e1],
             (any_section (needs config) l) as [c|e0]; simpl; try done.
    + rewrite Hm, !orb_true_r. unfold config1. by rewrite Hdry.
    + by rewrite Hagain.
Qed.

(** The loop of [modify_single_camera_cfg]: it prints only messages about
    sections; it raises when a look-up in a section does; otherwise it
    reports a matching title exactly when some section matches and a
    change exactly when some section needs one, and unless the run is a
    dry run leaves the document with those sections set. *)
Lemma modify_sections_eq config w :
  ∃ out,
    modify_sections float str config camera_name camera_zoom w
    = (match document_needs_change camera_name zoom config with
       | Raise e => Raise e
       | Ok changed =>
           Ok (if DRY_RUN w then config else rezoom camera_name zoom config,
               document_matches camera_name config, changed)
       end,
       set_stdout w (stdout w ++ out))
    ∧ forallb section_msg out = true.
Proof. by apply for_each_sections. Qed.

(** After the loop no section needs a change. *)
Lemma foldl_rezoom_sections l : ∀ config,
  (∀ n, n ∈ l → n ∈ configparser.sections config) →
  configparser.sections (foldl rezoom1 config l) = configparser.sections config.
Proof.
  induction l as [|n0 l IH]; intros config Hl; simpl; [done |].
  rewrite IH.
  - apply rezoom_section_sections, Hl. by left.
  - intros n Hn. rewrite rezoom_section_sections by (apply Hl; by left).
    apply Hl. by right.
Qed.


Lemma rezoom_sections config :
  configparser.sections (rezoom camera_name zoom config) = configparser.sections config.
Proof. by apply foldl_rezoom_sections. Qed.


Lemma rezoom_id config :
  document_needs_change camera_name zoom config = Ok false →
  rezoom camera_name zoom config = config.
Proof.
  unfold document_needs_change, rezoom.
  generalize (configparser.sections config) as l.
  induction l as [|n l IH]; simpl; [done |].
  destruct (needs config n) as [b|] eqn:Hn; simpl; [|done].
  destruct (any_section (needs config) l) as [b'|] eqn:Hl; simpl; [|done].
  intros [= [-> ->]%orb_false_elim].
  rewrite rezoom_section_id by (by rewrite Hn). auto.
Qed.

End Loop.

(** ** One file *)

Lemma verdicts_app out1 out2 : verdicts (out1 ++ out2) = verdicts out1 ++ verdicts out2.
Proof. apply filter_app. Qed.

Lemma verdicts_cons m out :
  verdicts (m :: out) = if verdict m then m :: verdicts out else verdicts out.
Proof. unfold verdicts. rewrite filter_cons. by destruct (verdict m). Qed.

Lemma verdicts_nil : verdicts [] = [].
Proof. done. Qed.

Lemma verdicts_section_msgs out : forallb section_msg out = true → verdicts out = [].
Proof.
  induction out as [|m out IH]; simpl; [done |].
  intros [Hm Hout]%andb_true_iff. rewrite verdicts_cons.
  destruct m; simpl in *; try done; by apply IH.
Qed.


(** Steps shared by the proofs about one file: unfold the statements, use
    what is known of the loop over the sections, and close a case by
    reading the printed messages off the final state. *)
Ltac run_file :=
  unfold bind, try_except, print, ret, raise, lift, io, incr_unchanged, incr_modified,
    incr_errors, get_DRY_RUN, get_fs, backup_camera_cfg, set_stdout, set_stats, set_fs;
  simpl.

Ltac finish_file :=
  run_file; rewrite <- ?app_assoc; simpl; eexists; split;
  [reflexivity
  | repeat first
      [ rewrite verdicts_cons | rewrite verdicts_app | rewrite verdicts_nil
      | match goal with H : forallb section_msg _ = true |- _ =>
          rewrite (verdicts_section_msgs _ H) end ];
    reflexivity].

Ltac loop_file :=
  match goal with
  | |- context [modify_sections ?float ?str ?c ?n ?z] =>
      let out := fresh "out_loop" in
      let Hloop := fresh "Hloop" in
      let Hsec := fresh "Hsec" in
      unfold bind at 1;
      match goal with
      | |- context [modify_sections float str c n z ?w] =>
          destruct (modify_sections_eq float str n z c w) as (out & Hloop & Hsec);
          rewrite Hloop
      end
  end.

Section OneFile.
Context (fl : PathLib.flavour) (float : Type) (str : float → float_str).
Context (parse : bool → string → result ConfigParser) (write : ConfigParser → string).

Local Abbreviation modify_single :=
  (modify_single_camera_cfg fl float str parse write).
Local Abbreviation modify_outcome_of := (modify_file fl float str parse write).

(** [modify_single_camera_cfg] never raises; it goes the way [modify_file]
    says, counts the file accordingly and prints the matching verdict. *)
Lemma modify_single_camera_cfg_eq file_path camera_name camera_zoom backup_ext
    disable_strict w :
  let r := modify_outcome_of (DRY_RUN w) (fs w) file_path camera_name camera_zoom
             backup_ext disable_strict in
  ∃ out,
    modify_single file_path camera_name camera_zoom backup_ext disable_strict w
    = (Ok tt, World r.2 (DRY_RUN w) (count_modify r.1 (FILE_STATS w)) (stdout w ++ out))
    ∧ verdicts out = verdict_modify r.1 file_path.
Proof.
  destruct w as [fs0 dry st out0]. simpl.
  unfold modify_single_camera_cfg, modify_file, load, config_read.
  unfold try_except, bind at 1 2 3, print at 1, get_fs, lift. simpl.
  destruct (OS.read_text fs0 file_path) as [text|e0]; simpl.
  - destruct (parse (negb disable_strict) text) as [config|e] eqn:Hparse; [|finish_file].
    loop_file. run_file.
    destruct (document_needs_change _ _ _) as [[|]|e]; simpl; [| |finish_file].
    all: destruct (document_matches _ _); simpl; try finish_file.
    all: destruct (get_backup_file_path fl file_path backup_ext) as [bp|e1];
      simpl; [|finish_file].
    all: destruct dry; run_file; [finish_file |].
    all: destruct (OS.copy2 fs0 file_path bp) as [fs1|e2]; run_file; [|finish_file].
    all: destruct (OS.write_text fs1 file_path _) as [fs2|e3]; finish_file.
  - unfold modify_sections. simpl. finish_file.
Qed.


(** [restore_single_camera_cfg] raises only when the backup path does;
    otherwise it goes the way [restore_file] says. *)
Lemma restore_single_camera_cfg_eq file_path backup_ext w :
  let r := restore_file fl (DRY_RUN w) (fs w) file_path backup_ext in
  ∃ out,
    restore_single_camera_cfg fl file_path backup_ext w
    = (result_restore r.1,
       World r.2 (DRY_RUN w) (count_restore r.1 (FILE_STATS w)) (stdout w ++ out))
    ∧ verdicts out = verdict_restore r.1 file_path.
Proof.
  destruct w as [fs0 dry st out0]. simpl.
  unfold restore_single_camera_cfg, restore_file. run_file.
  destruct (get_backup_file_path fl file_path backup_ext) as [bp|e1]; simpl.
  - destruct (OS.exists_ fs0 bp); simpl; [|finish_file].
    destruct dry; simpl; [finish_file |].
    destruct (OS.copy2 fs0 bp file_path) as [fs1|e2]; simpl; [|finish_file].
    destruct (OS.remove fs1 bp) as [fs2|e3]; finish_file.
  - exists []. by rewrite app_nil_r.
Qed.

End OneFile.

(** ** A run *)

Section Runs.
Context (fl : PathLib.flavour) (float : Type) (str : float → float_str).
Context (parse : bool → string → result ConfigParser) (write : ConfigParser → string).

Lemma find_camera_cfg_files_eq community_folder w :
  ∃ out,
    find_camera_cfg_files community_folder w
    = (Ok (discover (fs w) community_folder), set_stdout w (stdout w ++ out))
    ∧ verdicts out = [].
Proof.
  unfold find_camera_cfg_files, discover, bind, get_fs, print, ret.
  destruct (OS.is_dir (fs w) community_folder); simpl.
  - exists []. rewrite app_nil_r. by destruct w.
  - by eexists.
Qed.

Lemma for_each_modify l : ∀ camera_name camera_zoom backup_ext disable_strict w,
  let rs := modify_files fl float str parse write (DRY_RUN w) (fs w) l
              camera_name camera_zoom backup_ext disable_strict in
  ∃ out,
    for_each l tt
      (λ file_path _,
         modify_single_camera_cfg fl float str parse write file_path camera_name
           camera_zoom backup_ext disable_strict) w
    = (Ok tt,
       World rs.2 (DRY_RUN w) (foldl (λ s o, count_modify o s) (FILE_STATS w) rs.1)
         (stdout w ++ out))
    ∧ verdicts out = verdicts_modify rs.1 l.
Proof.
  induction l as [|p l IH]; intros camera_name camera_zoom backup_ext disable_strict w.
  - exists []. simpl. unfold ret. rewrite app_nil_r. by destruct w.
  - destruct (modify_single_camera_cfg_eq fl float str parse write p camera_name
                camera_zoom backup_ext disable_strict w) as (out1 & H1 & Hv1).
    rewrite for_each_cons. unfold bind. rewrite H1.
    match goal with |- context [for_each l tt _ ?w1] =>
      destruct (IH camera_name camera_zoom backup_ext disable_strict w1)
        as (out2 & H2 & Hv2) end.
    rewrite H2. simpl in *. exists (out1 ++ out2).
    split; [by rewrite app_assoc | by rewrite verdicts_app, Hv1, Hv2].
Qed.

Lemma find_and_modify_cameras_eq community_folder camera_name camera_zoom backup_ext
    disable_strict w :
  let l := discover (fs w) community_folder in
  let rs := modify_files fl float str parse write (DRY_RUN w) (fs w) l
              camera_name camera_zoom backup_ext disable_strict in
  let s := foldl (λ s o, count_modify o s) (Stats (length l) 0 0 0) rs.1 in
  ∃ out,
    find_and_modify_cameras fl float str parse write community_folder camera_name
      camera_zoom backup_ext disable_strict w
    = (Ok tt, World rs.2 (DRY_RUN w) s (stdout w ++ out ++ summary_modify s))
    ∧ verdicts out = verdicts_modify rs.1 l.
Proof.
  destruct w as [fs0 dry st out0]. simpl.
  set (l := discover fs0 community_folder).
  set (rs := modify_files _ _ _ _ _ _ _ _ _ _ _ _).
  set (s := foldl _ _ _).
  unfold find_and_modify_cameras.
  unfold bind at 1, put_FILE_STATS at 1. unfold bind at 1.
  match goal with |- context [find_camera_cfg_files _ ?w0] =>
    destruct (find_camera_cfg_files_eq community_folder w0) as (out0' & H0 & Hv0) end.
  rewrite H0. simpl. fold l.
  unfold bind at 1, get_FILE_STATS at 1. unfold bind at 1, put_FILE_STATS.
  unfold bind at 1, print at 1. unfold bind at 1, print at 1. unfold bind at 1 2.
  match goal with |- context [for_each l tt _ ?w1] =>
    destruct (for_each_modify l camera_name camera_zoom backup_ext disable_strict w1)
      as (out1 & H1 & Hv1) end.
  rewrite H1. simpl in *. fold l rs s in Hv1 |- *.
  run_file. unfold get_FILE_STATS. simpl.
  exists (out0' ++ [FoundToModify (length l); Blank] ++ out1).
  split.
  - unfold summary_modify. by repeat (rewrite <- app_assoc; simpl).
  - rewrite !verdicts_app, Hv0, Hv1. by rewrite !verdicts_cons.
Qed.

Lemma aborted_cons o os :
  (∀ e, o ≠ Aborted e) → aborted (o :: os) = aborted os.
Proof.
  intros Ho. unfold aborted. destruct os as [|o' os]; simpl.
  - destruct o; try done. by destruct (Ho e).
  - done.
Qed.

Lemma for_each_restore l : ∀ backup_ext w,
  let rs := restore_files fl (DRY_RUN w) (fs w) l backup_ext in
  ∃ out,
    for_each l tt (λ file_path _, restore_single_camera_cfg fl file_path backup_ext) w
    = (match aborted rs.1 with Some e => Raise e | None => Ok tt end,
       World rs.2 (DRY_RUN w) (foldl (λ s o, count_restore o s) (FILE_STATS w) rs.1)
         (stdout w ++ out))
    ∧ verdicts out = verdicts_restore rs.1 l.
Proof.
  induction l as [|p l IH]; intros backup_ext w.
  - exists []. simpl. unfold ret. rewrite app_nil_r. by destruct w.
  - destruct (restore_single_camera_cfg_eq fl p backup_ext w) as (out1 & H1 & Hv1).
    rewrite for_each_cons. unfold bind. rewrite H1. simpl.
    destruct (restore_file fl (DRY_RUN w) (fs w) p backup_ext) as [o fs1] eqn:Hr.
    simpl in *.
    assert (Hcase : (∃ e, o = Aborted e) ∨ (∀ e, o ≠ Aborted e)).
    { destruct o; eauto. }
    destruct Hcase as [[e ->]|Ho].
    { simpl. exists out1. split; [done |]. by rewrite ?app_nil_r. }
    assert (Hres : result_restore o = Ok tt) by (destruct o; try done; by destruct (Ho e)).
    rewrite Hres.
    match goal with |- context [for_each l tt _ ?w1] =>
      destruct (IH backup_ext w1) as (out2 & H2 & Hv2) end.
    simpl in *. rewrite H2.
    exists (out1 ++ out2).
    assert (Hstep :
      (match o with
       | Aborted _ => ([o], fs1)
       | _ => (o :: (restore_files fl (DRY_RUN w) fs1 l backup_ext).1,
               (restore_files fl (DRY_RUN w) fs1 l backup_ext).2)
       end) = (o :: (restore_files fl (DRY_RUN w) fs1 l backup_ext).1,
               (restore_files fl (DRY_RUN w) fs1 l backup_ext).2)).
    { destruct o; try done; by destruct (Ho e). }
    rewrite Hstep. simpl. rewrite aborted_cons by done.
    split; [by rewrite app_assoc | by rewrite verdicts_app, Hv1, Hv2].
Qed.

Lemma find_and_restore_cameras_eq community_folder backup_ext w :
  let l := discover (fs w) community_folder in
  let rs := restore_files fl (DRY_RUN w) (fs w) l backup_ext in
  let s := foldl (λ s o, count_restore o s) (Stats (length l) 0 0 0) rs.1 in
  ∃ out,
    find_and_restore_cameras fl community_folder backup_ext w
    = (match aborted rs.1 with Some e => Raise e | None => Ok tt end,
       World rs.2 (DRY_RUN w) s
         (stdout w ++ out
          ++ match aborted rs.1 with Some _ => [] | None => summary_restore s end))
    ∧ verdicts out = verdicts_restore rs.1 l.
Proof.
  destruct w as [fs0 dry st out0]. simpl.
  set (l := discover fs0 community_folder).
  set (rs := restore_files _ _ _ _ _).
  set (s := foldl _ _ _).
  unfold find_and_restore_cameras.
  unfold bind at 1, put_FILE_STATS at 1. unfold bind at 1.
  match goal with |- context [find_camera_cfg_files _ ?w0] =>
    destruct (find_camera_cfg_files_eq community_folder w0) as (out0' & H0 & Hv0) end.
  rewrite H0. simpl. fold l.
  unfold bind at 1, get_FILE_STATS at 1. unfold bind at 1, put_FILE_STATS.
  unfold bind at 1, print at 1. unfold bind at 1, print at 1. unfold bind at 1 2.
  match goal with |- context [for_each l tt _ ?w1] =>
    destruct (for_each_restore l backup_ext w1) as (out1 & H1 & Hv1) end.
  rewrite H1. simpl in *. fold l rs s in Hv1 |- *.
  exists (out0' ++ [FoundToRestore (length l); Blank] ++ out1).
  split.
  - destruct (aborted rs.1) as [e|].
    + rewrite app_nil_r. by repeat (rewrite <- app_assoc; simpl).
    + run_file. unfold get_FILE_STATS, summary_restore. simpl.
      by repeat (rewrite <- app_assoc; simpl).
  - rewrite !verdicts_app, Hv0, Hv1. by rewrite !verdicts_cons.
Qed.

End Runs.

(** ** The file system calls *)

Section OSFacts.
Implicit Types (fs : gmap Path OS.node) (p q r : Path).

Lemma is_dir_insert_file fs p f r :
  OS.is_dir fs p = false → OS.is_dir (<[p := OS.NFile f]> fs) r = OS.is_dir fs r.
Proof.
  unfold OS.is_dir. intros Hp. destruct (decide (p = r)) as [<-|Hne].
  - rewrite lookup_insert_eq. by destruct (fs !! p) as [[|]|].
  - by rewrite lookup_insert_ne.
Qed.

Lemma dir_writable_insert_file fs p f r :
  OS.is_dir fs p = false →
  OS.dir_writable (<[p := OS.NFile f]> fs) r = OS.dir_writable fs r.
Proof.
  unfold OS.is_dir, OS.dir_writable. intros Hp. destruct (decide (p = r)) as [<-|Hne].
  - rewrite lookup_insert_eq. by destruct (fs !! p) as [[|]|].
  - by rewrite lookup_insert_ne.
Qed.

Lemma dir_writable_delete_file fs p f r :
  fs !! p = Some (OS.NFile f) → OS.dir_writable (delete p fs) r = OS.dir_writable fs r.
Proof.
  unfold OS.dir_writable. intros Hp. destruct (decide (p = r)) as [<-|Hne].
  - by rewrite lookup_delete_eq, Hp.
  - by rewrite lookup_delete_ne.
Qed.

Lemma is_dir_delete_file fs p f r :
  fs !! p = Some (OS.NFile f) → OS.is_dir (delete p fs) r = OS.is_dir fs r.
Proof.
  unfold OS.is_dir. intros Hp. destruct (decide (p = r)) as [<-|Hne].
  - by rewrite lookup_delete_eq, Hp.
  - by rewrite lookup_delete_ne.
Qed.

Lemma write_text_eq fs p s :
  OS.write_text fs p s
  = if can_write fs p
    then Ok (<[p := OS.NFile
                     match fs !! p with
                     | Some (OS.NFile f) => OS.File s (OS.readable f) (OS.writable f)
                     | _ => OS.File s true true
                     end]> fs)
    else Raise OSError.
Proof.
  unfold OS.write_text, can_write. destruct (fs !! p) as [[f|]|]; [|done|].
  - by destruct (OS.writable f).
  - by destruct (OS.dir_writable fs (PathLib.parent p)).
Qed.

Lemma can_write_not_dir fs p : can_write fs p = true → OS.is_dir fs p = false.
Proof.
  unfold can_write, OS.is_dir. destruct (fs !! p) as [[f|]|]; try done.
Qed.

Lemma write_text_is_dir fs p s fs' r :
  OS.write_text fs p s = Ok fs' →
  OS.is_dir fs' r = OS.is_dir fs r ∧ OS.dir_writable fs' r = OS.dir_writable fs r.
Proof.
  rewrite write_text_eq. destruct (can_write fs p) eqn:Hc; [|done].
  intros [= <-]. apply can_write_not_dir in Hc.
  split; [by apply is_dir_insert_file | by apply dir_writable_insert_file].
Qed.

(** Copying onto a path that is not a directory. *)
Lemma copy2_eq fs src dst :
  OS.is_dir fs dst = false → src ≠ dst →
  OS.copy2 fs src dst
  = match fs !! src with
    | Some (OS.NFile f) =>
        if OS.readable f && can_write fs dst
        then Ok (<[dst := OS.NFile f]> fs)
        else Raise OSError
    | _ => Raise OSError
    end.
Proof.
  intros Hd Hne. unfold OS.copy2. rewrite Hd, (bool_decide_eq_false_2 _ Hne).
  destruct (fs !! src) as [[f|]|]; try done.
  destruct (OS.readable f); [|done]. rewrite write_text_eq.
  destruct (can_write fs dst); [|done]. simpl. by rewrite insert_insert_eq.
Qed.

Lemma copy2_is_dir fs src dst fs' r :
  OS.copy2 fs src dst = Ok fs' →
  OS.is_dir fs' r = OS.is_dir fs r ∧ OS.dir_writable fs' r = OS.dir_writable fs r.
Proof.
  unfold OS.copy2. case_bool_decide; [done |].
  destruct (fs !! src) as [[f|]|]; try done.
  destruct (OS.readable f); [|done].
  destruct (OS.write_text _ _ _) as [fs1|] eqn:Hw; [|done].
  intros [= <-]. destruct (write_text_is_dir _ _ _ _ r Hw) as [<- <-].
  assert (Hd : OS.is_dir fs1 (if OS.is_dir fs dst
                              then PathLib.joinpath dst (PathLib.name src) else dst)
               = false).
  { rewrite write_text_eq in Hw. destruct (can_write fs _); [|done].
    injection Hw as <-. unfold OS.is_dir. by rewrite lookup_insert_eq. }
  split; [by apply is_dir_insert_file | by apply dir_writable_insert_file].
Qed.

Lemma remove_eq fs p fs' :
  OS.remove fs p = Ok fs' →
  (∃ f, fs !! p = Some (OS.NFile f)) ∧ OS.dir_writable fs (PathLib.parent p) = true
  ∧ fs' = delete p fs.
Proof.
  unfold OS.remove. destruct (fs !! p) as [[f|]|]; try done.
  destruct (OS.dir_writable fs (PathLib.parent p)); [|done]. intros [= <-]. eauto.
Qed.

Lemma remove_is_dir fs p fs' r :
  OS.remove fs p = Ok fs' →
  OS.is_dir fs' r = OS.is_dir fs r ∧ OS.dir_writable fs' r = OS.dir_writable fs r.
Proof.
  intros ([f Hf] & _ & ->)%remove_eq.
  split; [by eapply is_dir_delete_file | by eapply dir_writable_delete_file].
Qed.

End OSFacts.

(** ** Backup paths of the discovered files *)

Section BackupPath.
Context (fl : PathLib.flavour).
Local Arguments String.append : simpl nomatch.

Lemma normalize_ext_length ext : 0 < String.length (normalize_ext ext).
Proof.
  pose proof (normalize_ext_dot ext) as H. unfold PathLib.startswith in H.
  destruct (normalize_ext ext); simpl in *; [done | lia].
Qed.

(** When the backup path exists it is the path with the dotted extension
    appended to its name. *)
Lemma get_backup_file_path_Ok p ext bp :
  get_backup_file_path fl p ext = Ok bp →
  bp = PathLib.joinpath (PathLib.parent p) (PathLib.name p +:+ normalize_ext ext)
  ∧ PathLib.name p ≠ "".
Proof.
  rewrite get_backup_file_path_eq. unfold PathLib.with_suffix.
  destruct (PathLib.has_sep _ _); [done |].
  destruct (_ || _); [done |].
  case_bool_decide as Hn; [done |]. intros [= <-]. split; [|done].
  unfold PathLib.joinpath. do 2 f_equal.
  destruct (suffix_cases p) as [Hs | (stem & Heq & Hsub & _ & _)].
  - rewrite Hs. by rewrite (bool_decide_eq_true_2 _ eq_refl).
  - case_bool_decide as Hs; [by rewrite Hs |].
    by rewrite Hsub, <- append_assoc, <- Heq.
Qed.


Lemma append_ne s e : 0 < String.length e → s +:+ e ≠ s.
Proof.
  intros He Heq. apply (f_equal String.length) in Heq.
  rewrite length_append in Heq. lia.
Qed.

Lemma joinpath_inj p q a b :
  PathLib.joinpath p a = PathLib.joinpath q b → p = q ∧ a = b.
Proof. unfold PathLib.joinpath. intros [? [= ?]]%app_inj_tail. done. Qed.

Lemma parent_name_inj p q :
  p ≠ [] → q ≠ [] → PathLib.parent p = PathLib.parent q →
  PathLib.name p = PathLib.name q → p = q.
Proof.
  intros Hp Hq Hpar Hn.
  by rewrite <- (joinpath_parent_name p), <- (joinpath_parent_name q), Hpar, Hn.
Qed.

(** The backup of a file is another path, not named as the file is, and
    distinct files of one name have distinct backups. *)
Lemma backup_name p ext bp :
  get_backup_file_path fl p ext = Ok bp →
  PathLib.name bp = PathLib.name p +:+ normalize_ext ext
  ∧ PathLib.parent bp = PathLib.parent p ∧ bp ≠ [].
Proof.
  intros [-> _]%get_backup_file_path_Ok.
  rewrite name_joinpath, parent_joinpath. split; [done |]. split; [done |].
  unfold PathLib.joinpath. by destruct (PathLib.parent p).
Qed.

Lemma backup_ne_same_name p q ext bp :
  get_backup_file_path fl p ext = Ok bp → PathLib.name q = PathLib.name p → bp ≠ q.
Proof.
  intros (Hn & _ & _)%backup_name Hq ->. rewrite Hq in Hn.
  symmetry in Hn. by apply append_ne in Hn; [|apply normalize_ext_length].
Qed.

Lemma backup_inj p q ext bp :
  p ≠ [] → q ≠ [] → PathLib.name q = PathLib.name p →
  get_backup_file_path fl p ext = Ok bp → get_backup_file_path fl q ext = Ok bp →
  p = q.
Proof.
  intros Hp Hq Hn (_ & Hpp & _)%backup_name (_ & Hpq & _)%backup_name.
  apply parent_name_inj; congruence.
Qed.

End BackupPath.

(** ** One file, on the file system *)

Section FileFacts.
Context (fl : PathLib.flavour) (float : Type) (str : float → float_str).
Context (parse : bool → string → result ConfigParser) (write : ConfigParser → string).
Context (camera_name : string) (camera_zoom : float) (backup_ext : string)
        (disable_strict : bool).
Implicit Types (fs : gmap Path OS.node) (p q r : Path).

Local Abbreviation zoom := (text (str camera_zoom)).
Local Abbreviation modify1 dry fs p :=
  (modify_file fl float str parse write dry fs p camera_name camera_zoom
     backup_ext disable_strict).
Local Abbreviation restore1 dry fs p := (restore_file fl dry fs p backup_ext).
Local Abbreviation load1 := (load parse (negb disable_strict)).
Local Abbreviation bak p := (backup_of p backup_ext).

Lemma get_backup_file_path_backup_of p bp :
  get_backup_file_path fl p backup_ext = Ok bp → bp = bak p.
Proof. by intros [-> _]%get_backup_file_path_Ok. Qed.

Lemma backup_of_ne p : bak p ≠ p.
Proof.
  unfold backup_of, PathLib.joinpath. intros Heq.
  destruct (decide (p = [])) as [->|Hp]; [done |].
  rewrite <- (joinpath_parent_name p Hp) in Heq at 3.
  apply joinpath_inj in Heq as [_ Heq].
  by apply append_ne in Heq; [|apply normalize_ext_length].
Qed.

Lemma backup_of_name p : PathLib.name (bak p) = PathLib.name p +:+ normalize_ext backup_ext.
Proof. apply name_joinpath. Qed.

Lemma backup_of_parent p : PathLib.parent (bak p) = PathLib.parent p.
Proof. apply parent_joinpath. Qed.

Lemma load_agree fs fs' p : fs' !! p = fs !! p → load1 fs' p = load1 fs p.
Proof. intros H. unfold load, OS.read_text. by rewrite H. Qed.

Lemma can_write_agree fs fs' p :
  fs' !! p = fs !! p →
  OS.dir_writable fs' (PathLib.parent p) = OS.dir_writable fs (PathLib.parent p) →
  can_write fs' p = can_write fs p.
Proof. intros H Hd. unfold can_write. by rewrite H, Hd. Qed.

(** The ways of [modify_file] outside a dry run, when the backup path is
    not a directory. *)
Lemma modify_file_eq fs p :
  OS.is_dir fs (bak p) = false →
  modify1 false fs p
  = match load1 fs p with
    | Raise e => (Errored e, fs)
    | Ok config =>
        match document_needs_change camera_name zoom config with
        | Raise e => (Errored e, fs)
        | Ok false => (Unchanged, fs)
        | Ok true =>
            match get_backup_file_path fl p backup_ext with
            | Raise e => (Errored e, fs)
            | Ok _ =>
                match fs !! p with
                | Some (OS.NFile f) =>
                    if OS.readable f && can_write fs (bak p) then
                      if OS.writable f then
                        (Rewritten,
                         <[p := OS.NFile
                                  (OS.File (write (rezoom camera_name zoom config))
                                     (OS.readable f) (OS.writable f))]>
                           (<[bak p := OS.NFile f]> fs))
                      else (WriteFailed OSError, <[bak p := OS.NFile f]> fs)
                    else (Errored OSError, fs)
                | _ => (Errored OSError, fs)
                end
            end
        end
    end.
Proof.
  intros Hd. unfold modify_file.
  destruct (load1 fs p) as [config|e]; [|done].
  destruct (document_needs_change _ _ _) as [[|]|]; [|done..].
  destruct (get_backup_file_path fl p backup_ext) as [bp|e] eqn:Hbp; [|done].
  apply get_backup_file_path_backup_of in Hbp as ->.
  rewrite copy2_eq; [|done | apply not_eq_sym, backup_of_ne].
  destruct (fs !! p) as [[f|]|] eqn:Hp; try done.
  destruct (OS.readable f && can_write fs (bak p)); [|done].
  rewrite write_text_eq. unfold can_write.
  rewrite lookup_insert_ne by apply backup_of_ne. rewrite Hp.
  by destruct (OS.writable f).
Qed.

(** Nothing the script does makes or unmakes a directory. *)
Lemma modify_file_dirs dry fs p r :
  OS.is_dir (modify1 dry fs p).2 r = OS.is_dir fs r
  ∧ OS.dir_writable (modify1 dry fs p).2 r = OS.dir_writable fs r.
Proof.
  unfold modify_file. destruct (load1 fs p) as [config|e]; [|done].
  destruct (document_needs_change _ _ _) as [[|]|]; [|done..].
  destruct (get_backup_file_path fl p backup_ext) as [bp|e]; [|done].
  destruct dry; [done |].
  destruct (OS.copy2 fs p bp) as [fs1|e] eqn:Hc; [|done].
  destruct (copy2_is_dir _ _ _ _ r Hc) as [<- <-].
  destruct (OS.write_text fs1 p _) as [fs2|e] eqn:Hw; simpl; [|done].
  by destruct (write_text_is_dir _ _ _ _ r Hw) as [<- <-].
Qed.

Lemma modify_file_is_dir dry fs p r :
  OS.is_dir (modify1 dry fs p).2 r = OS.is_dir fs r.
Proof. apply modify_file_dirs. Qed.

Lemma modify_file_dir_writable dry fs p r :
  OS.dir_writable (modify1 dry fs p).2 r = OS.dir_writable fs r.
Proof. apply modify_file_dirs. Qed.

Lemma restore_file_dirs dry fs p r :
  OS.is_dir (restore1 dry fs p).2 r = OS.is_dir fs r
  ∧ OS.dir_writable (restore1 dry fs p).2 r = OS.dir_writable fs r.
Proof.
  unfold restore_file.
  destruct (get_backup_file_path fl p backup_ext) as [bp|e]; [|done].
  destruct (negb _); [done |]. destruct dry; [done |].
  destruct (OS.copy2 fs bp p) as [fs1|e] eqn:Hc; [|done].
  destruct (copy2_is_dir _ _ _ _ r Hc) as [<- <-].
  destruct (OS.remove fs1 bp) as [fs2|e] eqn:Hr; simpl; [|done].
  by destruct (remove_is_dir _ _ _ r Hr) as [<- <-].
Qed.

Lemma restore_file_is_dir dry fs p r :
  OS.is_dir (restore1 dry fs p).2 r = OS.is_dir fs r.
Proof. apply restore_file_dirs. Qed.

Lemma restore_file_dir_writable dry fs p r :
  OS.dir_writable (restore1 dry fs p).2 r = OS.dir_writable fs r.
Proof. apply restore_file_dirs. Qed.

(** A dry run touches no file. *)
Lemma modify_file_dry fs p : (modify1 true fs p).2 = fs.
Proof.
  unfold modify_file. destruct (load1 fs p) as [config|e]; [|done].
  destruct (document_needs_change _ _ _) as [[|]|]; [|done..].
  by destruct (get_backup_file_path fl p backup_ext).
Qed.

Lemma restore_file_dry fs p : (restore1 true fs p).2 = fs.
Proof.
  unfold restore_file. destruct (get_backup_file_path fl p backup_ext); [|done].
  by destruct (negb _).
Qed.

(** The file and its backup are all that [modify_file] may touch. *)
Lemma modify_file_frame fs p r :
  OS.is_dir fs (bak p) = false → r ≠ p → r ≠ bak p →
  (modify1 false fs p).2 !! r = fs !! r.
Proof.
  intros Hd Hp Hb. rewrite modify_file_eq by done.
  destruct (load1 fs p) as [config|e]; [|done].
  destruct (document_needs_change _ _ _) as [[|]|]; [|done..].
  destruct (get_backup_file_path fl p backup_ext); [|done].
  destruct (fs !! p) as [[f|]|]; try done.
  destruct (_ && _); [|done].
  destruct (OS.writable f); simpl; by rewrite !lookup_insert_ne.
Qed.

(** What [modify_file] does depends on the file, its backup and the
    directory they are in. *)
Lemma modify_file_agree fs fs' p :
  OS.is_dir fs (bak p) = false →
  fs' !! p = fs !! p → fs' !! bak p = fs !! bak p →
  OS.dir_writable fs' (PathLib.parent p) = OS.dir_writable fs (PathLib.parent p) →
  (modify1 false fs' p).1 = (modify1 false fs p).1
  ∧ (modify1 false fs' p).2 !! p = (modify1 false fs p).2 !! p
  ∧ (modify1 false fs' p).2 !! bak p = (modify1 false fs p).2 !! bak p.
Proof.
  intros Hd Hp Hb Hpar.
  assert (Hd' : OS.is_dir fs' (bak p) = false) by (unfold OS.is_dir in *; by rewrite Hb).
  rewrite !modify_file_eq by done.
  rewrite (load_agree fs fs' p Hp), Hp, (can_write_agree fs fs' (bak p) Hb)
    by (by rewrite backup_of_parent).
  pose proof (backup_of_ne p) as Hne.
  destruct (load1 fs p) as [config|e]; [|by simpl].
  destruct (document_needs_change _ _ _) as [[|]|]; [|by simpl..].
  destruct (get_backup_file_path fl p backup_ext); [|by simpl].
  destruct (fs !! p) as [[f|]|] eqn:Hfp; try (simpl; repeat split; congruence).
  destruct (_ && _); [|simpl; repeat split; congruence].
  destruct (OS.writable f); simpl.
  - rewrite !lookup_insert_eq, !(lookup_insert_ne _ p (bak p)) by done.
    by rewrite !lookup_insert_eq.
  - rewrite !lookup_insert_eq, !(lookup_insert_ne _ (bak p) p) by done.
    by rewrite Hfp.
Qed.

(** The ways of [restore_file] outside a dry run, for a path that is not
    a directory. *)
Lemma restore_file_eq fs p :
  OS.is_dir fs p = false →
  restore1 false fs p
  = match get_backup_file_path fl p backup_ext with
    | Raise e => (Aborted e, fs)
    | Ok _ =>
        if negb (OS.exists_ fs (bak p)) then (NoBackup, fs)
        else
          match fs !! bak p with
          | Some (OS.NFile g) =>
              if OS.readable g && can_write fs p then
                if OS.dir_writable fs (PathLib.parent p)
                then (Restored, delete (bak p) (<[p := OS.NFile g]> fs))
                else (RemoveFailed OSError, <[p := OS.NFile g]> fs)
              else (CopyFailed OSError, fs)
          | _ => (CopyFailed OSError, fs)
          end
    end.
Proof.
  intros Hd. unfold restore_file.
  destruct (get_backup_file_path fl p backup_ext) as [bp|e] eqn:Hbp; [|done].
  apply get_backup_file_path_backup_of in Hbp as ->.
  destruct (negb _); [done |]. simpl.
  rewrite copy2_eq; [|done | apply backup_of_ne].
  destruct (fs !! bak p) as [[g|]|] eqn:Hb; try done.
  destruct (_ && _); [|done].
  unfold OS.remove. rewrite lookup_insert_ne by apply not_eq_sym, backup_of_ne.
  rewrite Hb, backup_of_parent, dir_writable_insert_file by done.
  by destruct (OS.dir_writable fs (PathLib.parent p)).
Qed.

Lemma restore_file_frame fs p r :
  OS.is_dir fs p = false → r ≠ p → r ≠ bak p →
  (restore1 false fs p).2 !! r = fs !! r.
Proof.
  intros Hd Hp Hb. rewrite restore_file_eq by done.
  destruct (get_backup_file_path fl p backup_ext); [|done].
  destruct (negb _); [done |].
  destruct (fs !! bak p) as [[g|]|]; try done.
  destruct (_ && _); [|done].
  destruct (OS.dir_writable fs (PathLib.parent p)); simpl.
  - by rewrite lookup_delete_ne, lookup_insert_ne.
  - by rewrite lookup_insert_ne.
Qed.

Lemma restore_file_agree fs fs' p :
  OS.is_dir fs p = false →
  fs' !! p = fs !! p → fs' !! bak p = fs !! bak p →
  OS.dir_writable fs' (PathLib.parent p) = OS.dir_writable fs (PathLib.parent p) →
  (restore1 false fs' p).1 = (restore1 false fs p).1
  ∧ (restore1 false fs' p).2 !! p = (restore1 false fs p).2 !! p
  ∧ (restore1 false fs' p).2 !! bak p = (restore1 false fs p).2 !! bak p.
Proof.
  intros Hd Hp Hb Hpar.
  assert (Hd' : OS.is_dir fs' p = false) by (unfold OS.is_dir in *; by rewrite Hp).
  rewrite !restore_file_eq by done.
  assert (He : OS.exists_ fs' (bak p) = OS.exists_ fs (bak p))
    by (unfold OS.exists_; by rewrite Hb).
  rewrite He, Hb, (can_write_agree fs fs' p Hp Hpar), Hpar.
  pose proof (backup_of_ne p) as Hne.
  destruct (get_backup_file_path fl p backup_ext); [|by simpl].
  destruct (negb _); [simpl; repeat split; congruence |].
  destruct (fs !! bak p) as [[g|]|] eqn:Hfb; try (simpl; repeat split; congruence).
  destruct (_ && _); [|simpl; repeat split; congruence].
  destruct (OS.dir_writable fs (PathLib.parent p)); simpl.
  - rewrite !lookup_delete_eq, !(lookup_delete_ne _ (bak p) p) by done.
    by rewrite !lookup_insert_eq.
  - rewrite !lookup_insert_eq, !(lookup_insert_ne _ p (bak p)) by done.
    by rewrite Hb.
Qed.

Lemma restore_file_not_aborted dry fs p :
  is_ok (get_backup_file_path fl p backup_ext) = true →
  ∀ e, (restore1 dry fs p).1 ≠ Aborted e.
Proof.
  unfold restore_file. destruct (get_backup_file_path fl p backup_ext); [|done].
  intros _ e. destruct (negb _); [done |]. destruct dry; [done |].
  destruct (OS.copy2 _ _ _); [|done]. by destruct (OS.remove _ _).
Qed.

(** *** Distinct files of one name do not share a path with each other's
    backups *)

Lemma backup_of_ne_same_name p q : PathLib.name q = PathLib.name p → bak p ≠ q.
Proof.
  intros Hn Heq. apply (f_equal PathLib.name) in Heq.
  rewrite backup_of_name, Hn in Heq.
  by apply append_ne in Heq; [|apply normalize_ext_length].
Qed.

Lemma backup_of_inj p q :
  p ≠ [] → q ≠ [] → PathLib.name q = PathLib.name p → bak p = bak q → p = q.
Proof.
  intros Hp Hq Hn Heq. apply parent_name_inj; [done.. | | done].
  by rewrite <- (backup_of_parent p), <- (backup_of_parent q), Heq.
Qed.

Lemma cfg_files_cons q l : cfg_files (q :: l) → (q ∉ l) ∧ cfg_files l.
Proof.
  intros [Hnd Hl]. apply NoDup_cons in Hnd as [Hq Hnd].
  split; [done |]. split; [done |]. intros q' Hq'. apply Hl. by right.
Qed.

(** [q] and its backup are apart from the files of [l] and their
    backups. *)
Lemma cfg_files_apart q l q' :
  cfg_files (q :: l) → q' ∈ l →
  q' ≠ q ∧ q' ≠ bak q ∧ bak q' ≠ q ∧ bak q' ≠ bak q.
Proof.
  intros [Hnd Hl] Hq'. apply NoDup_cons in Hnd as [Hq Hnd].
  destruct (Hl q) as [Hqne Hqn]; [by left |].
  destruct (Hl q') as [Hq'ne Hq'n]; [by right |].
  assert (q' ≠ q) by (by intros ->).
  split; [done |]. split; [|split].
  - apply not_eq_sym, backup_of_ne_same_name. congruence.
  - apply backup_of_ne_same_name. congruence.
  - intros Heq. apply backup_of_inj in Heq; [done.. |]. congruence.
Qed.

Lemma no_backup_dirs_cfg fs q :
  no_backup_dirs fs backup_ext → PathLib.name q = "cameras.cfg" →
  OS.is_dir fs (bak q) = false.
Proof. intros Hnb Hn. apply Hnb. by rewrite backup_of_name, Hn. Qed.

(** *** A run treats its files independently

    The files of a run are distinct and have one name, so neither a file
    nor its backup is touched when another file is processed: the run
    does with each file what processing that file alone would do. *)
Lemma modify_files_independent l : ∀ fs,
  cfg_files l → no_backup_dirs fs backup_ext →
  let rs := modify_files fl float str parse write false fs l camera_name camera_zoom
              backup_ext disable_strict in
  rs.1 = (λ q, (modify1 false fs q).1) <$> l
  ∧ (∀ r, OS.is_dir rs.2 r = OS.is_dir fs r)
  ∧ (∀ r, (∀ q, q ∈ l → r ≠ q ∧ r ≠ bak q) → rs.2 !! r = fs !! r)
  ∧ (∀ q, q ∈ l →
       rs.2 !! q = (modify1 false fs q).2 !! q
       ∧ rs.2 !! bak q = (modify1 false fs q).2 !! bak q).
Proof.
  induction l as [|q l IH]; intros fs Hl Hnb; simpl.
  { split; [done |]. split; [done |]. split; [done |]. by intros q ?%elem_of_nil. }
  destruct (cfg_files_cons _ _ Hl) as [Hq Hl'].
  destruct (proj2 Hl q) as [Hqne Hqn]; [by left |].
  set (fs1 := (modify1 false fs q).2).
  assert (Hdir1 : ∀ r, OS.is_dir fs1 r = OS.is_dir fs r)
    by (intros r; apply modify_file_is_dir).
  assert (Hnb1 : no_backup_dirs fs1 backup_ext)
    by (intros r Hr; rewrite Hdir1; by apply Hnb).
  destruct (IH fs1 Hl' Hnb1) as (Hos & Hdir & Hframe & Hlook).
  assert (Hbq : OS.is_dir fs (bak q) = false) by (by apply no_backup_dirs_cfg).
  assert (Hagree : ∀ q', q' ∈ l →
    (modify1 false fs1 q').1 = (modify1 false fs q').1
    ∧ (modify1 false fs1 q').2 !! q' = (modify1 false fs q').2 !! q'
    ∧ (modify1 false fs1 q').2 !! bak q' = (modify1 false fs q').2 !! bak q').
  { intros q' Hq'. destruct (cfg_files_apart q l q' Hl Hq') as (H1 & H2 & H3 & H4).
    destruct (proj2 Hl' q' Hq') as [_ Hq'n].
    apply modify_file_agree.
    - by apply no_backup_dirs_cfg.
    - by apply modify_file_frame.
    - by apply modify_file_frame.
    - apply modify_file_dir_writable. }
  split; [|split; [|split]].
  - rewrite Hos. f_equal. apply list_fmap_ext. intros i q' Hq'%list_elem_of_lookup_2.
    by destruct (Hagree q' Hq').
  - intros r. by rewrite Hdir, Hdir1.
  - intros r Hr. rewrite Hframe.
    + destruct (Hr q) as [? ?]; [by left |]. by apply modify_file_frame.
    + intros q' Hq'. apply Hr. by right.
  - intros q0 [->|Hq0]%elem_of_cons.
    + split; apply Hframe; intros q' Hq';
        destruct (cfg_files_apart q l q' Hl Hq') as (H1 & H2 & H3 & H4); split; congruence.
    + destruct (Hlook q0 Hq0) as [-> ->]. by destruct (Hagree q0 Hq0) as (_ & ? & ?).
Qed.

Lemma restore_files_independent l : ∀ fs,
  cfg_files l →
  (∀ q, q ∈ l → is_ok (get_backup_file_path fl q backup_ext) = true) →
  (∀ q, q ∈ l → OS.is_dir fs q = false) →
  let rs := restore_files fl false fs l backup_ext in
  rs.1 = (λ q, (restore1 false fs q).1) <$> l
  ∧ (∀ r, OS.is_dir rs.2 r = OS.is_dir fs r)
  ∧ (∀ r, (∀ q, q ∈ l → r ≠ q ∧ r ≠ bak q) → rs.2 !! r = fs !! r)
  ∧ (∀ q, q ∈ l →
       rs.2 !! q = (restore1 false fs q).2 !! q
       ∧ rs.2 !! bak q = (restore1 false fs q).2 !! bak q).
Proof.
  induction l as [|q l IH]; intros fs Hl Hok Hfile; simpl.
  { split; [done |]. split; [done |]. split; [done |]. by intros q ?%elem_of_nil. }
  destruct (cfg_files_cons _ _ Hl) as [Hq Hl'].
  set (fs1 := (restore1 false fs q).2).
  assert (Hdir1 : ∀ r, OS.is_dir fs1 r = OS.is_dir fs r)
    by (intros r; apply restore_file_is_dir).
  assert (Hstep :
    (match (restore1 false fs q).1 with
     | Aborted _ => ([(restore1 false fs q).1], fs1)
     | _ => ((restore1 false fs q).1 :: (restore_files fl false fs1 l backup_ext).1,
             (restore_files fl false fs1 l backup_ext).2)
     end) = ((restore1 false fs q).1 :: (restore_files fl false fs1 l backup_ext).1,
             (restore_files fl false fs1 l backup_ext).2)).
  { pose proof (restore_file_not_aborted false fs q (Hok q ltac:(by left))) as Hna.
    destruct (restore1 false fs q).1; try done. by destruct (Hna e). }
  fold fs1. rewrite Hstep. simpl. clear Hstep.
  destruct (IH fs1 Hl') as (Hos & Hdir & Hframe & Hlook).
  { intros q' Hq'. apply Hok. by right. }
  { intros q' Hq'. rewrite Hdir1. apply Hfile. by right. }
  assert (Hfq : OS.is_dir fs q = false) by (apply Hfile; by left).
  assert (Hagree : ∀ q', q' ∈ l →
    (restore1 false fs1 q').1 = (restore1 false fs q').1
    ∧ (restore1 false fs1 q').2 !! q' = (restore1 false fs q').2 !! q'
    ∧ (restore1 false fs1 q').2 !! bak q' = (restore1 false fs q').2 !! bak q').
  { intros q' Hq'. destruct (cfg_files_apart q l q' Hl Hq') as (H1 & H2 & H3 & H4).
    apply restore_file_agree.
    - apply Hfile. by right.
    - by apply restore_file_frame.
    - by apply restore_file_frame.
    - apply restore_file_dir_writable. }
  split; [|split; [|split]].
  - rewrite Hos. f_equal. apply list_fmap_ext. intros i q' Hq'%list_elem_of_lookup_2.
    by destruct (Hagree q' Hq').
  - intros r. by rewrite Hdir, Hdir1.
  - intros r Hr. rewrite Hframe.
    + destruct (Hr q) as [? ?]; [by left |]. by apply restore_file_frame.
    + intros q' Hq'. apply Hr. by right.
  - intros q0 [->|Hq0]%elem_of_cons.
    + split; apply Hframe; intros q' Hq';
        destruct (cfg_files_apart q l q' Hl Hq') as (H1 & H2 & H3 & H4); split; congruence.
    + destruct (Hlook q0 Hq0) as [-> ->]. by destruct (Hagree q0 Hq0) as (_ & ? & ?).
Qed.


Lemma restore_files_dir_writable dry l : ∀ fs r,
  OS.dir_writable (restore_files fl dry fs l backup_ext).2 r = OS.dir_writable fs r.
Proof.
  induction l as [|q l IH]; intros fs r; simpl; [done |].
  pose proof (restore_file_dir_writable dry fs q r) as Hq.
  destruct (restore1 dry fs q) as [o fs1]. simpl in *.
  destruct o; simpl; rewrite ?IH; done.
Qed.

(** *** Dry runs *)

Lemma modify_file_dry_outcome fs p :
  match (modify1 true fs p).1 with
  | Unchanged | Errored _ | WouldModify => True
  | _ => False
  end.
Proof.
  unfold modify_file. destruct (load1 fs p) as [config|e]; [|done].
  destruct (document_needs_change _ _ _) as [[|]|]; [|done..].
  by destruct (get_backup_file_path fl p backup_ext).
Qed.

Lemma modify_files_dry l : ∀ fs,
  let rs := modify_files fl float str parse write true fs l camera_name camera_zoom
              backup_ext disable_strict in
  rs.2 = fs
  ∧ length rs.1 = length l
  ∧ Forall (λ o, match o with Unchanged | Errored _ | WouldModify => True | _ => False end)
      rs.1.
Proof.
  induction l as [|q l IH]; intros fs; simpl; [done |].
  rewrite modify_file_dry. destruct (IH fs) as (-> & -> & Hall).
  split; [done |]. split; [done |]. constructor; [apply modify_file_dry_outcome | done].
Qed.

Lemma restore_files_dry l : ∀ fs,
  (restore_files fl true fs l backup_ext).2 = fs.
Proof.
  induction l as [|q l IH]; intros fs; simpl; [done |].
  pose proof (restore_file_dry fs q) as Hq.
  destruct (restore1 true fs q) as [o fs1]. simpl in *. subst fs1.
  destruct o; simpl; try apply IH. done.
Qed.

Lemma restore_file_dry_outcome fs p :
  is_ok (get_backup_file_path fl p backup_ext) = true →
  (restore1 true fs p).1 = NoBackup ∨ (restore1 true fs p).1 = WouldRestore.
Proof.
  unfold restore_file. destruct (get_backup_file_path fl p backup_ext); [|done].
  intros _. destruct (negb _); auto.
Qed.

Lemma restore_files_dry_outcomes l : ∀ fs,
  (∀ q, q ∈ l → is_ok (get_backup_file_path fl q backup_ext) = true) →
  let rs := restore_files fl true fs l backup_ext in
  length rs.1 = length l ∧ Forall (λ o, o = NoBackup ∨ o = WouldRestore) rs.1.
Proof.
  induction l as [|q l IH]; intros fs Hok; simpl; [done |].
  pose proof (restore_file_dry fs q) as Hq.
  destruct (restore_file_dry_outcome fs q) as [Ho|Ho]; [apply Hok; by left | |];
    rewrite Ho; simpl; rewrite Hq;
    (destruct (IH fs) as [-> Hall]; [intros q' Hq'; apply Hok; by right |]);
    (split; [done |]); constructor; auto.
Qed.

End FileFacts.

(** ** Discovery *)

Section Discovery.
Implicit Types (fs : gmap Path OS.node) (top d q r : Path).

Lemma walkable_is_dir fs top d : OS.walkable fs top d = true → OS.is_dir fs d = true.
Proof.
  unfold OS.walkable. intros [Hpre Hall]%andb_true_iff.
  apply bool_decide_eq_true in Hpre. rewrite forallb_forall in Hall.
  rewrite <- (firstn_all d). apply Hall, in_seq.
  apply prefix_length in Hpre. lia.
Qed.

Lemma walkable_ext fs fs' top d :
  (∀ r, OS.is_dir fs' r = OS.is_dir fs r) →
  OS.walkable fs' top d = OS.walkable fs top d.
Proof.
  intros H. unfold OS.walkable. f_equal. apply forallb_ext. intros k. apply H.
Qed.

Lemma elem_of_walk_dirs fs top d :
  d ∈ OS.walk_dirs fs top ↔ OS.walkable fs top d = true.
Proof.
  unfold OS.walk_dirs. rewrite elem_of_filter, elem_of_dom. split; [by intros [? _] |].
  intros Hw. split; [done |]. apply walkable_is_dir in Hw.
  unfold OS.is_dir in Hw. by destruct (fs !! d).
Qed.

Lemma elem_of_entries fs d dirs q :
  q ∈ OS.entries fs d dirs
  ↔ q ≠ [] ∧ PathLib.parent q = d ∧ OS.is_dir fs q = dirs ∧ is_Some (fs !! q).
Proof. unfold OS.entries. rewrite elem_of_filter, elem_of_dom. tauto. Qed.

Lemma NoDup_names fs d dirs : NoDup (OS.names (OS.entries fs d dirs)).
Proof.
  unfold OS.names. apply NoDup_fmap_2_strong; [|apply NoDup_elements].
  intros q1 q2 H1%elem_of_elements H2%elem_of_elements Hn.
  apply elem_of_entries in H1 as (? & ? & _). apply elem_of_entries in H2 as (? & ? & _).
  apply parent_name_inj; congruence.
Qed.

(** The discovered paths: the files named [cameras.cfg] in the community
    folder or in a directory reached from it through directories. *)
Lemma elem_of_discover fs top q :
  q ∈ discover fs top
  ↔ OS.is_dir fs top = true
    ∧ ∃ d, q = PathLib.joinpath d "cameras.cfg" ∧ OS.walkable fs top d = true
           ∧ is_Some (fs !! q) ∧ OS.is_dir fs q = false.
Proof.
  unfold discover. destruct (OS.is_dir fs top); [|split; [by intros ?%elem_of_nil | by intros [? _]]].
  rewrite list_elem_of_bind. unfold OS.walk. split.
  - intros ([[d dirs] files] & Hq & Hx). split; [done |].
    apply list_elem_of_fmap in Hx as (d' & [= <- _ ->] & Hd%elem_of_elements).
    apply elem_of_walk_dirs in Hd.
    apply list_elem_of_fmap in Hq as (c & -> & Hc).
    apply list_elem_of_filter in Hc as [-> Hc].
    unfold OS.names in Hc. apply list_elem_of_fmap in Hc as (r & Hn & Hr%elem_of_elements).
    apply elem_of_entries in Hr as (Hrne & Hpar & Hdir & Hsome).
    exists d. rewrite Hn, <- Hpar, joinpath_parent_name by done. by rewrite Hpar.
  - intros [_ (d & -> & Hw & Hsome & Hdir)].
    exists (d, OS.names (OS.entries fs d true), OS.names (OS.entries fs d false)). split.
    + apply list_elem_of_fmap. exists "cameras.cfg". split; [done |].
      apply list_elem_of_filter. split; [done |].
      unfold OS.names. apply list_elem_of_fmap. exists (PathLib.joinpath d "cameras.cfg").
      rewrite name_joinpath. split; [done |]. apply elem_of_elements, elem_of_entries.
      rewrite parent_joinpath. split; [by destruct d | done].
    + apply list_elem_of_fmap. exists d. split; [done |].
      by apply elem_of_elements, elem_of_walk_dirs.
Qed.

Lemma NoDup_discover fs top : NoDup (discover fs top).
Proof.
  unfold discover. destruct (OS.is_dir fs top); [|constructor].
  unfold OS.walk. apply NoDup_bind.
  - intros [[d1 ?] ?] [[d2 ?] ?] q H1 H2 Hq1 Hq2.
    apply list_elem_of_fmap in H1 as (d1' & [= <- -> ->] & _).
    apply list_elem_of_fmap in H2 as (d2' & [= <- -> ->] & _).
    apply list_elem_of_fmap in Hq1 as (c1 & -> & _).
    apply list_elem_of_fmap in Hq2 as (c2 & Heq & _).
    by apply joinpath_inj in Heq as [-> _].
  - intros [[d ?] ?] Hx.
    apply list_elem_of_fmap in Hx as (d' & [= <- -> ->] & _).
    apply NoDup_fmap_2_strong.
    + intros c1 c2 _ _ Heq. by apply joinpath_inj in Heq as [_ ?].
    + apply NoDup_filter, NoDup_names.
  - apply NoDup_fmap_2_strong; [|apply NoDup_elements].
    by intros d1 d2 _ _ [= ->].
Qed.

Lemma cfg_files_discover fs top : cfg_files (discover fs top).
Proof.
  split; [apply NoDup_discover |].
  intros q [_ (d & -> & _)]%elem_of_discover.
  rewrite name_joinpath. split; [by destruct d | done].
Qed.

Lemma discover_file fs top q :
  q ∈ discover fs top →
  is_Some (fs !! q) ∧ OS.is_dir fs q = false
  ∧ OS.is_dir fs (PathLib.parent q) = true.
Proof.
  intros [_ (d & -> & Hw & ? & ?)]%elem_of_discover.
  rewrite parent_joinpath. split; [done |]. split; [done |].
  by eapply walkable_is_dir.
Qed.

(** Discovery sees the directories and the files named [cameras.cfg]. *)
Lemma elem_of_discover_ext fs fs' top q :
  (∀ r, OS.is_dir fs' r = OS.is_dir fs r) →
  (is_Some (fs !! q) → is_Some (fs' !! q)) →
  q ∈ discover fs top → q ∈ discover fs' top.
Proof.
  intros Hdir Hsome. rewrite !elem_of_discover.
  intros [Htop (d & -> & Hw & Hs & Hd)]. rewrite Hdir. split; [done |].
  exists d. rewrite (walkable_ext fs fs') by done. rewrite Hdir. auto.
Qed.

End Discovery.

(** ** The modify flow, file by file *)

Section ModifyFlow.
Context (fl : PathLib.flavour) (float : Type) (str : float → float_str).
Context (parse : bool → string → result ConfigParser) (write : ConfigParser → string).

Lemma config_read_eq strict file_path w :
  config_read parse strict file_path w = (load parse strict (fs w) file_path, w).
Proof.
  unfold config_read, load, bind, get_fs, lift, ret.
  by destruct (OS.read_text (fs w) file_path).
Qed.

Lemma section_needs_change_true camera_name zoom config section :
  section_needs_change camera_name zoom config section = Ok true
  ↔ section_matches camera_name config section = Ok true
    ∧ ∃ original_zoom,
        option_value config section "InitialZoom" = Ok (Some original_zoom)
        ∧ original_zoom ≠ zoom.
Proof.
  unfold section_needs_change.
  destruct (section_matches camera_name config section) as [[|]|]; simpl;
    [|split; [done | by intros [? _]]..].
  destruct (option_value config section "InitialZoom") as [[original_zoom|]|]; simpl;
    [|split; [done | by intros [_ (? & ? & _)]]..].
  case_bool_decide as Heq; simpl.
  - split; [done |]. intros [_ (z & [= <-] & Hz)]. done.
  - split; [|done]. intros _. split; [done |]. by exists original_zoom.
Qed.

Lemma document_needs_change_section camera_name zoom config :
  document_needs_change camera_name zoom config = Ok true →
  ∃ section original_zoom,
    section ∈ configparser.sections config
    ∧ section_matches camera_name config section = Ok true
    ∧ option_value config section "InitialZoom" = Ok (Some original_zoom)
    ∧ original_zoom ≠ zoom.
Proof.
  unfold document_needs_change. intros [_ Hex]%any_section_Ok.
  symmetry in Hex. apply existsb_exists in Hex as (section & Hin & Hn).
  assert (Hneed : section_needs_change camera_name zoom config section = Ok true).
  { destruct (section_needs_change camera_name zoom config section) as [[|]|]; done. }
  apply section_needs_change_true in Hneed as (Hm & original_zoom & Hz & Hne).
  exists section, original_zoom. by rewrite list_elem_of_In.
Qed.

(** C4. A file none of whose sections needs a new value -- whether they
    match the camera or not -- is left as it is, is counted unchanged and
    gets no backup;  a file in which a look-up raises is left as it is and
    counted errored;  and whenever processing a file changes anything on
    disk, the run is not a dry run and the file has a matching section
    whose [InitialZoom] is not the target. *)
Theorem backup_only_when_modified (file_path : Path) (camera_name : string)
    (camera_zoom : float) (backup_ext : string) (disable_strict : bool) (w : world) :
  let w' := (modify_single_camera_cfg fl float str parse write file_path camera_name
               camera_zoom backup_ext disable_strict w).2 in
  (∀ config,
     config_read parse (negb disable_strict) file_path w = (Ok config, w) →
     document_needs_change camera_name (str camera_zoom) config = Ok false →
     fs w' = fs w
     ∧ FILE_STATS w'
       = Stats (total (FILE_STATS w)) (modified (FILE_STATS w))
           (S (unchanged (FILE_STATS w))) (errors (FILE_STATS w))
     ∧ ∀ backup_file_path,
         get_backup_file_path fl file_path backup_ext = Ok backup_file_path →
         fs w' !! backup_file_path = fs w !! backup_file_path)
  ∧ (∀ config e,
       config_read parse (negb disable_strict) file_path w = (Ok config, w) →
       document_needs_change camera_name (str camera_zoom) config = Raise e →
       fs w' = fs w
       ∧ FILE_STATS w'
         = Stats (total (FILE_STATS w)) (modified (FILE_STATS w))
             (unchanged (FILE_STATS w)) (S (errors (FILE_STATS w))))
  ∧ (fs w' ≠ fs w →
     DRY_RUN w = false
     ∧ ∃ config section original_zoom,
         config_read parse (negb disable_strict) file_path w = (Ok config, w)
         ∧ section ∈ configparser.sections config
         ∧ section_matches camera_name config section = Ok true
         ∧ option_value config section "InitialZoom" = Ok (Some original_zoom)
         ∧ original_zoom ≠ str camera_zoom).
Proof.
  destruct (modify_single_camera_cfg_eq fl float str parse write file_path camera_name
              camera_zoom backup_ext disable_strict w) as (out & Heq & _).
  simpl. rewrite Heq. simpl. clear Heq. unfold modify_file.
  setoid_rewrite config_read_eq. split; [|split].
  - intros config [= Hload] Hneed. rewrite Hload, Hneed. simpl. done.
  - intros config e [= Hload] Hneed. rewrite Hload, Hneed. simpl. done.
  - destruct (load parse (negb disable_strict) (fs w) file_path) as [config|e]; [|done].
    destruct (document_needs_change _ _ config) as [[|]|] eqn:Hneed; [|done..]. simpl.
    destruct (get_backup_file_path fl file_path backup_ext); [|done].
    destruct (DRY_RUN w); [done |]. intros _. split; [done |].
    destruct (document_needs_change_section _ _ _ Hneed) as (section & z & ?).
    by exists config, section, z.
Qed.


End ModifyFlow.

Lemma backup_only_when_modified_witness :
  let w := Demo.start (Demo.folder (OS.File Demo.zoomed_text true true)) false in
  let w' := (modify_single_camera_cfg PathLib.Windows float_str id MiniIni.parse
               MiniIni.write Demo.cameras "Pilot" Demo.zoom "fix_aircraft_fov" false w).2 in
  fs w' = fs w ∧ unchanged (FILE_STATS w') = 1 ∧ fs w' !! Demo.cameras_backup = None.
Proof.
  intros w w'.
  assert (Hread : config_read MiniIni.parse (negb false) Demo.cameras w
                  = (Ok (Parser [] [("CAMERA_PILOT", [("Title", "Pilot"); ("InitialZoom", "0.35")])]),
                     w))
    by (vm_compute; reflexivity).
  assert (Hbp : get_backup_file_path PathLib.Windows Demo.cameras "fix_aircraft_fov"
                = Ok Demo.cameras_backup) by (vm_compute; reflexivity).
  assert (Hnone : fs w !! Demo.cameras_backup = None) by (vm_compute; reflexivity).
  destruct (backup_only_when_modified PathLib.Windows float_str id MiniIni.parse MiniIni.write
              Demo.cameras "Pilot" Demo.zoom "fix_aircraft_fov" false w) as [H _].
  assert (Hneed : document_needs_change "Pilot" (id Demo.zoom)
                    (Parser [] [("CAMERA_PILOT", [("Title", "Pilot"); ("InitialZoom", "0.35")])])
                  = Ok false)
    by (vm_compute; reflexivity).
  destruct (H _ Hread Hneed) as (Hfs & Hst & Hbak).
  split; [exact Hfs |]. split; [subst w'; by rewrite Hst |].
  exact (eq_trans (Hbak Demo.cameras_backup Hbp) Hnone).
Defined.


(** ** Failures *)

(** C3.  What the handler of [modify_single_camera_cfg] sees is counted as
    an error and the run goes on: so it is for a file that does not parse.
    A file that cannot be opened never reaches the handler: the reader
    ignores it, the document stays empty, and the file is counted unchanged
    with no error recorded. *)
Theorem unreadable_file_counted_unchanged (fl : PathLib.flavour) (float : Type)
    (str : float → float_str) (parse : bool → string → result ConfigParser)
    (write : ConfigParser → string) (file_path : Path) (camera_name : string)
    (camera_zoom : float) (backup_ext : string) (disable_strict : bool) (w : world) :
  (∀ e, OS.read_text (fs w) file_path = Raise e →
     ∃ out,
       modify_single_camera_cfg fl float str parse write file_path camera_name
         camera_zoom backup_ext disable_strict w
       = (Ok tt,
          World (fs w) (DRY_RUN w)
            (Stats (total (FILE_STATS w)) (modified (FILE_STATS w))
               (S (unchanged (FILE_STATS w))) (errors (FILE_STATS w)))
            (stdout w ++ out))
       ∧ InfoNoChanges file_path ∈ out)
  ∧ (∀ text e, OS.read_text (fs w) file_path = Ok text →
       parse (negb disable_strict) text = Raise e →
       ∃ out,
         modify_single_camera_cfg fl float str parse write file_path camera_name
           camera_zoom backup_ext disable_strict w
         = (Ok tt,
            World (fs w) (DRY_RUN w)
              (Stats (total (FILE_STATS w)) (modified (FILE_STATS w))
                 (unchanged (FILE_STATS w)) (S (errors (FILE_STATS w))))
              (stdout w ++ out)))
  ∧ (let unreadable := OS.File Demo.pilot_text false true in
     let duplicate := OS.File Demo.duplicate_text true true in
     FILE_STATS (Demo.modify (Demo.start (Demo.folder unreadable) false)).2 = Stats 1 0 1 0
     ∧ FILE_STATS (Demo.modify (Demo.start (Demo.folder duplicate) false)).2 = Stats 1 0 0 1).
Proof.
  destruct (modify_single_camera_cfg_eq fl float str parse write file_path camera_name
              camera_zoom backup_ext disable_strict w) as (out & Heq & Hv).
  unfold modify_file, load in Heq, Hv. split; [|split; [|by vm_compute]].
  - intros e He. rewrite He in Heq, Hv. simpl in *. exists out. split; [done |].
    assert (Hin : InfoNoChanges file_path ∈ verdicts out) by (rewrite Hv; by left).
    unfold verdicts in Hin. by apply list_elem_of_filter in Hin as [_ ?].
  - intros text e Ht He. rewrite Ht, He in Heq. by exists out.
Qed.

Lemma unreadable_file_counted_unchanged_witness :
  let w := Demo.start (Demo.folder (OS.File Demo.pilot_text false true)) false in
  ∃ out,
    modify_single_camera_cfg PathLib.Windows float_str id MiniIni.parse MiniIni.write
      Demo.cameras "Pilot" Demo.zoom "fix_aircraft_fov" false w
    = (Ok tt,
       World (fs w) (DRY_RUN w)
         (Stats (total (FILE_STATS w)) (modified (FILE_STATS w))
            (S (unchanged (FILE_STATS w))) (errors (FILE_STATS w)))
         (stdout w ++ out))
    ∧ InfoNoChanges Demo.cameras ∈ out.
Proof.
  intros w.
  assert (Hread : OS.read_text (fs w) Demo.cameras = Raise OSError)
    by (vm_compute; reflexivity).
  exact (proj1 (unreadable_file_counted_unchanged PathLib.Windows float_str id MiniIni.parse
                  MiniIni.write Demo.cameras "Pilot" Demo.zoom "fix_aircraft_fov" false w)
           OSError Hread).
Defined.

(** C2.  A file without backup is counted unchanged.  A file whose backup
    exists is counted as restored whatever comes of the restore: when the
    copy from the backup raises, the error is caught and counted, the run
    goes on, and the file is counted restored all the same. *)
Theorem failed_restore_counted_restored (fl : PathLib.flavour) (file_path : Path)
    (backup_ext : string) (w : world) (backup_file_path : Path) :
  get_backup_file_path fl file_path backup_ext = Ok backup_file_path →
  (OS.exists_ (fs w) backup_file_path = false →
     ∃ out,
       restore_single_camera_cfg fl file_path backup_ext w
       = (Ok tt,
          World (fs w) (DRY_RUN w)
            (Stats (total (FILE_STATS w)) (modified (FILE_STATS w))
               (S (unchanged (FILE_STATS w))) (errors (FILE_STATS w)))
            (stdout w ++ out)))
  ∧ (∀ e, DRY_RUN w = false →
       OS.exists_ (fs w) backup_file_path = true →
       OS.copy2 (fs w) backup_file_path file_path = Raise e →
       ∃ out,
         restore_single_camera_cfg fl file_path backup_ext w
         = (Ok tt,
            World (fs w) false
              (Stats (total (FILE_STATS w)) (S (modified (FILE_STATS w)))
                 (unchanged (FILE_STATS w)) (S (errors (FILE_STATS w))))
              (stdout w ++ out)))
  ∧ (let read_only := OS.File "[CAMERA_PILOT]" true false in
     let w0 := Demo.start
                 (Demo.folder_with_backup read_only (OS.File Demo.pilot_text true true))
                 false in
     FILE_STATS (Demo.restore w0).2 = Stats 1 1 0 1
     ∧ fs (Demo.restore w0).2 !! Demo.cameras = Some (OS.NFile read_only)).
Proof.
  intros Hbp.
  destruct (restore_single_camera_cfg_eq fl file_path backup_ext w) as (out & Heq & _).
  unfold restore_file in Heq. rewrite Hbp in Heq. split; [|split; [|by vm_compute]].
  - intros Hex. rewrite Hex in Heq. by exists out.
  - intros e Hdry Hex Hcopy. rewrite Hex, Hdry, Hcopy in Heq. by exists out.
Qed.

Lemma failed_restore_counted_restored_witness :
  let read_only := OS.File "[CAMERA_PILOT]" true false in
  let w := Demo.start
             (Demo.folder_with_backup read_only (OS.File Demo.pilot_text true true)) false in
  ∃ out,
    restore_single_camera_cfg PathLib.Windows Demo.cameras "fix_aircraft_fov" w
    = (Ok tt,
       World (fs w) false
         (Stats (total (FILE_STATS w)) (S (modified (FILE_STATS w)))
            (unchanged (FILE_STATS w)) (S (errors (FILE_STATS w))))
         (stdout w ++ out)).
Proof.
  intros read_only w.
  assert (Hbp : get_backup_file_path PathLib.Windows Demo.cameras "fix_aircraft_fov"
                = Ok Demo.cameras_backup) by (vm_compute; reflexivity).
  assert (Hex : OS.exists_ (fs w) Demo.cameras_backup = true) by (vm_compute; reflexivity).
  assert (Hcopy : OS.copy2 (fs w) Demo.cameras_backup Demo.cameras = Raise OSError)
    by (vm_compute; reflexivity).
  exact (proj1 (proj2 (failed_restore_counted_restored PathLib.Windows Demo.cameras
                         "fix_aircraft_fov" w Demo.cameras_backup Hbp))
           OSError eq_refl Hex Hcopy).
Defined.

(** ** Dry runs *)

Lemma get_backup_file_path_cfg fl q ext :
  PathLib.name q = "cameras.cfg" → PathLib.has_sep fl ext = false →
  get_backup_file_path fl q ext = Ok (backup_of q ext).
Proof.
  intros Hn Hsep. rewrite get_backup_file_path_eq. unfold backup_of.
  assert (Hs : PathLib.suffix q = ".cfg") by (unfold PathLib.suffix; by rewrite Hn).
  apply with_suffix_append.
  - by rewrite Hn.
  - rewrite Hn. by destruct fl.
  - by rewrite has_sep_normalize_ext.
  - apply normalize_ext_dot.
  - by rewrite Hs.
Qed.

Lemma get_backup_file_path_sep fl backup_ext p :
  PathLib.has_sep fl backup_ext = true →
  get_backup_file_path fl p backup_ext = Raise ValueError.
Proof.
  intros Hsep. rewrite get_backup_file_path_eq. unfold PathLib.with_suffix.
  by rewrite has_sep_append, has_sep_normalize_ext, Hsep, orb_true_r.
Qed.

(** With a path separator in the backup extension the restore flow is
    stopped by the first discovered file. *)
Lemma find_and_restore_cameras_sep fl backup_ext community_folder w :
  PathLib.has_sep fl backup_ext = true →
  discover (fs w) community_folder ≠ [] →
  find_and_restore_cameras fl community_folder backup_ext w
  = (Raise ValueError,
     World (fs w) (DRY_RUN w)
       (Stats (length (discover (fs w) community_folder)) 0 0 0)
       (stdout w ++ [FoundToRestore (length (discover (fs w) community_folder)); Blank])).
Proof.
  intros Hsep Hne. destruct w as [fs0 dry st out0]. simpl in *.
  assert (Hd : OS.is_dir fs0 community_folder = true).
  { unfold discover in Hne. by destruct (OS.is_dir fs0 community_folder). }
  unfold find_and_restore_cameras, find_camera_cfg_files.
  unfold bind, put_FILE_STATS, get_FILE_STATS, get_fs, print, ret. simpl.
  rewrite Hd. simpl.
  assert (Heq : (OS.walk fs0 community_folder
                 ≫= λ '(root, _, files),
                      PathLib.joinpath root <$> filter (λ file, file = "cameras.cfg") files)
                = discover fs0 community_folder)
    by (unfold discover; by rewrite Hd).
  rewrite Heq. clear Heq.
  destruct (discover fs0 community_folder) as [|q l]; [done |].
  rewrite for_each_cons.
  unfold restore_single_camera_cfg, bind, lift.
  rewrite get_backup_file_path_sep by done. simpl.
  by rewrite <- app_assoc.
Qed.










(** ** Modify, then restore or modify again *)




Section RoundTrip.
Context (fl : PathLib.flavour) (float : Type) (str : float → float_str).
Context (parse : bool → string → result ConfigParser) (write : ConfigParser → string).
Context (camera_name : string) (camera_zoom : float) (backup_ext : string)
        (disable_strict : bool).
Implicit Types (fs : gmap Path OS.node) (p q r : Path).

Local Abbreviation zoom := (text (str camera_zoom)).
Local Abbreviation modify1 dry fs p :=
  (modify_file fl float str parse write dry fs p camera_name camera_zoom
     backup_ext disable_strict).
Local Abbreviation restore1 dry fs p := (restore_file fl dry fs p backup_ext).
Local Abbreviation load1 := (load parse (negb disable_strict)).
Local Abbreviation bak p := (backup_of p backup_ext).




Lemma modify_files_fixed dry l : ∀ fs,
  (∀ q, q ∈ l → (modify1 dry fs q).2 = fs) →
  modify_files fl float str parse write dry fs l camera_name camera_zoom backup_ext
    disable_strict
  = ((λ q, (modify1 dry fs q).1) <$> l, fs).
Proof.
  induction l as [|q l IH]; intros fs Hl; simpl; [done |].
  rewrite (Hl q) by (by left). rewrite IH by (intros q' Hq'; apply Hl; by right). done.
Qed.



(** *** Modify again *)






End RoundTrip.

(** ** The theorems on the concrete community folder *)

Lemma Demo_no_backup_dirs (f : OS.file) : no_backup_dirs (Demo.folder f) "fix_aircraft_fov".
Proof.
  intros r Hr. unfold OS.is_dir, Demo.folder. rewrite !lookup_insert.
  repeat case_decide; subst; done.
Qed.





(** * Further properties of the script *)

(** ** Discovery *)


(** ** Runs *)

Lemma count_modify_total os : ∀ s,
  total (foldl (λ s o, count_modify o s) s os) = total s.
Proof.
  induction os as [|o os IH]; intros s; simpl; [done |]. rewrite IH. by destruct o.
Qed.

Lemma count_restore_total os : ∀ s,
  total (foldl (λ s o, count_restore o s) s os) = total s.
Proof.
  induction os as [|o os IH]; intros s; simpl; [done |]. rewrite IH. by destruct o.
Qed.

Section RunFacts.
Context (fl : PathLib.flavour) (float : Type) (str : float → float_str).
Context (parse : bool → string → result ConfigParser) (write : ConfigParser → string).
Context (camera_name : string) (camera_zoom : float) (backup_ext : string)
        (disable_strict : bool).

Local Abbreviation modify_run community_folder :=
  (find_and_modify_cameras fl float str parse write community_folder camera_name
     camera_zoom backup_ext disable_strict).
Local Abbreviation restore_run community_folder :=
  (find_and_restore_cameras fl community_folder backup_ext).


(** X3. The counters are reset when a run starts: what a run returns, the
    files it leaves and the counts it ends with do not depend on the
    counts left by an earlier run, and the total is the number of files
    discovered. *)
Theorem run_resets_counters (community_folder : Path) (w : world) (s : stats) :
  let found := length (discover (fs w) community_folder) in
  (let r := modify_run community_folder w in
   let r' := modify_run community_folder (set_stats w s) in
   r'.1 = r.1 ∧ fs r'.2 = fs r.2 ∧ FILE_STATS r'.2 = FILE_STATS r.2
   ∧ total (FILE_STATS r.2) = found)
  ∧ (let r := restore_run community_folder w in
     let r' := restore_run community_folder (set_stats w s) in
     r'.1 = r.1 ∧ fs r'.2 = fs r.2 ∧ FILE_STATS r'.2 = FILE_STATS r.2
     ∧ total (FILE_STATS r.2) = found).
Proof.
  intros found.
  destruct (find_and_modify_cameras_eq fl float str parse write community_folder
              camera_name camera_zoom backup_ext disable_strict w) as (out & -> & _).
  destruct (find_and_modify_cameras_eq fl float str parse write community_folder
              camera_name camera_zoom backup_ext disable_strict (set_stats w s))
    as (out' & -> & _).
  destruct (find_and_restore_cameras_eq fl community_folder backup_ext w)
    as (outr & -> & _).
  destruct (find_and_restore_cameras_eq fl community_folder backup_ext (set_stats w s))
    as (outr' & -> & _).
  simpl. by rewrite count_modify_total, count_restore_total.
Qed.







End RunFacts.

(** ** A backup extension with a path separator *)

Section BadExtension.
Context (fl : PathLib.flavour) (float : Type) (str : float → float_str).
Context (parse : bool → string → result ConfigParser) (write : ConfigParser → string).
Context (camera_name : string) (camera_zoom : float) (backup_ext : string)
        (disable_strict : bool).

(** X6. With a path separator in the backup extension the restore flow
    is stopped by the first discovered file: the [ValueError] of the
    backup path is raised outside any handler, no file is touched or
    counted, and no summary is printed. *)
Theorem restore_run_aborts (community_folder : Path) (w : world) :
  PathLib.has_sep fl backup_ext = true →
  discover (fs w) community_folder ≠ [] →
  find_and_restore_cameras fl community_folder backup_ext w
  = (Raise ValueError,
     World (fs w) (DRY_RUN w)
       (Stats (length (discover (fs w) community_folder)) 0 0 0)
       (stdout w ++ [FoundToRestore (length (discover (fs w) community_folder)); Blank])).
Proof. apply find_and_restore_cameras_sep. Qed.

Local Abbreviation modify1 dry fs p :=
  (modify_file fl float str parse write dry fs p camera_name camera_zoom
     backup_ext disable_strict).




End BadExtension.

(** ** One file *)

Section FileSafety.
Context (fl : PathLib.flavour) (float : Type) (str : float → float_str).
Context (parse : bool → string → result ConfigParser) (write : ConfigParser → string).
Context (camera_name : string) (camera_zoom : float) (backup_ext : string)
        (disable_strict : bool).
Implicit Types (p q : Path).

Local Abbreviation zoom := (text (str camera_zoom)).
Local Abbreviation bak p := (backup_of p backup_ext).
Local Abbreviation modify_single p :=
  (modify_single_camera_cfg fl float str parse write p camera_name camera_zoom
     backup_ext disable_strict).
Local Abbreviation restore_single p := (restore_single_camera_cfg fl p backup_ext).

(** X8. [backup_camera_cfg] in a dry run only prints; otherwise it either
    copies the file, content and permissions, to the backup path (into
    it, when that is a directory), replacing what was there and changing
    no other path, the file itself included, or it raises and leaves
    everything as it was with nothing printed.  It never touches the
    counters. *)
Theorem backup_camera_cfg_copies p (w : world) (backup_file_path : Path) :
  get_backup_file_path fl p backup_ext = Ok backup_file_path →
  let target :=
    if OS.is_dir (fs w) backup_file_path
    then PathLib.joinpath backup_file_path (PathLib.name p) else backup_file_path in
  let r := backup_camera_cfg fl p backup_ext w in
  if DRY_RUN w
  then r = (Ok tt, set_stdout w (stdout w ++ [DryWouldBackup p backup_file_path]))
  else match r.1 with
       | Ok _ =>
           ∃ f, fs w !! p = Some (OS.NFile f) ∧ OS.readable f = true ∧ p ≠ target
                ∧ r.2 = World (<[target := OS.NFile f]> (fs w)) false (FILE_STATS w)
                          (stdout w ++ [BackedUp p backup_file_path])
       | Raise e => r.2 = w
       end.
Proof.
  intros Hbp. destruct w as [fs0 dry st out0]. simpl.
  unfold backup_camera_cfg, bind, lift, get_DRY_RUN, io, print. rewrite Hbp. simpl.
  destruct dry; [done |]. simpl.
  unfold OS.copy2.
  set (target := if OS.is_dir fs0 backup_file_path then _ else _).
  case_bool_decide as Hne; [done |].
  destruct (fs0 !! p) as [[f|]|] eqn:Hp; try done.
  destruct (OS.readable f) eqn:Hr; [|done].
  rewrite write_text_eq. destruct (can_write fs0 target); [|done]. simpl.
  exists f. by rewrite insert_insert_eq.
Qed.

(** X9. Outside a dry run [modify_single_camera_cfg] never raises and
    never loses what the file held: afterwards the file is as it was, or
    its backup is the file as it was (content and permissions); the
    backup path is either untouched or holds that copy, whatever it held
    before; no other path changes and no directory is made or unmade.
    (The backup path is not an existing directory.) *)
Theorem modify_single_camera_cfg_keeps_original p (w : world) :
  DRY_RUN w = false → OS.is_dir (fs w) (bak p) = false →
  let r := modify_single p w in
  r.1 = Ok tt
  ∧ (fs r.2 !! p = fs w !! p ∨ fs r.2 !! bak p = fs w !! p)
  ∧ (fs r.2 !! bak p = fs w !! bak p ∨ fs r.2 !! bak p = fs w !! p)
  ∧ (∀ q, q ≠ p → q ≠ bak p → fs r.2 !! q = fs w !! q)
  ∧ (∀ q, OS.is_dir (fs r.2) q = OS.is_dir (fs w) q).
Proof.
  intros Hdry Hd.
  destruct (modify_single_camera_cfg_eq fl float str parse write p camera_name
              camera_zoom backup_ext disable_strict w) as (out & Hrun & _).
  simpl. rewrite Hrun, Hdry. simpl. split; [done |].
  split; [|split; [|split]].
  - rewrite modify_file_eq by done.
    destruct (load parse (negb disable_strict) (fs w) p) as [config|e]; [|by left].
    destruct (document_needs_change _ _ _) as [[|]|]; [|by left..].
    destruct (get_backup_file_path fl p backup_ext); [|by left].
    destruct (fs w !! p) as [[f|]|] eqn:Hp; try (by left).
    destruct (_ && _); [|by left].
    destruct (OS.writable f); simpl.
    + right. rewrite lookup_insert_ne by apply not_eq_sym, backup_of_ne.
      by rewrite lookup_insert_eq.
    + right. by rewrite lookup_insert_eq.
  - rewrite modify_file_eq by done.
    destruct (load parse (negb disable_strict) (fs w) p) as [config|e]; [|by left].
    destruct (document_needs_change _ _ _) as [[|]|]; [|by left..].
    destruct (get_backup_file_path fl p backup_ext); [|by left].
    destruct (fs w !! p) as [[f|]|] eqn:Hp; try (by left).
    destruct (_ && _); [|by left].
    destruct (OS.writable f); simpl.
    + right. rewrite lookup_insert_ne by apply not_eq_sym, backup_of_ne.
      by rewrite lookup_insert_eq.
    + right. by rewrite lookup_insert_eq.
  - intros q Hq Hqb. by apply modify_file_frame.
  - intros q. apply modify_file_is_dir.
Qed.

(** X10. Outside a dry run [restore_single_camera_cfg] goes one of three
    ways.  It leaves every file as it was;  or it puts the backup (content
    and permissions) in the place of the file and removes the backup,
    returns and counts the file restored and not errored;  or, when no
    entry can be removed from the directory, it puts the backup in the
    place of the file, fails to remove the backup, which stays as it was,
    returns and counts the file both restored and errored.  The backup is
    never removed unless the file holds its copy, and no other path
    changes.  (The file is not a directory.) *)
Theorem restore_single_camera_cfg_outcomes p (w : world) :
  DRY_RUN w = false → OS.is_dir (fs w) p = false →
  let r := restore_single p w in
  fs r.2 = fs w
  ∨ ∃ g, fs w !! bak p = Some (OS.NFile g)
         ∧ fs r.2 !! p = Some (OS.NFile g)
         ∧ (∀ q, q ≠ p → q ≠ bak p → fs r.2 !! q = fs w !! q)
         ∧ r.1 = Ok tt
         ∧ if OS.dir_writable (fs w) (PathLib.parent p)
           then fs r.2 = delete (bak p) (<[p := OS.NFile g]> (fs w))
                ∧ fs r.2 !! bak p = None
                ∧ FILE_STATS r.2
                  = Stats (total (FILE_STATS w)) (S (modified (FILE_STATS w)))
                      (unchanged (FILE_STATS w)) (errors (FILE_STATS w))
           else fs r.2 = <[p := OS.NFile g]> (fs w)
                ∧ fs r.2 !! bak p = Some (OS.NFile g)
                ∧ FILE_STATS r.2
                  = Stats (total (FILE_STATS w)) (S (modified (FILE_STATS w)))
                      (unchanged (FILE_STATS w)) (S (errors (FILE_STATS w))).
Proof.
  intros Hdry Hd.
  destruct (restore_single_camera_cfg_eq fl p backup_ext w) as (out & Hrun & _).
  simpl. rewrite Hrun, Hdry. simpl. rewrite restore_file_eq by done.
  destruct (get_backup_file_path fl p backup_ext); [|by left].
  destruct (negb _); [by left |].
  destruct (fs w !! bak p) as [[g|]|] eqn:Hb; try (by left).
  destruct (_ && _); [|by left].
  right. exists g. split; [done |].
  destruct (OS.dir_writable (fs w) (PathLib.parent p)); simpl.
  - split; [by rewrite lookup_delete_ne, lookup_insert_eq by apply backup_of_ne |].
    split; [intros q Hq Hqb; by rewrite lookup_delete_ne, lookup_insert_ne |].
    split; [done |]. split; [done |]. by rewrite lookup_delete_eq.
  - split; [by rewrite lookup_insert_eq |].
    split; [intros q Hq Hqb; by rewrite lookup_insert_ne |].
    split; [done |]. split; [done |].
    by rewrite lookup_insert_ne by apply not_eq_sym, backup_of_ne.
Qed.

End FileSafety.
(** ** The loop over the sections *)

Section Sections.
Context (float : Type) (str : float → float_str).
Context (camera_name : string) (camera_zoom : float).

Local Abbreviation zoom := (text (str camera_zoom)).
Local Abbreviation needs := (section_needs_change camera_name zoom).
Local Abbreviation rezoom1 := (rezoom_section camera_name zoom).

Lemma rezoom_section_own config n0 n :
  n0 ∈ configparser.sections config →
  _defaults (rezoom1 config n0) = _defaults config
  ∧ own_options (rezoom1 config n0) n
    = if bool_decide (n = n0) && holds (needs config n)
      then Dict.set "InitialZoom" zoom (own_options config n)
      else own_options config n.
Proof.
  intros Hn0. unfold rezoom_section.
  destruct (needs config n0) as [[|]|] eqn:Hneed.
  - rewrite set_zoom_eq by done. split; [done |]. unfold own_options at 1. simpl.
    case_bool_decide as Hn; simpl.
    + subst n0. by rewrite Hneed, get_set_eq.
    + by rewrite get_set_ne by done.
  - split; [done |]. case_bool_decide as Hn; [|done]. subst n0. by rewrite Hneed.
  - split; [done |]. case_bool_decide as Hn; [|done]. subst n0. by rewrite Hneed.
Qed.

Lemma foldl_rezoom_own l : ∀ config n,
  (∀ n0, n0 ∈ l → n0 ∈ configparser.sections config) →
  _defaults (foldl rezoom1 config l) = _defaults config
  ∧ own_options (foldl rezoom1 config l) n
    = if bool_decide (n ∈ l) && holds (needs config n)
      then Dict.set "InitialZoom" zoom (own_options config n)
      else own_options config n.
Proof.
  induction l as [|n0 l IH]; intros config n Hl; cbn [foldl].
  - split; [done |]. case_bool_decide as Hn; [by apply elem_of_nil in Hn | done].
  - assert (Hn0 : n0 ∈ configparser.sections config) by (apply Hl; by left).
    destruct (IH (rezoom1 config n0) n) as [Hdef Hown].
    { intros n1 Hn1. rewrite rezoom_section_sections by done. apply Hl. by right. }
    destruct (rezoom_section_own config n0 n Hn0) as [Hdef1 Hown1].
    split; [by rewrite Hdef |]. rewrite Hown, Hown1. clear Hown Hown1.
    destruct (decide (n = n0)) as [->|Hne].
    + rewrite (bool_decide_eq_true_2 (n0 = n0)) by done.
      rewrite (bool_decide_eq_true_2 (n0 ∈ n0 :: l)) by (by left). simpl.
      destruct (needs config n0) as [[|]|] eqn:Hneed; simpl.
      * destruct (rezoom_section_needs_done float str camera_name camera_zoom
                    config n0 Hn0 Hneed) as [-> _].
        simpl. by rewrite andb_false_r.
      * rewrite rezoom_section_id by (by rewrite Hneed). rewrite Hneed. simpl.
        by rewrite andb_false_r.
      * rewrite rezoom_section_id by (by rewrite Hneed). rewrite Hneed. simpl.
        by rewrite andb_false_r.
    + rewrite (bool_decide_eq_false_2 (n = n0)) by done. simpl.
      destruct (rezoom_section_needs_same float str camera_name camera_zoom
                  config n0 n Hn0 (not_eq_sym Hne)) as [-> _].
      assert (Hin : bool_decide (n ∈ n0 :: l) = bool_decide (n ∈ l)).
      { apply bool_decide_ext. rewrite elem_of_cons. tauto. }
      by rewrite Hin.
Qed.

(** The loop raises at the first section in which a look-up raises. *)
Lemma any_section_Raise f l e :
  any_section f l = Raise e
  ↔ ∃ l1 n l2, l = l1 ++ n :: l2 ∧ (∀ n', n' ∈ l1 → is_ok (f n') = true) ∧ f n = Raise e.
Proof.
  induction l as [|n l IH]; simpl.
  - split; [done |]. intros (l1 & n & l2 & Hl & _). by destruct l1.
  - destruct (f n) as [b|e0] eqn:Hn; simpl.
    + destruct (any_section f l) as [b'|e1]; simpl.
      * split; [done |]. intros (l1 & n1 & l2 & Hl & Hok & Hraise).
        destruct l1 as [|n0 l1]; simplify_eq/=; [congruence |].
        assert (Ok b' = Raise e :> result bool); [|done].
        apply IH. exists l1, n1, l2. split; [done |]. split; [|done].
        intros n' Hn'. apply Hok. by right.
      * split.
        -- intros [= ->]. destruct (proj1 IH eq_refl) as (l1 & n1 & l2 & -> & Hok & Hr).
           exists (n :: l1), n1, l2. split; [done |]. split; [|done].
           intros n' [->|Hn']%elem_of_cons; [by rewrite Hn | by apply Hok].
        -- intros (l1 & n1 & l2 & Hl & Hok & Hraise).
           destruct l1 as [|n0 l1]; simplify_eq/=; [congruence |].
           apply IH. exists l1, n1, l2. split; [done |]. split; [|done].
           intros n' Hn'. apply Hok. by right.
    + split.
      * intros [= ->]. exists [], n, l. split; [done |]. split; [|done].
        by intros n' ?%elem_of_nil.
      * intros (l1 & n1 & l2 & Hl & Hok & Hraise).
        destruct l1 as [|n0 l1]; simplify_eq/=; [congruence |].
        specialize (Hok n0 ltac:(by left)). by rewrite Hn in Hok.
Qed.

(** X11. The loop of [modify_single_camera_cfg] over the sections prints
    only messages about sections.  It raises when a look-up of [Title] or
    [InitialZoom] in a section raises -- the options are looked up in the
    section and then in the default section, and their values are
    interpolated -- with the exception of the first section in which one
    does.  Otherwise it keeps the sections, their order and the default
    section; outside a dry run it leaves the options of each section as
    they were, but for [InitialZoom] set to the zoom, in the section
    itself, where the section matches the camera name and the zoom it
    gives is another; in a dry run it leaves the document as it was.  In
    both it reports a matching title exactly when some section matches,
    and a modification exactly when some matching section gives an
    [InitialZoom] that is not the zoom. *)
Theorem modify_sections_document (config : ConfigParser) (w : world) :
  ∃ out,
    forallb section_msg out = true
    ∧ match document_needs_change camera_name zoom config with
      | Raise e =>
          modify_sections float str config camera_name camera_zoom w
          = (Raise e, set_stdout w (stdout w ++ out))
          ∧ ∃ l1 n l2,
              configparser.sections config = l1 ++ n :: l2
              ∧ (∀ n', n' ∈ l1 → is_ok (needs config n') = true)
              ∧ needs config n = Raise e
      | Ok changed =>
          ∃ config' found,
            modify_sections float str config camera_name camera_zoom w
            = (Ok (config', found, changed), set_stdout w (stdout w ++ out))
            ∧ configparser.sections config' = configparser.sections config
            ∧ _defaults config' = _defaults config
            ∧ (∀ n, n ∈ configparser.sections config →
                 is_ok (needs config n) = true
                 ∧ own_options config' n
                   = if negb (DRY_RUN w) && holds (needs config n)
                     then Dict.set "InitialZoom" zoom (own_options config n)
                     else own_options config n)
            ∧ (found = true
               ↔ ∃ n, n ∈ configparser.sections config
                      ∧ section_matches camera_name config n = Ok true)
            ∧ (changed = true
               ↔ ∃ n, n ∈ configparser.sections config ∧ needs config n = Ok true)
      end.
Proof.
  destruct (modify_sections_eq float str camera_name camera_zoom config w)
    as (out & Hrun & Hout).
  exists out. split; [done |].
  destruct (document_needs_change camera_name zoom config) as [changed|e] eqn:Hdoc.
  - eexists _, _. split; [exact Hrun |].
    unfold document_needs_change in Hdoc.
    apply any_section_Ok in Hdoc as [Hok Hchanged].
    split; [|split; [|split; [|split]]].
    + destruct (DRY_RUN w); [done |]. apply rezoom_sections.
    + destruct (DRY_RUN w); [done |]. by apply foldl_rezoom_own.
    + intros n Hn. split; [by apply Hok |].
      destruct (DRY_RUN w); simpl; [done |].
      unfold rezoom. destruct (foldl_rezoom_own (configparser.sections config) config n)
        as [_ ->]; [done |].
      by rewrite (bool_decide_eq_true_2 _ Hn).
    + unfold document_matches. rewrite existsb_exists. split.
      * intros (n & Hn%list_elem_of_In & Hm). exists n. split; [done |].
        by destruct (section_matches camera_name config n) as [[|]|].
      * intros (n & Hn%list_elem_of_In & Hm). exists n. by rewrite Hm.
    + rewrite Hchanged, existsb_exists. split.
      * intros (n & Hn%list_elem_of_In & Hm). exists n. split; [done |].
        by destruct (needs config n) as [[|]|].
      * intros (n & Hn%list_elem_of_In & Hm). exists n. by rewrite Hm.
  - split; [exact Hrun |]. by apply any_section_Raise.
Qed.

End Sections.

(** ** Backups and discovery *)

(** X12. For a discovered file the backup path is refused exactly when the
    extension holds a path separator; otherwise it is the file's sibling
    named [cameras.cfg] followed by the dotted extension, which discovery
    does not yield, and two discovered files never share a backup path. *)
Theorem backup_paths_of_discovered_files (fl : PathLib.flavour)
    (files : gmap Path OS.node) (community_folder : Path) (backup_ext : string)
    (file_path : Path) :
  file_path ∈ discover files community_folder →
  if PathLib.has_sep fl backup_ext
  then get_backup_file_path fl file_path backup_ext = Raise ValueError
  else ∃ backup_file_path,
         get_backup_file_path fl file_path backup_ext = Ok backup_file_path
         ∧ PathLib.parent backup_file_path = PathLib.parent file_path
         ∧ PathLib.name backup_file_path = "cameras.cfg" +:+ normalize_ext backup_ext
         ∧ (backup_file_path ∉ discover files community_folder)
         ∧ ∀ q, q ∈ discover files community_folder →
                get_backup_file_path fl q backup_ext = Ok backup_file_path →
                q = file_path.
Proof.
  intros Hq.
  destruct (proj2 (cfg_files_discover files community_folder) file_path Hq) as [Hne Hn].
  destruct (PathLib.has_sep fl backup_ext) eqn:Hsep.
  { by apply get_backup_file_path_sep. }
  exists (backup_of file_path backup_ext).
  split; [by apply get_backup_file_path_cfg |].
  split; [apply backup_of_parent |].
  split; [by rewrite backup_of_name, Hn |].
  split.
  - intros Hb.
    destruct (proj2 (cfg_files_discover files community_folder) _ Hb) as [_ Hbn].
    by apply (backup_of_ne_same_name backup_ext file_path (backup_of file_path backup_ext));
      [congruence |].
  - intros q Hq' Hb.
    destruct (proj2 (cfg_files_discover files community_folder) q Hq') as [Hqne Hqn].
    rewrite get_backup_file_path_cfg in Hb by done. injection Hb as Hb.
    apply (backup_of_inj backup_ext); [done | done | congruence | done].
Qed.

Lemma discover_same_files fs fs' top :
  (∀ r, OS.is_dir fs' r = OS.is_dir fs r) →
  (∀ r, PathLib.name r = "cameras.cfg" → is_Some (fs' !! r) ↔ is_Some (fs !! r)) →
  discover fs' top ≡ₚ discover fs top.
Proof.
  intros Hdir Hsome. apply NoDup_Permutation; [apply NoDup_discover.. |].
  intros q. split; intros Hq.
  - destruct (proj2 (cfg_files_discover fs' top) q Hq) as [_ Hn].
    apply (elem_of_discover_ext fs'); [done | by apply Hsome | done].
  - destruct (proj2 (cfg_files_discover fs top) q Hq) as [_ Hn].
    apply (elem_of_discover_ext fs); [done | by apply Hsome | done].
Qed.

Section WholeRuns.
Context (fl : PathLib.flavour) (float : Type) (str : float → float_str).
Context (parse : bool → string → result ConfigParser) (write : ConfigParser → string).
Context (camera_name : string) (camera_zoom : float) (backup_ext : string)
        (disable_strict : bool).
Implicit Types (fs : gmap Path OS.node) (p q r : Path).

Local Abbreviation zoom := (text (str camera_zoom)).
Local Abbreviation bak p := (backup_of p backup_ext).
Local Abbreviation modify1 dry fs p :=
  (modify_file fl float str parse write dry fs p camera_name camera_zoom
     backup_ext disable_strict).
Local Abbreviation restore1 dry fs p := (restore_file fl dry fs p backup_ext).
Local Abbreviation modify_all dry fs l :=
  (modify_files fl float str parse write dry fs l camera_name camera_zoom backup_ext
     disable_strict).
Local Abbreviation modify_run community_folder :=
  (find_and_modify_cameras fl float str parse write community_folder camera_name
     camera_zoom backup_ext disable_strict).
Local Abbreviation restore_run community_folder :=
  (find_and_restore_cameras fl community_folder backup_ext).

Lemma restore_files_sep dry l : ∀ fs,
  PathLib.has_sep fl backup_ext = true →
  restore_files fl dry fs l backup_ext
  = (match l with [] => [] | _ => [Aborted ValueError] end, fs).
Proof.
  intros fs Hsep. destruct l as [|q l]; simpl; [done |].
  unfold restore_file. by rewrite get_backup_file_path_sep.
Qed.

Lemma modify_files_same_files dry l fs :
  cfg_files l → (∀ q, q ∈ l → is_Some (fs !! q)) → no_backup_dirs fs backup_ext →
  (∀ r, OS.is_dir (modify_all dry fs l).2 r = OS.is_dir fs r)
  ∧ (∀ r, PathLib.name r = "cameras.cfg" →
          (is_Some ((modify_all dry fs l).2 !! r) ↔ is_Some (fs !! r))).
Proof.
  intros Hl Hsome Hnb. destruct dry.
  { destruct (modify_files_dry fl float str parse write camera_name camera_zoom
                backup_ext disable_strict l fs) as [-> _]. done. }
  destruct (modify_files_independent fl float str parse write camera_name camera_zoom
              backup_ext disable_strict l fs Hl Hnb) as (_ & Hdir & Hframe & Hlook).
  split; [done |]. intros r Hr.
  destruct (decide (r ∈ l)) as [Hin|Hin].
  - destruct (Hlook r Hin) as [-> _]. pose proof (Hsome r Hin) as Hs.
    split; [done |]. intros _.
    rewrite (modify_file_eq fl float str parse write camera_name camera_zoom backup_ext
               disable_strict) by (by apply no_backup_dirs_cfg).
    destruct (load parse (negb disable_strict) fs r); [|done].
    destruct (document_needs_change _ _ _) as [[|]|]; [|done..].
    destruct (get_backup_file_path fl r backup_ext); [|done].
    destruct (fs !! r) as [[f|]|] eqn:Hfr; try done.
    destruct (_ && _); [|done].
    destruct (OS.writable f); simpl; [by rewrite lookup_insert_eq |].
    rewrite lookup_insert_ne by apply backup_of_ne. by rewrite Hfr.
  - rewrite Hframe; [done |]. intros q Hq. split; [by intros -> |].
    destruct (proj2 Hl q Hq) as [_ Hqn].
    apply not_eq_sym, backup_of_ne_same_name. congruence.
Qed.

Lemma restore_files_same_files dry l fs :
  cfg_files l → (∀ q, q ∈ l → is_Some (fs !! q) ∧ OS.is_dir fs q = false) →
  (∀ r, OS.is_dir (restore_files fl dry fs l backup_ext).2 r = OS.is_dir fs r)
  ∧ (∀ r, PathLib.name r = "cameras.cfg" →
          (is_Some ((restore_files fl dry fs l backup_ext).2 !! r) ↔ is_Some (fs !! r))).
Proof.
  intros Hl Hsome. destruct dry; [by rewrite restore_files_dry |].
  destruct (PathLib.has_sep fl backup_ext) eqn:Hsep; [by rewrite restore_files_sep |].
  destruct (restore_files_independent fl backup_ext l fs Hl)
    as (_ & Hdir & Hframe & Hlook).
  { intros q Hq. destruct (proj2 Hl q Hq) as [_ Hqn].
    by rewrite get_backup_file_path_cfg. }
  { intros q Hq. by destruct (Hsome q Hq). }
  split; [done |]. intros r Hr.
  destruct (decide (r ∈ l)) as [Hin|Hin].
  - destruct (Hlook r Hin) as [-> _]. destruct (Hsome r Hin) as [Hs Hd].
    split; [done |]. intros _.
    rewrite restore_file_eq by done.
    destruct (get_backup_file_path fl r backup_ext); [|done].
    destruct (negb _); [done |].
    destruct (fs !! bak r) as [[g|]|]; try done.
    destruct (_ && _); [|done].
    destruct (OS.dir_writable fs (PathLib.parent r)); simpl.
    + rewrite lookup_delete_ne by apply backup_of_ne. by rewrite lookup_insert_eq.
    + by rewrite lookup_insert_eq.
  - rewrite Hframe; [done |]. intros q Hq. split; [by intros -> |].
    destruct (proj2 Hl q Hq) as [_ Hqn].
    apply not_eq_sym, backup_of_ne_same_name. congruence.
Qed.

(** X13. A run neither adds nor removes a file that discovery yields, so
    a later run over the same community folder processes the same files:
    the backups a modify run writes are not discovered, and the files a
    restore run puts back are the discovered ones.  For the modify flow
    this holds when no directory carries the name of a backup (the copy
    would go inside it, under the name [cameras.cfg]); for the restore
    flow it holds always. *)
Theorem discovery_stable (community_folder : Path) (w : world) :
  (no_backup_dirs (fs w) backup_ext →
   discover (fs (modify_run community_folder w).2) community_folder
   ≡ₚ discover (fs w) community_folder)
  ∧ discover (fs (restore_run community_folder w).2) community_folder
    ≡ₚ discover (fs w) community_folder.
Proof.
  destruct (find_and_modify_cameras_eq fl float str parse write community_folder
              camera_name camera_zoom backup_ext disable_strict w) as (out & -> & _).
  destruct (find_and_restore_cameras_eq fl community_folder backup_ext w)
    as (outr & -> & _).
  simpl. set (l := discover (fs w) community_folder).
  assert (Hl : cfg_files l) by apply cfg_files_discover.
  assert (Hfile : ∀ q, q ∈ l → is_Some (fs w !! q) ∧ OS.is_dir (fs w) q = false).
  { intros q Hq. by destruct (discover_file _ _ _ Hq) as (? & ? & _). }
  split; [intros Hnb |]; apply discover_same_files.
  - apply modify_files_same_files; [done | | done]. intros q Hq. by destruct (Hfile q Hq).
  - apply modify_files_same_files; [done | | done]. intros q Hq. by destruct (Hfile q Hq).
  - by apply restore_files_same_files.
  - by apply restore_files_same_files.
Qed.

(** *** What a dry run forecasts *)

Lemma modify_file_forecast fs p :
  match (modify1 true fs p).1 with
  | Unchanged => (modify1 false fs p).1 = Unchanged
  | Errored e => (modify1 false fs p).1 = Errored e
  | WouldModify =>
      (modify1 false fs p).1 = Rewritten
      ∨ (∃ e, (modify1 false fs p).1 = WriteFailed e)
      ∨ (∃ e, (modify1 false fs p).1 = Errored e)
  | _ => False
  end.
Proof.
  unfold modify_file.
  destruct (load parse (negb disable_strict) fs p) as [config|e]; [|done].
  destruct (document_needs_change _ _ _) as [[|]|]; [|done..].
  destruct (get_backup_file_path fl p backup_ext) as [bp|e]; [|done]. simpl.
  destruct (OS.copy2 fs p bp) as [fs1|e]; [|eauto].
  destruct (OS.write_text fs1 p _) as [fs2|e]; simpl; eauto.
Qed.

Lemma count_modify_forecast (dry real : Path → modify_outcome) l : ∀ sd sr,
  (∀ q, q ∈ l →
     match dry q with
     | Unchanged => real q = Unchanged
     | Errored e => real q = Errored e
     | WouldModify =>
         real q = Rewritten ∨ (∃ e, real q = WriteFailed e) ∨ (∃ e, real q = Errored e)
     | _ => False
     end) →
  let sd' := foldl (λ s o, count_modify o s) sd (dry <$> l) in
  let sr' := foldl (λ s o, count_modify o s) sr (real <$> l) in
  unchanged sr' + unchanged sd = unchanged sd' + unchanged sr
  ∧ (modified sr' + modified sd ≤ modified sd' + modified sr)%nat
  ∧ (errors sd' + errors sr ≤ errors sr' + errors sd)%nat
  ∧ (modified sd' + errors sd' + modified sr + errors sr
     ≤ modified sr' + errors sr' + modified sd + errors sd)%nat.
Proof.
  induction l as [|q l IH]; intros sd sr Hl; cbn [fmap list_fmap foldl]; [lia |].
  destruct (IH (count_modify (dry q) sd) (count_modify (real q) sr))
    as (H1 & H2 & H3 & H4); [intros q' Hq'; apply Hl; by right |].
  pose proof (Hl q ltac:(by left)) as Hq.
  change (list_fmap Path modify_outcome dry l) with (dry <$> l) in *.
  change (list_fmap Path modify_outcome real l) with (real <$> l) in *.
  destruct (dry q); try done.
  - rewrite Hq in *. simpl in *. lia.
  - rewrite Hq in *. simpl in *. lia.
  - destruct Hq as [Hq | [[e Hq] | [e Hq]]]; rewrite Hq in *; simpl in *; lia.
Qed.

(** X14. A dry run of the modify flow forecasts the real run on the same
    files: the same files are discovered and the same files are counted
    unchanged; the real run counts as modified no more files than the dry
    run announced, and at least as many errors, a file announced as
    modified being counted modified, errored or both.  So a real run
    without errors ends with the counts its dry run printed.  (No
    directory carries the name of a backup.) *)
Theorem dry_run_forecasts_modify (community_folder : Path) (w : world) :
  no_backup_dirs (fs w) backup_ext →
  let dry :=
    FILE_STATS (modify_run community_folder
                  (World (fs w) true (FILE_STATS w) (stdout w))).2 in
  let real :=
    FILE_STATS (modify_run community_folder
                  (World (fs w) false (FILE_STATS w) (stdout w))).2 in
  total real = total dry
  ∧ unchanged real = unchanged dry
  ∧ (modified real ≤ modified dry)%nat
  ∧ (errors dry ≤ errors real)%nat
  ∧ (modified dry + errors dry ≤ modified real + errors real)%nat
  ∧ (errors real = 0 → real = dry).
Proof.
  intros Hnb.
  destruct (find_and_modify_cameras_eq fl float str parse write community_folder
              camera_name camera_zoom backup_ext disable_strict
              (World (fs w) true (FILE_STATS w) (stdout w))) as (outd & -> & _).
  destruct (find_and_modify_cameras_eq fl float str parse write community_folder
              camera_name camera_zoom backup_ext disable_strict
              (World (fs w) false (FILE_STATS w) (stdout w))) as (outr & -> & _).
  simpl. set (l := discover (fs w) community_folder).
  destruct (modify_files_independent fl float str parse write camera_name camera_zoom
              backup_ext disable_strict l (fs w)) as (-> & _);
    [apply cfg_files_discover | done |].
  rewrite (modify_files_fixed fl float str parse write camera_name camera_zoom backup_ext
             disable_strict true l (fs w))
    by (intros q _; apply modify_file_dry).
  cbn [fst].
  destruct (count_modify_forecast (λ q, (modify1 true (fs w) q).1)
              (λ q, (modify1 false (fs w) q).1) l
              (Stats (length l) 0 0 0) (Stats (length l) 0 0 0))
    as (H1 & H2 & H3 & H4); [intros q _; apply modify_file_forecast |].
  rewrite !count_modify_total. cbn [total] in *.
  set (sd := foldl _ _ ((λ q, (modify1 true (fs w) q).1) <$> l)) in *.
  set (sr := foldl _ _ ((λ q, (modify1 false (fs w) q).1) <$> l)) in *.
  assert (Htd : total sd = length l) by apply count_modify_total.
  assert (Htr : total sr = length l) by apply count_modify_total.
  simpl in *. repeat split; try lia.
  intros He. destruct sd, sr. simpl in *. f_equal; lia.
Qed.

Lemma restore_file_forecast fs p :
  is_ok (get_backup_file_path fl p backup_ext) = true →
  match (restore1 true fs p).1 with
  | NoBackup => (restore1 false fs p).1 = NoBackup
  | WouldRestore =>
      (restore1 false fs p).1 = Restored
      ∨ (∃ e, (restore1 false fs p).1 = CopyFailed e)
      ∨ (∃ e, (restore1 false fs p).1 = RemoveFailed e)
  | _ => False
  end.
Proof.
  unfold restore_file.
  destruct (get_backup_file_path fl p backup_ext) as [bp|e]; [|done]. intros _.
  destruct (negb _); [done |]. simpl.
  destruct (OS.copy2 fs bp p) as [fs1|e]; [|eauto].
  destruct (OS.remove fs1 bp) as [fs2|e]; simpl; eauto.
Qed.

Lemma restore_files_dry_eq l : ∀ fs,
  (∀ q, q ∈ l → is_ok (get_backup_file_path fl q backup_ext) = true) →
  (restore_files fl true fs l backup_ext).1 = (λ q, (restore1 true fs q).1) <$> l.
Proof.
  induction l as [|q l IH]; intros fs Hok; simpl; [done |].
  pose proof (restore_file_dry fl backup_ext fs q) as Hfs.
  pose proof (restore_file_not_aborted fl backup_ext true fs q (Hok q ltac:(by left)))
    as Hna.
  destruct (restore1 true fs q) as [o fs1]. simpl in *. subst fs1.
  rewrite <- IH by (intros q' Hq'; apply Hok; by right).
  destruct o; try done. by destruct (Hna e).
Qed.

Lemma count_restore_forecast (dry real : Path → restore_outcome) l : ∀ sd sr,
  (∀ q, q ∈ l →
     match dry q with
     | NoBackup => real q = NoBackup
     | WouldRestore =>
         real q = Restored ∨ (∃ e, real q = CopyFailed e) ∨ (∃ e, real q = RemoveFailed e)
     | _ => False
     end) →
  let sd' := foldl (λ s o, count_restore o s) sd (dry <$> l) in
  let sr' := foldl (λ s o, count_restore o s) sr (real <$> l) in
  modified sr' + modified sd = modified sd' + modified sr
  ∧ unchanged sr' + unchanged sd = unchanged sd' + unchanged sr
  ∧ errors sd' = errors sd
  ∧ aborted (dry <$> l) = None ∧ aborted (real <$> l) = None.
Proof.
  induction l as [|q l IH]; intros sd sr Hl; cbn [fmap list_fmap foldl];
    [repeat split; try done; lia |].
  destruct (IH (count_restore (dry q) sd) (count_restore (real q) sr))
    as (H1 & H2 & H3 & H4 & H5); [intros q' Hq'; apply Hl; by right |].
  pose proof (Hl q ltac:(by left)) as Hq.
  change (list_fmap Path restore_outcome dry l) with (dry <$> l) in *.
  change (list_fmap Path restore_outcome real l) with (real <$> l) in *.
  destruct (dry q) eqn:Hd; try done.
  - rewrite Hq in *. rewrite !aborted_cons by done. simpl in *. repeat split; try done; lia.
  - destruct Hq as [Hq | [[e Hq] | [e Hq]]]; rewrite Hq in *;
      rewrite !aborted_cons by done; simpl in *; repeat split; try done; lia.
Qed.

(** X15. A dry run of the restore flow forecasts the real run on the same
    files: it returns or raises as the real run does and ends with the
    same numbers of processed files, restored files and files without
    backup; it never counts an error.  (The real run counts a file whose
    restore failed as restored too.) *)
Theorem dry_run_forecasts_restore (community_folder : Path) (w : world) :
  let dry := restore_run community_folder (World (fs w) true (FILE_STATS w) (stdout w)) in
  let real := restore_run community_folder (World (fs w) false (FILE_STATS w) (stdout w)) in
  dry.1 = real.1
  ∧ total (FILE_STATS dry.2) = total (FILE_STATS real.2)
  ∧ modified (FILE_STATS dry.2) = modified (FILE_STATS real.2)
  ∧ unchanged (FILE_STATS dry.2) = unchanged (FILE_STATS real.2)
  ∧ errors (FILE_STATS dry.2) = 0.
Proof.
  destruct (find_and_restore_cameras_eq fl community_folder backup_ext
              (World (fs w) true (FILE_STATS w) (stdout w))) as (outd & -> & _).
  destruct (find_and_restore_cameras_eq fl community_folder backup_ext
              (World (fs w) false (FILE_STATS w) (stdout w))) as (outr & -> & _).
  cbn [fs DRY_RUN FILE_STATS fst snd]. set (l := discover (fs w) community_folder).
  destruct (PathLib.has_sep fl backup_ext) eqn:Hsep.
  { rewrite !restore_files_sep by done. cbn [fst snd]. by destruct l. }
  assert (Hok : ∀ q, q ∈ l → is_ok (get_backup_file_path fl q backup_ext) = true).
  { intros q Hq. destruct (proj2 (cfg_files_discover (fs w) community_folder) q Hq) as [_ Hn].
    by rewrite get_backup_file_path_cfg. }
  destruct (restore_files_independent fl backup_ext l (fs w)) as (-> & _);
    [apply cfg_files_discover | done | |].
  { intros q Hq. by destruct (discover_file _ _ _ Hq) as (_ & ? & _). }
  rewrite restore_files_dry_eq by done.
  destruct (count_restore_forecast (λ q, (restore1 true (fs w) q).1)
              (λ q, (restore1 false (fs w) q).1) l
              (Stats (length l) 0 0 0) (Stats (length l) 0 0 0))
    as (H1 & H2 & H3 & -> & ->).
  { intros q Hq. apply restore_file_forecast. by apply Hok. }
  rewrite !count_restore_total. simpl in *. repeat split; try done; lia.
Qed.

End WholeRuns.

(** ** The entry point *)

Section MainFacts.
Context (fl : PathLib.flavour) (float : Type) (str : float → float_str)
        (truth : float → bool).
Context (parse : bool → string → result ConfigParser) (write : ConfigParser → string).

Local Abbreviation main := (Main.main fl float str truth parse write).
Local Abbreviation usage :=
  (Main.UsageError "--modify requires --camera-name and --camera-zoom").



(** X17. [main] hands [--dry-run] to the flows before they start: with it
    no file is created, changed or removed, whichever flow is asked for
    and however the program ends. *)
Theorem main_dry_run (a : Main.args float) (files : gmap Path OS.node) :
  Main.dry_run a = true → (main a files).1.2 = files.
Proof.
  intros Hdry. unfold Main.main. rewrite Hdry.
  destruct (Main.modify a).
  - destruct (_ || _); [done |].
    destruct (find_and_modify_cameras_eq fl float str parse write (Main.community_folder a)
                (Main.camera_name a) (Main.camera_zoom a) (Main.backup_ext a)
                (Main.disable_strict a) (World files true (Stats 0 0 0 0) []))
      as (out & -> & _).
    simpl.
    by destruct (modify_files_dry fl float str parse write (Main.camera_name a)
                   (Main.camera_zoom a) (Main.backup_ext a) (Main.disable_strict a)
                   (discover files (Main.community_folder a)) files) as [-> _].
  - destruct (Main.restore a); [|done].
    destruct (find_and_restore_cameras_eq fl (Main.community_folder a) (Main.backup_ext a)
                (World files true (Stats 0 0 0 0) [])) as (out & -> & _).
    simpl. apply restore_files_dry.
Qed.

End MainFacts.

(** ** Restore again *)

Section RestoreAgain.
Context (fl : PathLib.flavour) (backup_ext : string).
Implicit Types (fs : gmap Path OS.node) (p q r : Path).

Local Abbreviation bak p := (backup_of p backup_ext).
Local Abbreviation restore1 dry fs p := (restore_file fl dry fs p backup_ext).
Local Abbreviation restore_run community_folder :=
  (find_and_restore_cameras fl community_folder backup_ext).

(** A file restored, or found without backup, has no backup afterwards;
    a file whose restore failed fails again and stays as it is. *)
Lemma restore_file_again fs fs1 q :
  OS.is_dir fs q = false → OS.is_dir fs1 q = false →
  is_ok (get_backup_file_path fl q backup_ext) = true →
  fs1 !! q = (restore1 false fs q).2 !! q →
  fs1 !! bak q = (restore1 false fs q).2 !! bak q →
  OS.dir_writable fs1 (PathLib.parent q) = OS.dir_writable fs (PathLib.parent q) →
  (restore1 false fs1 q).2 = fs1
  ∧ ((restore1 false fs1 q).1 = NoBackup
     ∨ restore_failed (restore1 false fs1 q).1 ∧ restore_failed (restore1 false fs q).1).
Proof.
  intros Hd Hd1 Hok Hq Hbq Hpar. unfold restore_failed.
  rewrite (restore_file_eq fl backup_ext fs q Hd) in Hq, Hbq |- *.
  rewrite (restore_file_eq fl backup_ext fs1 q Hd1).
  destruct (get_backup_file_path fl q backup_ext); [|done].
  assert (Hex : ∀ fs', OS.exists_ fs' (bak q)
                       = match fs' !! bak q with Some _ => true | None => false end).
  { intros fs'. unfold OS.exists_. destruct (fs' !! bak q) eqn:Hfs'.
    - apply bool_decide_eq_true_2. eauto.
    - apply bool_decide_eq_false_2. by intros [? ?]. }
  rewrite !Hex in *. rewrite Hpar.
  destruct (fs !! bak q) as [[g|]|] eqn:Hb; simpl in *.
  - destruct (OS.readable g && can_write fs q) eqn:Hc; simpl in *.
    + destruct (OS.dir_writable fs (PathLib.parent q)) eqn:Hw; simpl in *.
      * rewrite lookup_delete_eq in Hbq. rewrite Hbq. simpl. auto.
      * rewrite lookup_insert_eq in Hq.
        rewrite lookup_insert_ne in Hbq by apply not_eq_sym, backup_of_ne.
        rewrite Hbq, Hb. simpl.
        apply andb_true_iff in Hc as [-> _]. unfold can_write. rewrite Hq. simpl.
        destruct (OS.writable g); simpl; [|eauto 8].
        rewrite insert_id by done. eauto 8.
    + rewrite Hbq, Hb. simpl.
      rewrite (can_write_agree fs fs1 q Hq Hpar), Hc. simpl. eauto 8.
  - rewrite Hbq, Hb. simpl. eauto 8.
  - rewrite Hbq, Hb. simpl. auto.
Qed.

Lemma restore_files_fixed dry l : ∀ fs,
  (∀ q, q ∈ l → (restore1 dry fs q).2 = fs ∧ ∀ e, (restore1 dry fs q).1 ≠ Aborted e) →
  restore_files fl dry fs l backup_ext = ((λ q, (restore1 dry fs q).1) <$> l, fs).
Proof.
  induction l as [|q l IH]; intros fs Hl; simpl; [done |].
  destruct (Hl q ltac:(by left)) as [Hfs Hna]. rewrite Hfs.
  rewrite IH by (intros q' Hq'; apply Hl; by right). simpl.
  destruct (restore1 dry fs q).1 eqn:Ho; try done. by destruct (Hna e).
Qed.

Lemma count_restore_failed (g : Path → restore_outcome) l : ∀ s,
  (∀ q, q ∈ l → g q = NoBackup ∨ restore_failed (g q)) →
  let s' := foldl (λ s o, count_restore o s) s (g <$> l) in
  modified s' + errors s = errors s' + modified s
  ∧ aborted (g <$> l) = None
  ∧ ((∀ q, q ∈ l → g q = NoBackup) → modified s' = modified s).
Proof.
  induction l as [|q l IH]; intros s Hl; cbn [fmap list_fmap foldl];
    [repeat split; try done; lia |].
  destruct (IH (count_restore (g q) s)) as (H1 & H2 & H3);
    [intros q' Hq'; apply Hl; by right |].
  change (list_fmap Path restore_outcome g l) with (g <$> l) in *.
  cbn zeta in *.
  split; [|split].
  - destruct (Hl q ltac:(by left)) as [Hq | [e [Hq|Hq]]]; rewrite Hq in *;
      simpl in *; lia.
  - destruct (Hl q ltac:(by left)) as [Hq | [e [Hq|Hq]]]; rewrite Hq;
      by rewrite aborted_cons.
  - intros Hall. rewrite H3 by (intros q' Hq'; apply Hall; by right).
    by rewrite (Hall q ltac:(by left)).
Qed.

Lemma count_restore_errors (g : Path → restore_outcome) l : ∀ s,
  let s' := foldl (λ s o, count_restore o s) s (g <$> l) in
  (errors s ≤ errors s')%nat
  ∧ (errors s' = errors s → ∀ q, q ∈ l → ¬ restore_failed (g q)).
Proof.
  induction l as [|q l IH]; intros s; cbn [fmap list_fmap foldl].
  { split; [done |]. by intros _ q ?%elem_of_nil. }
  destruct (IH (count_restore (g q) s)) as [H1 H2].
  change (list_fmap Path restore_outcome g l) with (g <$> l) in *.
  cbn zeta in *.
  assert (H0 : (errors s ≤ errors (count_restore (g q) s))%nat)
    by (destruct (g q); simpl; lia).
  split; [lia |]. intros He q' [->|Hq']%elem_of_cons.
  - intros [e [Hq|Hq]]; rewrite Hq in *; simpl in *; lia.
  - apply H2; [lia | done].
Qed.

(** X18. Restoring twice.  Outside a dry run a second restore run changes
    no file: the backups the first run restored are gone, and a restore
    that failed fails again.  So every file the second run counts as
    restored it also counts as errored, and after a first run without
    errors the second finds nothing to restore. *)
Theorem restore_twice (community_folder : Path) (w : world) :
  DRY_RUN w = false →
  let w1 := (restore_run community_folder w).2 in
  let w2 := (restore_run community_folder w1).2 in
  fs w2 = fs w1
  ∧ modified (FILE_STATS w2) = errors (FILE_STATS w2)
  ∧ (errors (FILE_STATS w1) = 0 → modified (FILE_STATS w2) = 0).
Proof.
  intros Hdry w1 w2.
  destruct (find_and_restore_cameras_eq fl community_folder backup_ext w)
    as (out1 & Hr1 & _).
  rewrite Hdry in Hr1. set (l := discover (fs w) community_folder) in *.
  assert (Hfs1 : fs w1 = (restore_files fl false (fs w) l backup_ext).2)
    by (unfold w1; by rewrite Hr1).
  assert (Hdry1 : DRY_RUN w1 = false) by (unfold w1; by rewrite Hr1).
  assert (Hst1 : FILE_STATS w1
                 = foldl (λ s o, count_restore o s) (Stats (length l) 0 0 0)
                     (restore_files fl false (fs w) l backup_ext).1)
    by (unfold w1; by rewrite Hr1).
  destruct (find_and_restore_cameras_eq fl community_folder backup_ext w1)
    as (out2 & Hr2 & _).
  rewrite Hdry1 in Hr2. set (l2 := discover (fs w1) community_folder) in *.
  destruct (PathLib.has_sep fl backup_ext) eqn:Hsep.
  { rewrite restore_files_sep in Hr2 by done. unfold w2. rewrite Hr2. simpl.
    by destruct l2. }
  assert (Hl : cfg_files l) by apply cfg_files_discover.
  assert (Hok : ∀ q, PathLib.name q = "cameras.cfg" →
                     is_ok (get_backup_file_path fl q backup_ext) = true).
  { intros q Hn. by rewrite get_backup_file_path_cfg. }
  assert (Hfile : ∀ q, q ∈ l → is_Some (fs w !! q) ∧ OS.is_dir (fs w) q = false).
  { intros q Hq. by destruct (discover_file _ _ _ Hq) as (? & ? & _). }
  destruct (restore_files_independent fl backup_ext l (fs w) Hl)
    as (Hos & Hdir & _ & Hlook).
  { intros q Hq. apply Hok. by destruct (proj2 Hl q Hq). }
  { intros q Hq. by destruct (Hfile q Hq). }
  rewrite <- Hfs1 in Hdir, Hlook. rewrite Hos in Hst1.
  assert (Hsub : ∀ q, q ∈ l2 → q ∈ l).
  { intros q Hq2.
    destruct (restore_files_same_files fl backup_ext false l (fs w) Hl Hfile)
      as [Hd Hs].
    rewrite <- Hfs1 in Hd, Hs.
    pose proof (discover_same_files (fs w) (fs w1) community_folder Hd Hs) as Hperm.
    fold l l2 in Hperm. by rewrite <- Hperm. }
  assert (Hagain : ∀ q, q ∈ l2 →
    (restore1 false (fs w1) q).2 = fs w1
    ∧ ((restore1 false (fs w1) q).1 = NoBackup
       ∨ restore_failed (restore1 false (fs w1) q).1
         ∧ restore_failed (restore1 false (fs w) q).1)).
  { intros q Hq2. pose proof (Hsub q Hq2) as Hq.
    destruct (Hlook q Hq) as [Hq1 Hb1]. destruct (Hfile q Hq) as [_ Hdq].
    apply restore_file_again; try done.
    - by rewrite Hdir.
    - apply Hok. by destruct (proj2 Hl q Hq).
    - rewrite Hfs1. apply restore_files_dir_writable. }
  rewrite (restore_files_fixed false l2 (fs w1)) in Hr2.
  2:{ intros q Hq2. destruct (Hagain q Hq2) as [Hfs Ho]. split; [done |].
      intros e He. rewrite He in Ho. by destruct Ho as [? | [[? [?|?]] _]]. }
  simpl in Hr2.
  destruct (count_restore_failed (λ q, (restore1 false (fs w1) q).1) l2
              (Stats (length l2) 0 0 0)) as (Hme & Hab & Hnone).
  { intros q Hq2. destruct (Hagain q Hq2) as [_ [? | [? _]]]; auto. }
  rewrite Hab in Hr2. unfold w2. rewrite Hr2. simpl in *.
  split; [done |]. split; [lia |].
  intros He. apply Hnone. intros q Hq2.
  destruct (Hagain q Hq2) as [_ [? | [_ Hfail]]]; [done |].
  destruct (count_restore_errors (λ q, (restore1 false (fs w) q).1) l
              (Stats (length l) 0 0 0)) as [_ Hno].
  rewrite <- Hst1 in Hno. by destruct (Hno He q (Hsub q Hq2)).
Qed.

End RestoreAgain.

(** ** The properties above on the concrete community folder *)



Lemma restore_run_aborts_witness :
  let w := Demo.start (Demo.folder (OS.File Demo.pilot_text true true)) false in
  (find_and_restore_cameras PathLib.Windows Demo.community "old/bak" w).1
  = Raise ValueError.
Proof.
  intros w.
  assert (Hd : discover (fs w) Demo.community = [Demo.cameras]) by (vm_compute; reflexivity).
  assert (Hne : discover (fs w) Demo.community ≠ []) by (rewrite Hd; discriminate).
  rewrite (restore_run_aborts PathLib.Windows "old/bak" Demo.community w eq_refl Hne).
  reflexivity.
Defined.


Lemma backup_camera_cfg_copies_witness :
  let w := Demo.start (Demo.folder (OS.File Demo.pilot_text true true)) true in
  backup_camera_cfg PathLib.Windows Demo.cameras "fix_aircraft_fov" w
  = (Ok tt, set_stdout w (stdout w ++ [DryWouldBackup Demo.cameras Demo.cameras_backup])).
Proof.
  intros w.
  assert (Hbp : get_backup_file_path PathLib.Windows Demo.cameras "fix_aircraft_fov"
                = Ok Demo.cameras_backup) by (vm_compute; reflexivity).
  exact (backup_camera_cfg_copies PathLib.Windows "fix_aircraft_fov" Demo.cameras w
           Demo.cameras_backup Hbp).
Defined.

Lemma modify_single_camera_cfg_keeps_original_witness :
  let w := Demo.start (Demo.folder (OS.File Demo.pilot_text true true)) false in
  (modify_single_camera_cfg PathLib.Windows float_str id MiniIni.parse MiniIni.write
     Demo.cameras "Pilot" Demo.zoom "fix_aircraft_fov" false w).1 = Ok tt.
Proof.
  intros w.
  assert (Hd : OS.is_dir (fs w) (backup_of Demo.cameras "fix_aircraft_fov") = false)
    by (vm_compute; reflexivity).
  destruct (modify_single_camera_cfg_keeps_original PathLib.Windows float_str id MiniIni.parse
              MiniIni.write "Pilot" Demo.zoom "fix_aircraft_fov" false Demo.cameras w
              eq_refl Hd) as [Hr _].
  exact Hr.
Defined.

Lemma restore_single_camera_cfg_outcomes_witness :
  let f := OS.File Demo.zoomed_text true true in
  let b := OS.File Demo.pilot_text true true in
  let w := Demo.start (Demo.locked_folder_with_backup f b) false in
  let r := restore_single_camera_cfg PathLib.Windows Demo.cameras "fix_aircraft_fov" w in
  fs r.2 !! Demo.cameras = Some (OS.NFile b)
  ∧ fs r.2 !! Demo.cameras_backup = Some (OS.NFile b)
  ∧ FILE_STATS r.2 = Stats 0 1 0 1.
Proof.
  intros f b w r.
  assert (Hd : OS.is_dir (fs w) Demo.cameras = false) by (vm_compute; reflexivity).
  assert (Hb : fs w !! backup_of Demo.cameras "fix_aircraft_fov" = Some (OS.NFile b))
    by (vm_compute; reflexivity).
  assert (Hf : fs w !! Demo.cameras = Some (OS.NFile f)) by (vm_compute; reflexivity).
  assert (Hdw : OS.dir_writable (fs w) (PathLib.parent Demo.cameras) = false)
    by (vm_compute; reflexivity).
  assert (Hbak : backup_of Demo.cameras "fix_aircraft_fov" = Demo.cameras_backup)
    by (vm_compute; reflexivity).
  destruct (restore_single_camera_cfg_outcomes PathLib.Windows "fix_aircraft_fov"
              Demo.cameras w eq_refl Hd) as [Hsame | (g & Hg & Hp & _ & _ & Hif)].
  - assert (Hc : fs r.2 !! Demo.cameras = Some (OS.NFile b)) by (vm_compute; reflexivity).
    fold r in Hsame. rewrite Hsame, Hf in Hc. discriminate Hc.
  - rewrite Hb in Hg. injection Hg as <-. rewrite Hdw, Hbak in Hif.
    destruct Hif as (_ & Hbq & Hst). split; [exact Hp |]. split; [exact Hbq | exact Hst].
Defined.

Lemma backup_paths_of_discovered_files_witness :
  let files := Demo.folder (OS.File Demo.pilot_text true true) in
  ∃ backup_file_path,
    get_backup_file_path PathLib.Windows Demo.cameras "fix_aircraft_fov"
    = Ok backup_file_path
    ∧ (backup_file_path ∉ discover files Demo.community).
Proof.
  intros files.
  assert (Hd : discover files Demo.community = [Demo.cameras]) by (vm_compute; reflexivity).
  assert (Hin : Demo.cameras ∈ discover files Demo.community)
    by (rewrite Hd; apply list_elem_of_singleton; reflexivity).
  destruct (backup_paths_of_discovered_files PathLib.Windows files Demo.community
              "fix_aircraft_fov" Demo.cameras Hin) as (bp & Hbp & _ & _ & Hno & _).
  exists bp. split; [exact Hbp | exact Hno].
Defined.

Lemma discovery_stable_witness :
  let w := Demo.start (Demo.folder (OS.File Demo.pilot_text true true)) false in
  discover (fs (Demo.modify w).2) Demo.community ≡ₚ discover (fs w) Demo.community.
Proof.
  intros w.
  destruct (discovery_stable PathLib.Windows float_str id MiniIni.parse MiniIni.write
              "Pilot" Demo.zoom "fix_aircraft_fov" false Demo.community w) as [Hm _].
  exact (Hm (Demo_no_backup_dirs _)).
Defined.

Lemma dry_run_forecasts_modify_witness :
  let files := Demo.folder (OS.File Demo.pilot_text true true) in
  unchanged (FILE_STATS (Demo.modify (Demo.start files false)).2)
  = unchanged (FILE_STATS (Demo.modify (Demo.start files true)).2).
Proof.
  intros files.
  destruct (dry_run_forecasts_modify PathLib.Windows float_str id MiniIni.parse MiniIni.write
              "Pilot" Demo.zoom "fix_aircraft_fov" false Demo.community
              (Demo.start files false) (Demo_no_backup_dirs _)) as (_ & Hu & _).
  exact Hu.
Defined.

Lemma main_dry_run_witness :
  let files := Demo.folder (OS.File Demo.pilot_text true true) in
  let a := Main.Args true false Demo.community "fix_aircraft_fov" "Pilot" Demo.zoom true false in
  (Main.main PathLib.Windows float_str id (λ z, negb (String.eqb z "0.0"))
     MiniIni.parse MiniIni.write a files).1.2 = files.
Proof.
  intros files a.
  exact (main_dry_run PathLib.Windows float_str id (λ z, negb (String.eqb z "0.0"))
           MiniIni.parse MiniIni.write a files eq_refl).
Defined.

Lemma restore_twice_witness :
  let f := OS.File Demo.zoomed_text true true in
  let b := OS.File Demo.pilot_text true true in
  let w := Demo.start (Demo.folder_with_backup f b) false in
  fs (Demo.restore (Demo.restore w).2).2 = fs (Demo.restore w).2.
Proof.
  intros f b w.
  destruct (restore_twice PathLib.Windows "fix_aircraft_fov" Demo.community w eq_refl)
    as [Hfs _].
  exact Hfs.
Defined.
